(** * Post-migration 42 of the performer tables

    A shallow embedding of [pkg/sqlite/migrations/42_postmigrate.go]:
    the alias pass ([migrate] / [migratePerformerAliases]), the duplicate
    pass ([migrateDuplicatePerformers] / [migrateDuplicatePerformer]) and
    the schema finalisation ([executeSchemaChanges]), run in sequence by
    [post42].

    Go strings are byte strings, modelled by [string]; Go's [int] is the
    64-bit two's complement integer, modelled by [Z] with the wrap-around
    written out; the two tables are lists of records in row order.  The
    calls to the database driver return what the driver decides: the
    migrator is written over a driver [fault] that can fail any of them,
    and the theorems say which of them hold of every run and which of
    the runs in which no call fails. *)

From Stdlib Require Import ZArith NArith List String Ascii Bool Lia.
From Stdlib Require Import Permutation Sorted DecimalString.
From Stdlib Require Import DecimalPos.
Import ListNotations.

Local Open Scope string_scope.
Local Open Scope list_scope.
Local Open Scope Z_scope.

(** ** The parts of Go's standard library the migration calls *)

Module Go.

(** [int] on the 64-bit targets the program is built for. *)
Definition minInt : Z := - 2 ^ 63.
Definition maxInt : Z := 2 ^ 63 - 1.

Definition wrap (n : Z) : Z := (n + 2 ^ 63) mod 2 ^ 64 - 2 ^ 63.

Definition add (a b : Z) : Z := wrap (a + b).

(** [a % b] truncates towards zero. *)
Definition rem (a b : Z) : Z := Z.rem a b.

(** *** strings.FieldsFunc

    The scan of the Go implementation: [cur] is the field being read
    (its bytes in reverse), [None] while between fields.  A separator
    closes the open field; the end of the string closes the last one.
    The separators used here are ASCII, so scanning bytes and scanning
    runes agree. *)
Definition close (cur : list ascii) : string :=
  string_of_list_ascii (rev cur).

Fixpoint fieldsFrom (f : ascii -> bool) (cur : option (list ascii))
         (s : string) : list string :=
  match s with
  | EmptyString =>
      match cur with
      | Some w => [close w]
      | None => []
      end
  | String c r =>
      if f c then
        match cur with
        | Some w => close w :: fieldsFrom f None r
        | None => fieldsFrom f None r
        end
      else
        match cur with
        | Some w => fieldsFrom f (Some (c :: w)) r
        | None => fieldsFrom f (Some [c]) r
        end
  end.

Definition FieldsFunc (s : string) (f : ascii -> bool) : list string :=
  fieldsFrom f None s.

(** [strings.ContainsRune(chars, r)] for an ASCII [r]. *)
Fixpoint ContainsRune (chars : string) (r : ascii) : bool :=
  match chars with
  | EmptyString => false
  | String c rest => Ascii.eqb c r || ContainsRune rest r
  end.

(** *** strings.TrimSpace

    White space is [unicode.IsSpace]: U+0009..U+000D, U+0020, U+0085,
    U+00A0, U+1680, U+2000..U+200A, U+2028, U+2029, U+202F, U+205F and
    U+3000, recognised here by their UTF-8 encodings. *)
Definition byte (c : ascii) : N := N_of_ascii c.

Definition asciiSpace (c : ascii) : bool :=
  let n := byte c in
  ((9 <=? n) && (n <=? 13) || (n =? 32))%N.

Definition space2 (c1 c2 : ascii) : bool :=
  ((byte c1 =? 0xC2) && ((byte c2 =? 0x85) || (byte c2 =? 0xA0)))%N.

Definition space3 (c1 c2 c3 : ascii) : bool :=
  let a := byte c1 in
  let b := byte c2 in
  let c := byte c3 in
  ((a =? 0xE1) && (b =? 0x9A) && (c =? 0x80)
   || (a =? 0xE2) && (b =? 0x80)
      && ((0x80 <=? c) && (c <=? 0x8A) || (c =? 0xA8) || (c =? 0xA9)
          || (c =? 0xAF))
   || (a =? 0xE2) && (b =? 0x81) && (c =? 0x9F)
   || (a =? 0xE3) && (b =? 0x80) && (c =? 0x80))%N.

(** [TrimLeftFunc(s, unicode.IsSpace)] *)
Fixpoint trimLeft (s : list ascii) : list ascii :=
  match s with
  | [] => []
  | c1 :: r1 =>
      if asciiSpace c1 then trimLeft r1
      else
        match r1 with
        | [] => s
        | c2 :: r2 =>
            if space2 c1 c2 then trimLeft r2
            else
              match r2 with
              | [] => s
              | c3 :: r3 => if space3 c1 c2 c3 then trimLeft r3 else s
              end
        end
  end.

(** [TrimRightFunc(s, unicode.IsSpace)], on the reversed bytes: the last
    rune is decoded from the end of the string. *)
Fixpoint trimRightRev (s : list ascii) : list ascii :=
  match s with
  | [] => []
  | c1 :: r1 =>
      if asciiSpace c1 then trimRightRev r1
      else
        match r1 with
        | [] => s
        | c2 :: r2 =>
            if space2 c2 c1 then trimRightRev r2
            else
              match r2 with
              | [] => s
              | c3 :: r3 => if space3 c3 c2 c1 then trimRightRev r3 else s
              end
        end
  end.

Definition TrimSpace (s : string) : string :=
  string_of_list_ascii
    (rev (trimRightRev (rev (trimLeft (list_ascii_of_string s))))).

(** *** strconv.Atoi and strconv.Itoa *)

Inductive numErr := ErrSyntax | ErrRange.

(** [*strconv.NumError]: the function, the input and the cause. *)
Record NumError := { Func : string; Num : string; Err : numErr }.

Definition digit (c : ascii) : option Z :=
  let n := byte c in
  if ((48 <=? n) && (n <=? 57))%N then Some (Z.of_N n - 48) else None.

(** The digit loop of [ParseUint(s, 10, 64)]: a byte that is no digit is
    a syntax error, a value that leaves 64 bits a range error, whichever
    the scan meets first. *)
Fixpoint parseDigits (s : string) (n : Z) : Z + numErr :=
  match s with
  | EmptyString => inl n
  | String c r =>
      match digit c with
      | None => inr ErrSyntax
      | Some d =>
          if (2 ^ 64 - 1) / 10 + 1 <=? n then inr ErrRange
          else
            let n1 := n * 10 + d in
            if 2 ^ 64 - 1 <? n1 then inr ErrRange else parseDigits r n1
      end
  end.

(** [ParseInt(s, 10, 0)] as [Atoi] calls it; the fast path of [Atoi] for
    short inputs returns the same values and errors. *)
Definition parseInt (s : string) : Z + numErr :=
  match s with
  | EmptyString => inr ErrSyntax
  | String c r =>
      let neg := Ascii.eqb c "-" in
      let body := if Ascii.eqb c "+" || neg then r else s in
      match body with
      | EmptyString => inr ErrSyntax
      | _ =>
          match parseDigits body 0 with
          | inr e => inr e
          | inl un =>
              if negb neg && (2 ^ 63 <=? un) then inr ErrRange
              else if neg && (2 ^ 63 <? un) then inr ErrRange
              else inl (if neg then - un else un)
          end
      end
  end.

Definition Atoi (s : string) : Z + NumError :=
  match parseInt s with
  | inl n => inl n
  | inr e => inr {| Func := "Atoi"; Num := s; Err := e |}
  end.

Definition Itoa (n : Z) : string := NilZero.string_of_int (Z.to_int n).

End Go.

(** ** The tables *)

(** Modelled from the spec: the schema of [performers] is not among the
    sources.  [id] is the integer primary key (the rowid), [name] a
    text column and [disambiguation] an optional text column, which the
    code reads into a [sql.NullString] and writes from [strconv.Itoa]. *)
Record performer := {
  id : Z;
  name : string;
  disambiguation : option string
}.

(** Modelled from the spec: the schema of [performer_aliases] is not
    among the sources.  A performer can have many rows. *)
Record alias_row := {
  performer_id : Z;
  alias : string
}.

(** The two partial unique indexes of [executeSchemaChanges]. *)
Inductive index :=
| performers_name_disambiguation_unique
| performers_name_unique.

Record database := {
  performers : list performer;
  performer_aliases : list alias_row;
  indexes : list index
}.

(** The errors the migration returns.  [ErrStorage] is an error the
    database driver gives for a call, by its text: a failed read or
    write, a locked database, a cancelled context, or a constraint of
    the schema that the tables above do not show. *)
Inductive error :=
| ErrNoRows
| ErrTxDone
| ErrNum (e : Go.NumError)
| ErrConstraint (i : index)
| ErrIndexExists (i : index)
| ErrStorage (text : string)
| ErrWrap (msg : string) (e : error).

(** ** SQL *)

Module Sql.

Definition limit : nat := 1000.

(** [ORDER BY key]: a stable insertion sort.  The queries name no
    second key, so the order among rows of equal key is not theirs to
    fix; rows of equal key are taken in table order here, and what is
    proved of the order of a page is proved for distinct keys. *)
Fixpoint insertBy {A : Type} (key : A -> Z) (x : A) (l : list A) : list A :=
  match l with
  | [] => [x]
  | y :: r => if key x <=? key y then x :: l else y :: insertBy key x r
  end.

Definition orderBy {A : Type} (key : A -> Z) (l : list A) : list A :=
  fold_right (insertBy key) [] l.

(** [SELECT performer_id, alias FROM performer_aliases
     [WHERE performer_id > lastID] ORDER BY performer_id LIMIT 1000];
    the WHERE clause is only there when [lastID] is not 0. *)
Definition afterID (lastID : Z) (r : alias_row) : bool :=
  lastID <? performer_id r.

Definition aliasCandidates (lastID : Z) (t : list alias_row) : list alias_row :=
  orderBy performer_id (if lastID =? 0 then t else filter (afterID lastID) t).

Definition selectAliases (lastID : Z) (d : database) : list alias_row :=
  firstn limit (aliasCandidates lastID (performer_aliases d)).

(** [SELECT id, name FROM performers WHERE disambiguation IS NULL AND
     EXISTS (SELECT 1 FROM performers p2 WHERE performers.name = p2.name
     AND performers.rowid > p2.rowid) ORDER BY id LIMIT 1000] *)
Definition earlier (p p2 : performer) : bool :=
  String.eqb (name p) (name p2) && (id p2 <? id p).

Definition isDuplicate (ps : list performer) (p : performer) : bool :=
  match disambiguation p with
  | None => existsb (earlier p) ps
  | Some _ => false
  end.

Definition duplicates (ps : list performer) : list performer :=
  filter (isDuplicate ps) ps.

Definition selectDuplicates (d : database) : list (Z * string) :=
  map (fun p => (id p, name p))
      (firstn limit (orderBy id (duplicates (performers d)))).

(** The order of a nullable text column: NULL sorts before every text,
    texts compare byte by byte. *)
Definition le (a b : option string) : bool :=
  match a, b with
  | None, _ => true
  | Some _, None => false
  | Some x, Some y => String.leb x y
  end.

Definition greatest (a b : option string) : option string :=
  if le a b then b else a.

(** [SELECT disambiguation FROM performers WHERE name = ?
     ORDER BY disambiguation DESC LIMIT 1], read with [Get]: no row at
    all is [None], else the greatest value, NULL if every one is. *)
Definition selectMaxDisambiguation (nm : string) (d : database)
  : option (option string) :=
  match map disambiguation
            (filter (fun p => String.eqb (name p) nm) (performers d)) with
  | [] => None
  | v :: vs => Some (fold_left greatest vs v)
  end.

(** The key of a row in an index, [None] when the WHERE clause of the
    index leaves the row out. *)
Definition indexKey (i : index) (p : performer)
  : option (string * option string) :=
  match i, disambiguation p with
  | performers_name_disambiguation_unique, Some v => Some (name p, Some v)
  | performers_name_unique, None => Some (name p, None)
  | _, _ => None
  end.

Fixpoint indexKeys (i : index) (ps : list performer)
  : list (string * option string) :=
  match ps with
  | [] => []
  | p :: r =>
      match indexKey i p with
      | Some k => k :: indexKeys i r
      | None => indexKeys i r
      end
  end.

Definition keyEqb (a b : string * option string) : bool :=
  String.eqb (fst a) (fst b)
  && match snd a, snd b with
     | Some x, Some y => String.eqb x y
     | None, None => true
     | _, _ => false
     end.

Fixpoint distinct (l : list (string * option string)) : bool :=
  match l with
  | [] => true
  | k :: r => negb (existsb (keyEqb k) r) && distinct r
  end.

Definition unique (i : index) (ps : list performer) : bool :=
  distinct (indexKeys i ps).

Fixpoint hasIndex (i : index) (l : list index) : bool :=
  match l with
  | [] => false
  | j :: r =>
      match i, j with
      | performers_name_disambiguation_unique,
        performers_name_disambiguation_unique => true
      | performers_name_unique, performers_name_unique => true
      | _, _ => hasIndex i r
      end
  end.

(** The first installed index that a performers table violates. *)
Fixpoint violated (l : list index) (ps : list performer) : option index :=
  match l with
  | [] => None
  | i :: r => if unique i ps then violated r ps else Some i
  end.

Inductive stmt :=
| DeleteAliases (pid : Z)
| InsertAlias (pid : Z) (a : string)
| UpdateDisambiguation (v : string) (pid : Z)
| CreateUniqueIndex (i : index).

Definition setDisambiguation (v : string) (pid : Z) (p : performer)
  : performer :=
  if id p =? pid
  then {| id := id p; name := name p; disambiguation := Some v |}
  else p.

(** What one statement does to the tables once the driver has taken
    it.  An UPDATE has to respect the unique indexes that are installed;
    CREATE UNIQUE INDEX fails when the index exists or the rows it
    covers are not distinct.  The constraints of [performer_aliases] are
    in the schema, which is not among the sources: a DELETE or INSERT
    that the driver refuses comes as an [ErrStorage] of [Exec]. *)
Definition exec (q : stmt) (d : database) : database + error :=
  match q with
  | DeleteAliases pid =>
      inl {| performers := performers d;
             performer_aliases :=
               filter (fun r => negb (performer_id r =? pid))
                      (performer_aliases d);
             indexes := indexes d |}
  | InsertAlias pid a =>
      inl {| performers := performers d;
             performer_aliases :=
               performer_aliases d
               ++ [{| performer_id := pid; alias := a |}];
             indexes := indexes d |}
  | UpdateDisambiguation v pid =>
      let ps := map (setDisambiguation v pid) (performers d) in
      match violated (indexes d) ps with
      | Some i => inr (ErrConstraint i)
      | None =>
          inl {| performers := ps;
                 performer_aliases := performer_aliases d;
                 indexes := indexes d |}
      end
  | CreateUniqueIndex i =>
      if hasIndex i (indexes d) then inr (ErrIndexExists i)
      else if unique i (performers d)
           then inl {| performers := performers d;
                       performer_aliases := performer_aliases d;
                       indexes := indexes d ++ [i] |}
           else inr (ErrConstraint i)
  end.

End Sql.
(** ** The performer edit panel

    The pure parts of [PerformerEditPanel.tsx].  JavaScript strings are
    taken as well-formed text and held in UTF-8, like the strings of the
    migration; [undefined] and [null] are [None]. *)

Module Panel.

(** A string is truthy when it is there and not empty. *)
Definition truthy (v : option string) : bool :=
  match v with
  | Some EmptyString => false
  | Some _ => true
  | None => false
  end.

(** The outcome of one [if (...) formik.setFieldValue(...)] step of
    [updatePerformerEditStateFromScraper]: the field is set, left as it
    is, or the step throws. *)
Inductive update (T : Type) :=
| TypeError
| Untouched
| SetValue (v : T).

Arguments TypeError {T}.
Arguments Untouched {T}.
Arguments SetValue {T} v.

(** The [unique] test of [alias_list] in the schema:
    [(value ?? []).length === new Set(value).size]. *)
Definition setSize (value : option (list string)) : nat :=
  match value with
  | Some l => List.length (nodup string_dec l)
  | None => 0
  end.

Definition aliasesUnique (value : option (list string)) : bool :=
  Nat.eqb (List.length (match value with Some l => l | None => [] end))
          (setSize value).

(** [String.prototype.split] with a separator of one character. *)
Fixpoint split (sep : ascii) (s : string) : list string :=
  match s with
  | EmptyString => [EmptyString]
  | String c r =>
      if Ascii.eqb c sep then EmptyString :: split sep r
      else
        match split sep r with
        | h :: t => String c h :: t
        | [] => [String c EmptyString]
        end
  end.

(** [String.prototype.trim]: the white space of ECMAScript is U+0009 to
    U+000D, U+0020, U+00A0, U+1680, U+2000 to U+200A, U+2028, U+2029,
    U+202F, U+205F, U+3000 and U+FEFF. *)
Definition space1 (c : ascii) : bool :=
  let n := Go.byte c in
  ((9 <=? n) && (n <=? 13) || (n =? 32))%N.

Definition space2 (c1 c2 : ascii) : bool :=
  ((Go.byte c1 =? 0xC2) && (Go.byte c2 =? 0xA0))%N.

Definition space3 (c1 c2 c3 : ascii) : bool :=
  let a := Go.byte c1 in
  let b := Go.byte c2 in
  let c := Go.byte c3 in
  ((a =? 0xE1) && (b =? 0x9A) && (c =? 0x80)
   || (a =? 0xE2) && (b =? 0x80)
      && ((0x80 <=? c) && (c <=? 0x8A) || (c =? 0xA8) || (c =? 0xA9)
          || (c =? 0xAF))
   || (a =? 0xE2) && (b =? 0x81) && (c =? 0x9F)
   || (a =? 0xE3) && (b =? 0x80) && (c =? 0x80)
   || (a =? 0xEF) && (b =? 0xBB) && (c =? 0xBF))%N.

Fixpoint trimStart (s : list ascii) : list ascii :=
  match s with
  | [] => []
  | c1 :: r1 =>
      if space1 c1 then trimStart r1
      else
        match r1 with
        | [] => s
        | c2 :: r2 =>
            if space2 c1 c2 then trimStart r2
            else
              match r2 with
              | [] => s
              | c3 :: r3 => if space3 c1 c2 c3 then trimStart r3 else s
              end
        end
  end.

Fixpoint trimEndRev (s : list ascii) : list ascii :=
  match s with
  | [] => []
  | c1 :: r1 =>
      if space1 c1 then trimEndRev r1
      else
        match r1 with
        | [] => s
        | c2 :: r2 =>
            if space2 c2 c1 then trimEndRev r2
            else
              match r2 with
              | [] => s
              | c3 :: r3 => if space3 c3 c2 c1 then trimEndRev r3 else s
              end
        end
  end.

Definition trim (s : string) : string :=
  string_of_list_ascii
    (rev (trimEndRev (rev (trimStart (list_ascii_of_string s))))).

(** [if (state.aliases) formik.setFieldValue("alias_list",
     state.aliases.split(",").map((a) => a.trim()))] *)
Definition scrapedAliases (aliases : option string)
  : update (list string) :=
  match aliases with
  | Some a =>
      if truthy aliases then SetValue (map trim (split "," a))
      else Untouched
  | None => Untouched
  end.

(** An entry of [stash_ids]. *)
Record StashIDInput := {
  endpoint : string;
  stash_id : string
}.

(** The stash id step of [updatePerformerEditStateFromScraper].
    [scraper] is the selected scraper, [None] when none is selected;
    of the scraper the step reads the [endpoint] property only, which a
    scraper that is no stash-box does not have. *)
Definition scrapedStashIDs (remote_site_id : option string)
           (scraper : option (option string))
           (stash_ids : option (list StashIDInput))
  : update (list StashIDInput) :=
  match remote_site_id with
  | Some remoteSiteID =>
      if truthy remote_site_id then
        match scraper with
        | None => TypeError
        | Some scraperEndpoint =>
            match scraperEndpoint with
            | Some ep =>
                if truthy scraperEndpoint then
                  SetValue
                    (filter (fun x => negb (String.eqb (endpoint x) ep))
                            (match stash_ids with
                             | Some l => l
                             | None => []
                             end)
                     ++ [{| endpoint := ep; stash_id := remoteSiteID |}])
                else Untouched
            | None => Untouched
            end
        end
      else Untouched
  | None => Untouched
  end.

End Panel.

(** The pieces of [split] with the open field of the scan put in front
    of the first of them. *)
Definition attach (cur : option (list ascii)) (l : list string)
  : list string :=
  match cur, l with
  | Some w, h :: t => (Go.close w ++ h)%string :: t
  | _, _ => l
  end.

Definition nonEmpty (a : string) : bool := negb (String.eqb a "").

(** ** The migrator *)

Inductive stage := AliasPass | DuplicatePass | SchemaFinalize.

(** What [logger.Info] and [logger.Infof] are called with. *)
Inductive logmsg :=
| RunningPostMigration
| MigratingAliases
| MigratingDuplicates
| MigratedRows (count : Z)
| MigratedPerformers (count : Z)
| AddingDisambiguation (n : Z) (nm : string).

(** The store behind [m.db], the statements waiting in an open
    transaction, the log, and three histories the theorems speak of:
    the rows each pass scanned and the stages entered. *)
Record state := {
  db : database;
  pending : option (list Sql.stmt);
  logs : list logmsg;
  scannedAliases : list alias_row;
  scannedPerformers : list (Z * string);
  stages : list stage
}.

Definition setDb (d : database) (s : state) : state :=
  {| db := d; pending := pending s; logs := logs s;
     scannedAliases := scannedAliases s;
     scannedPerformers := scannedPerformers s; stages := stages s |}.

Definition setPending (q : option (list Sql.stmt)) (s : state) : state :=
  {| db := db s; pending := q; logs := logs s;
     scannedAliases := scannedAliases s;
     scannedPerformers := scannedPerformers s; stages := stages s |}.

(** A call either returns a value, returns an error, or is still running
    when the fuel of the enclosing loop is spent; each comes with the
    state reached. *)
Inductive result (A : Type) :=
| Ok (a : A) (s : state)
| Failed (e : error) (s : state)
| OutOfFuel (s : state).

Arguments Ok {A} a s.
Arguments Failed {A} e s.
Arguments OutOfFuel {A} s.

Definition final {A : Type} (r : result A) : state :=
  match r with
  | Ok _ s => s
  | Failed _ s => s
  | OutOfFuel s => s
  end.

Definition returned {A : Type} (r : result A) : bool :=
  match r with
  | OutOfFuel _ => false
  | _ => true
  end.

Definition M (A : Type) : Type := state -> result A.

Definition ret {A : Type} (a : A) : M A := fun s => Ok a s.

Definition bind {A B : Type} (m : M A) (k : A -> M B) : M B :=
  fun s =>
    match m s with
    | Ok a s' => k a s'
    | Failed e s' => Failed e s'
    | OutOfFuel s' => OutOfFuel s'
    end.

Notation "x <- m ;; k" := (bind m (fun x => k))
  (at level 61, m at next level, right associativity).
Notation "m ;; k" := (bind m (fun _ => k))
  (at level 61, right associativity).

(** [if err := call; err != nil { return fmt.Errorf("msg: %w", err) }] *)
Definition wrapErr {A : Type} (msg : string) (m : M A) : M A :=
  fun s =>
    match m s with
    | Failed e s' => Failed (ErrWrap msg e) s'
    | r => r
    end.

Fixpoint forEach {A : Type} (l : list A) (body : A -> M unit) : M unit :=
  match l with
  | [] => ret tt
  | x :: r => body x ;; forEach r body
  end.

Definition info (msg : logmsg) : M unit :=
  fun s =>
    Ok tt {| db := db s; pending := pending s; logs := logs s ++ [msg];
             scannedAliases := scannedAliases s;
             scannedPerformers := scannedPerformers s;
             stages := stages s |}.

Definition enter (g : stage) : M unit :=
  fun s =>
    Ok tt {| db := db s; pending := pending s; logs := logs s;
             scannedAliases := scannedAliases s;
             scannedPerformers := scannedPerformers s;
             stages := stages s ++ [g] |}.

(** The two handles a statement can be issued on: the connection pool
    [m.db], where it takes effect at once, and a transaction [tx], where
    it waits for the commit. *)
Inductive handle := Pool | Tx.

(** The calls that go to the database driver, each of which returns an
    error that the code hands on: [BeginTxx] and [Commit] in [withTxn],
    [m.db.Query] and [m.db.Get], [rows.Scan], [rows.Err] and
    [m.db.Exec]. *)
Inductive call :=
| CallBegin
| CallCommit
| CallQuery
| CallScan
| CallRowsErr
| CallExec (q : Sql.stmt).

(** The driver that fails no call, and one that fails every commit. *)
Definition noFault : call -> state -> option string := fun _ _ => None.


Fixpoint commit (qs : list Sql.stmt) (d : database) : database + error :=
  match qs with
  | [] => inl d
  | q :: r =>
      match Sql.exec q d with
      | inl d' => commit r d'
      | inr e => inr e
      end
  end.

(** Modelled from the spec: [stringslice.StrAppendUniques] is not among
    the sources.  It appends to [vs] each value of [toAdd] that [vs]
    does not hold yet, so that a value keeps the place of its first
    occurrence. *)
Definition StrInclude (vs : list string) (v : string) : bool :=
  existsb (String.eqb v) vs.

Definition StrAppendUnique (vs : list string) (v : string) : list string :=
  if StrInclude vs v then vs else vs ++ [v].

Definition StrAppendUniques (vs toAdd : list string) : list string :=
  fold_left StrAppendUnique toAdd vs.

Definition logEvery : Z := 10000.

Ltac destruct_state s :=
  let d := fresh "d" in
  destruct s as [d ? ? ? ? ?]; destruct d as [? ? ?].

Section Migrator.

(** Whether a call to the driver fails is not decided by the code of the
    migration.  [fault] stands for the driver: for a call and the state
    in which it is made, which holds the tables, the log and the rows
    scanned so far, it gives the text of the error the call returns, or
    [None] when the call goes through.  What is proved with [fault] left
    open holds of every run, whichever calls fail in it. *)
Variable fault : call -> state -> option string.

(** No call fails. *)
Definition quiet : Prop := forall c s, fault c s = None.

(** [rows.Scan] of a row of [performer_aliases]: the row is among those
    scanned when the call returns no error. *)
Definition scanAlias (r : alias_row) : M unit :=
  fun s =>
    match fault CallScan s with
    | Some text => Failed (ErrStorage text) s
    | None =>
        Ok tt {| db := db s; pending := pending s; logs := logs s;
                 scannedAliases := scannedAliases s ++ [r];
                 scannedPerformers := scannedPerformers s;
                 stages := stages s |}
    end.

Definition scanPerformer (r : Z * string) : M unit :=
  fun s =>
    match fault CallScan s with
    | Some text => Failed (ErrStorage text) s
    | None =>
        Ok tt {| db := db s; pending := pending s; logs := logs s;
                 scannedAliases := scannedAliases s;
                 scannedPerformers := scannedPerformers s ++ [r];
                 stages := stages s |}
    end.

(** [rows.Err], which the callbacks return once the rows are read. *)
Definition rowsErr : M unit :=
  fun s =>
    match fault CallRowsErr s with
    | Some text => Failed (ErrStorage text) s
    | None => Ok tt s
    end.

(** [Exec]: the error of the driver, or else what the statement does. *)
Definition Exec (h : handle) (q : Sql.stmt) : M unit :=
  fun s =>
    match fault (CallExec q) s with
    | Some text => Failed (ErrStorage text) s
    | None =>
        match h with
        | Pool =>
            match Sql.exec q (db s) with
            | inl d => Ok tt (setDb d s)
            | inr e => Failed e s
            end
        | Tx =>
            match pending s with
            | Some qs => Ok tt (setPending (Some (qs ++ [q])) s)
            | None => Failed ErrTxDone s
            end
        end
    end.

(** [m.db.Query] and [m.db.Get]: the error of the driver, or else the
    rows of the store when the query runs. *)
Definition Query {A : Type} (q : database -> A) : M A :=
  fun s =>
    match fault CallQuery s with
    | Some text => Failed (ErrStorage text) s
    | None => Ok (q (db s)) s
    end.

(** Modelled from the spec: [withTxn] belongs to the embedded [migrator],
    which is not among the sources.  It opens a transaction, runs the
    callback with it, commits when the callback returns no error and
    aborts the transaction otherwise, returning the callback's error.
    Opening and committing are calls to the driver like the others. *)
Definition withTxn {A : Type} (fn : handle -> M A) : M A :=
  fun s =>
    match fault CallBegin s with
    | Some text => Failed (ErrStorage text) s
    | None =>
        match fn Tx (setPending (Some []) s) with
        | Ok a s' =>
            match pending s' with
            | Some qs =>
                match fault CallCommit s' with
                | Some text => Failed (ErrStorage text) (setPending None s')
                | None =>
                    match commit qs (db s') with
                    | inl d => Ok a (setPending None (setDb d s'))
                    | inr e => Failed e (setPending None s')
                    end
                end
            | None => Failed ErrTxDone s'
            end
        | Failed e s' => Failed e (setPending None s')
        | OutOfFuel s' => OutOfFuel s'
        end
    end.

(** Modelled from the spec: [execAll] belongs to the embedded [migrator]
    as well.  It applies the statements in order and stops at the first
    one that fails. *)
Definition execAll (qs : list Sql.stmt) : M unit :=
  forEach qs (Exec Pool).

(** *** The alias pass *)

Definition migratePerformerAliases (id : Z) (aliases : string) : M unit :=
  let aliasList := Go.FieldsFunc aliases (Go.ContainsRune ",/") in
  if (List.length aliasList <? 2)%nat then ret tt
  else
    Exec Pool (Sql.DeleteAliases id) ;;
    let aliasList := map Go.TrimSpace aliasList in
    let aliasList := StrAppendUniques [] aliasList in
    forEach aliasList (fun alias => Exec Pool (Sql.InsertAlias id alias)).

(** The [for rows.Next()] loop of [migrate]; it returns the captured
    variables [lastID], [gotSome] and [count]. *)
Fixpoint aliasRows (rows : list alias_row) (lastID : Z) (gotSome : bool)
         (count : Z) : M (Z * bool * Z) :=
  match rows with
  | [] => ret (lastID, gotSome, count)
  | r :: rest =>
      scanAlias r ;;
      migratePerformerAliases (performer_id r) (alias r) ;;
      aliasRows rest (performer_id r) true (Go.add count 1)
  end.

(** The callback handed to [withTxn]: it is given [tx] and issues every
    statement on [m.db]. *)
Definition aliasPage (lastID count : Z) (tx : handle) : M (Z * bool * Z) :=
  rows <- Query (Sql.selectAliases lastID) ;;
  v <- aliasRows rows lastID false count ;;
  rowsErr ;;
  ret v.

Fixpoint migrateLoop (fuel : nat) (lastID count : Z) : M unit :=
  match fuel with
  | O => fun s => OutOfFuel s
  | S n =>
      v <- withTxn (aliasPage lastID count) ;;
      let '(lastID', gotSome, count') := v in
      if negb gotSome then ret tt
      else
        (if Go.rem count' logEvery =? 0 then info (MigratedRows count')
         else ret tt) ;;
        migrateLoop n lastID' count'
  end.

Definition migrate (fuel : nat) : M unit :=
  enter AliasPass ;;
  info MigratingAliases ;;
  migrateLoop fuel 0 0.

(** *** The duplicate pass *)

Definition migrateDuplicatePerformer (performerID : Z) (nm : string)
  : M unit :=
  got <- Query (Sql.selectMaxDisambiguation nm) ;;
  match got with
  | None => fun s => Failed ErrNoRows s
  | Some disambiguation =>
      next <-
        match disambiguation with
        | None => ret 1
        | Some str =>
            match Go.Atoi str with
            | inr e => fun s => Failed (ErrNum e) s
            | inl numericDis => ret (Go.add numericDis 1)
            end
        end ;;
      info (AddingDisambiguation next nm) ;;
      Exec Pool (Sql.UpdateDisambiguation (Go.Itoa next) performerID)
  end.

Fixpoint duplicateRows (rows : list (Z * string)) (gotSome : bool)
         (count : Z) : M (bool * Z) :=
  match rows with
  | [] => ret (gotSome, count)
  | r :: rest =>
      scanPerformer r ;;
      migrateDuplicatePerformer (fst r) (snd r) ;;
      duplicateRows rest true (Go.add count 1)
  end.

Definition duplicatePage (count : Z) (tx : handle) : M (bool * Z) :=
  rows <- Query Sql.selectDuplicates ;;
  v <- duplicateRows rows false count ;;
  rowsErr ;;
  ret v.

Fixpoint duplicateLoop (fuel : nat) (count : Z) : M unit :=
  match fuel with
  | O => fun s => OutOfFuel s
  | S n =>
      v <- withTxn (duplicatePage count) ;;
      let '(gotSome, count') := v in
      if negb gotSome then ret tt
      else
        (if Go.rem count' logEvery =? 0
         then info (MigratedPerformers count')
         else ret tt) ;;
        duplicateLoop n count'
  end.

Definition migrateDuplicatePerformers (fuel : nat) : M unit :=
  enter DuplicatePass ;;
  info MigratingDuplicates ;;
  duplicateLoop fuel 0.

(** *** Finalisation and the whole run *)

Definition executeSchemaChanges : M unit :=
  enter SchemaFinalize ;;
  execAll [Sql.CreateUniqueIndex performers_name_disambiguation_unique;
           Sql.CreateUniqueIndex performers_name_unique].

Definition post42 (fuel : nat) : M unit :=
  info RunningPostMigration ;;
  wrapErr "migrating performer aliases" (migrate fuel) ;;
  wrapErr "migrating performer aliases" (migrateDuplicatePerformers fuel) ;;
  wrapErr "executing schema changes" executeSchemaChanges.

(** ** Sample tables *)

Definition mkState (ps : list performer) (als : list alias_row) : state :=
  {| db := {| performers := ps; performer_aliases := als; indexes := [] |};
     pending := None; logs := []; scannedAliases := [];
     scannedPerformers := []; stages := [] |}.

Definition P (i : Z) (n : string) (d : option string) : performer :=
  {| id := i; name := n; disambiguation := d |}.

Definition A (i : Z) (a : string) : alias_row :=
  {| performer_id := i; alias := a |}.

Definition alices (n : nat) : list performer :=
  map (fun i => P (Z.of_nat i) "Alice" None) (seq 1 n).

(** ** What the passes compute, as functions of the tables *)

Definition isDelimiter : ascii -> bool := Go.ContainsRune ",/".

Definition pieces (aliases : string) : list string :=
  Go.FieldsFunc aliases isDelimiter.

(** Deduplication that keeps the first occurrence of each value, as the
    spec words it. *)
Fixpoint dedup (l : list string) : list string :=
  match l with
  | [] => []
  | x :: r => x :: remove string_dec x (dedup r)
  end.

(** The pieces counted as the spec counts them: after trimming, the
    empty ones left out. *)
Definition trimmedPieces (aliases : string) : list string :=
  filter (fun a => negb (String.eqb a ""))
         (map Go.TrimSpace (pieces aliases)).

(** The aliases [migratePerformerAliases] inserts. *)
Definition normalized (aliases : string) : list string :=
  StrAppendUniques [] (map Go.TrimSpace (pieces aliases)).

Definition aliasesOf (pid : Z) (t : list alias_row) : list string :=
  map alias (filter (fun r => performer_id r =? pid) t).

(** The effect of [migratePerformerAliases] on [performer_aliases]. *)
Definition rewriteAliases (t : list alias_row) (r : alias_row)
  : list alias_row :=
  if (List.length (pieces (alias r)) <? 2)%nat then t
  else
    filter (fun x => negb (performer_id x =? performer_id r)) t
    ++ map (fun a => {| performer_id := performer_id r; alias := a |})
           (normalized (alias r)).

Definition withAliases (t : list alias_row) (d : database) : database :=
  {| performers := performers d; performer_aliases := t;
     indexes := indexes d |}.

Definition shape (ps : list performer) : list (Z * string) :=
  map (fun p => (id p, name p)) ps.

Definition isNull (p : performer) : bool :=
  match disambiguation p with
  | None => true
  | Some _ => false
  end.

Definition noDelimiter (a : string) : Prop :=
  forall c, In c (list_ascii_of_string a) -> isDelimiter c = false.

(** The key of the last row of a page, [d] for the empty page: what the
    row loop leaves in [lastID]. *)
Fixpoint lastKey {A : Type} (key : A -> Z) (rows : list A) (d : Z) : Z :=
  match rows with
  | [] => d
  | r :: rest => lastKey key rest (key r)
  end.

Definition keyLe {A : Type} (key : A -> Z) (x y : A) : Prop :=
  key x <= key y.

Definition keyLt {A : Type} (key : A -> Z) (x y : A) : Prop :=
  key x < key y.

(** [count] after a page. *)
Definition countAfter {A : Type} (rows : list A) (count : Z) : Z :=
  fold_left (fun c _ => Go.add c 1) rows count.

(** A state of the alias pass: the alias table, the scanned rows, the
    open transaction and the log; the rest is as in [s]. *)
Definition aliasState (t sc : list alias_row) (q : option (list Sql.stmt))
           (lg : list logmsg) (s : state) : state :=
  {| db := withAliases t (db s); pending := q; logs := lg;
     scannedAliases := sc; scannedPerformers := scannedPerformers s;
     stages := stages s |}.

(** An alias table on which every call of the transform returns early:
    no row splits into two pieces. *)
Definition settled (t : list alias_row) : Prop :=
  forall r, In r t -> (List.length (pieces (alias r)) < 2)%nat.

Definition alias_row_dec (x y : alias_row) : {x = y} + {x <> y}.
Proof.
  decide equality; [apply string_dec | apply Z.eq_dec].
Defined.

(** 999 performers with one alias each, and a last one with two. *)
Definition crowded : list alias_row :=
  map (fun i => A (Z.of_nat i) "x") (seq 1 999) ++ [A 1000 "a"; A 1000 "b"].

Definition withPerformers (ps : list performer) (d : database) : database :=
  {| performers := ps; performer_aliases := performer_aliases d;
     indexes := indexes d |}.

(** A state of the duplicate pass: the performers table, the scanned
    rows, the open transaction and the log; the rest is as in [s]. *)
Definition dupState (ps : list performer) (sp : list (Z * string))
           (q : option (list Sql.stmt)) (lg : list logmsg) (s : state)
  : state :=
  {| db := withPerformers ps (db s); pending := q; logs := lg;
     scannedAliases := scannedAliases s; scannedPerformers := sp;
     stages := stages s |}.

(** The UPDATEs of a run of rows, each a value and the id it is set
    for, applied in order. *)
Definition applyUpdates (us : list (string * Z)) (ps : list performer)
  : list performer :=
  fold_left (fun l u => map (Sql.setDisambiguation (fst u) (snd u)) l) us ps.

(** The rows the duplicate query still selects once the ids [ids] have
    been given a value. *)
Definition untouched (ids : list Z) (p : performer) : bool :=
  negb (existsb (Z.eqb (id p)) ids).

Definition failure {A : Type} (r : result A) : option error :=
  match r with
  | Failed e _ => Some e
  | _ => None
  end.

(** The state in which [post42] calls the alias pass. *)
Definition started (s : state) : state :=
  final (info RunningPostMigration s).

(** Two duplicates of one name followed by a duplicate of a name whose
    first row holds a disambiguation that is no number. *)
Definition mixed : list performer :=
  [P 1 "A" None; P 2 "A" None; P 3 "B" (Some "x"); P 4 "B" None].

Definition notANumber : Go.NumError :=
  {| Go.Func := "Atoi"; Go.Num := "x"; Go.Err := Go.ErrSyntax |}.

(** ** Definitions for the further properties *)

(** The number a run of decimal digits denotes when read after [acc]. *)
Fixpoint uintZ (d : Decimal.uint) (acc : Z) : Z :=
  match d with
  | Decimal.Nil => acc
  | Decimal.D0 l => uintZ l (acc * 10)
  | Decimal.D1 l => uintZ l (acc * 10 + 1)
  | Decimal.D2 l => uintZ l (acc * 10 + 2)
  | Decimal.D3 l => uintZ l (acc * 10 + 3)
  | Decimal.D4 l => uintZ l (acc * 10 + 4)
  | Decimal.D5 l => uintZ l (acc * 10 + 5)
  | Decimal.D6 l => uintZ l (acc * 10 + 6)
  | Decimal.D7 l => uintZ l (acc * 10 + 7)
  | Decimal.D8 l => uintZ l (acc * 10 + 8)
  | Decimal.D9 l => uintZ l (acc * 10 + 9)
  end.

(** A disambiguation [strconv.Atoi] accepts. *)
Definition isNumeric (v : string) : bool :=
  match Go.Atoi v with
  | inl _ => true
  | inr _ => false
  end.

(** A performers table whose disambiguations, where set, all parse. *)
Definition numericTable (ps : list performer) : Prop :=
  forall p v, In p ps -> disambiguation p = Some v -> isNumeric v = true.

(** The row of a performer in the alias table, if there is one. *)
Definition rowOf (pid : Z) (t : list alias_row) : option alias_row :=
  find (fun r => performer_id r =? pid) t.

(** The aliases the pass leaves for a performer whose raw row is [r]. *)
Definition aliasesAfter (r : option alias_row) : list string :=
  match r with
  | None => []
  | Some r =>
      if (List.length (pieces (alias r)) <? 2)%nat then [alias r]
      else normalized (alias r)
  end.

(** The ways a call of the duplicate pass fails on a table [ps] with the
    indexes [ix] installed: on a disambiguation of the table that does
    not parse, on an installed index, or on a call that the driver
    fails. *)
Definition duplicateFailure (ps : list performer) (ix : list index)
           (e : error) : Prop :=
  (exists ne p,
      e = ErrNum ne /\ In p ps
      /\ disambiguation p = Some (Go.Num ne)
      /\ isNumeric (Go.Num ne) = false)
  \/ (exists i, e = ErrConstraint i /\ In i ix)
  \/ (exists text c s0, e = ErrStorage text /\ fault c s0 = Some text).

(** The page size stays folded in proofs. *)
Arguments Sql.limit : simpl never.

(** ** Facts about the library functions *)

Lemma isDelimiter_spec (c : ascii) :
  isDelimiter c = false <-> c <> ","%char /\ c <> "/"%char.
Proof.
  unfold isDelimiter; cbn [Go.ContainsRune].
  rewrite orb_false_r, orb_false_iff, !Ascii.eqb_neq.
  split; intros [H1 H2]; split; congruence.
Qed.

Lemma fieldsFrom_noDelimiter (f : ascii -> bool) (s : string) :
  forall cur,
    (forall w, cur = Some w -> forall c, In c w -> f c = false) ->
    forall a, In a (Go.fieldsFrom f cur s) ->
    forall c, In c (list_ascii_of_string a) -> f c = false.
Proof.
  induction s as [|c0 r IH]; intros cur Hcur a Ha c Hc.
  - destruct cur as [w|]; cbn in Ha; [|contradiction].
    destruct Ha as [<-|[]]. unfold Go.close in Hc.
    rewrite list_ascii_of_string_of_list_ascii in Hc.
    apply (Hcur w eq_refl). now apply in_rev.
  - cbn in Ha. destruct (f c0) eqn:E.
    + destruct cur as [w|].
      * destruct Ha as [<-|Ha].
        -- unfold Go.close in Hc.
           rewrite list_ascii_of_string_of_list_ascii in Hc.
           apply (Hcur w eq_refl). now apply in_rev.
        -- apply (IH None) with (a := a); auto; discriminate.
      * apply (IH None) with (a := a); auto; discriminate.
    + destruct cur as [w|].
      * apply (IH (Some (c0 :: w))) with (a := a); auto.
        intros w' [= <-] c' [<-|Hc']; auto. now apply (Hcur w).
      * apply (IH (Some [c0])) with (a := a); auto.
        intros w' [= <-] c' [<-|[]]; auto.
Qed.

Lemma pieces_noDelimiter (aliases a : string) :
  In a (pieces aliases) -> noDelimiter a.
Proof.
  intros Ha c Hc.
  apply (fieldsFrom_noDelimiter isDelimiter aliases None) with (a := a); auto.
  discriminate.
Qed.

Lemma fieldsFrom_nonempty (f : ascii -> bool) (s : string) :
  forall cur,
    (forall w, cur = Some w -> w <> []) ->
    forall a, In a (Go.fieldsFrom f cur s) -> a <> "".
Proof.
  assert (Hclose : forall w, w <> [] -> Go.close w <> "").
  { intros w Hw E. apply Hw. unfold Go.close in E.
    apply (f_equal list_ascii_of_string) in E.
    rewrite list_ascii_of_string_of_list_ascii in E. cbn in E.
    apply (f_equal (@rev ascii)) in E. now rewrite rev_involutive in E. }
  induction s as [|c0 r IH]; intros cur Hcur a Ha.
  - destruct cur as [w|]; cbn in Ha; [|contradiction].
    destruct Ha as [<-|[]]. now apply Hclose, Hcur.
  - cbn in Ha. destruct (f c0).
    + destruct cur as [w|].
      * destruct Ha as [<-|Ha]; [now apply Hclose, Hcur|].
        apply (IH None); auto; discriminate.
      * apply (IH None); auto; discriminate.
    + destruct cur as [w|].
      * apply (IH (Some (c0 :: w))); auto. intros w' [= <-]. discriminate.
      * apply (IH (Some [c0])); auto. intros w' [= <-]. discriminate.
Qed.

Lemma pieces_nonempty (aliases a : string) :
  In a (pieces aliases) -> a <> "".
Proof.
  apply (fieldsFrom_nonempty isDelimiter aliases None). discriminate.
Qed.

Lemma trimLeft_incl (n : nat) :
  forall s, (List.length s <= n)%nat -> incl (Go.trimLeft s) s.
Proof.
  induction n as [|n IH]; intros s Hs.
  - destruct s; [apply incl_refl | cbn in Hs; lia].
  - destruct s as [|c1 r1]; [apply incl_refl|].
    cbn in Hs. cbn [Go.trimLeft].
    destruct (Go.asciiSpace c1).
    { apply incl_tl, IH. lia. }
    destruct r1 as [|c2 r2]; [apply incl_refl|]. cbn in Hs.
    destruct (Go.space2 c1 c2).
    { do 2 apply incl_tl. apply IH. lia. }
    destruct r2 as [|c3 r3]; [apply incl_refl|]. cbn in Hs.
    destruct (Go.space3 c1 c2 c3); [|apply incl_refl].
    do 3 apply incl_tl. apply IH. lia.
Qed.

Lemma trimRightRev_incl (n : nat) :
  forall s, (List.length s <= n)%nat -> incl (Go.trimRightRev s) s.
Proof.
  induction n as [|n IH]; intros s Hs.
  - destruct s; [apply incl_refl | cbn in Hs; lia].
  - destruct s as [|c1 r1]; [apply incl_refl|].
    cbn in Hs. cbn [Go.trimRightRev].
    destruct (Go.asciiSpace c1).
    { apply incl_tl, IH. lia. }
    destruct r1 as [|c2 r2]; [apply incl_refl|]. cbn in Hs.
    destruct (Go.space2 c2 c1).
    { do 2 apply incl_tl. apply IH. lia. }
    destruct r2 as [|c3 r3]; [apply incl_refl|]. cbn in Hs.
    destruct (Go.space3 c3 c2 c1); [|apply incl_refl].
    do 3 apply incl_tl. apply IH. lia.
Qed.

Lemma TrimSpace_incl (s : string) (c : ascii) :
  In c (list_ascii_of_string (Go.TrimSpace s)) ->
  In c (list_ascii_of_string s).
Proof.
  unfold Go.TrimSpace. rewrite list_ascii_of_string_of_list_ascii.
  intros H. apply in_rev in H.
  apply (trimRightRev_incl _ _ (le_n _)) in H. apply in_rev in H.
  now apply (trimLeft_incl _ _ (le_n _)) in H.
Qed.

Lemma TrimSpace_noDelimiter (s : string) :
  noDelimiter s -> noDelimiter (Go.TrimSpace s).
Proof. intros H c Hc. apply H. now apply TrimSpace_incl. Qed.

(** A string without delimiter has at most one piece. *)
Lemma fieldsFrom_one (s : string) :
  noDelimiter s ->
  forall cur, (List.length (Go.fieldsFrom isDelimiter cur s) <= 1)%nat.
Proof.
  induction s as [|c r IH]; intros Hs cur.
  - destruct cur; cbn; lia.
  - assert (Hc : isDelimiter c = false) by (apply Hs; now left).
    assert (Hr : noDelimiter r) by (intros c' Hc'; apply Hs; now right).
    cbn [Go.fieldsFrom]. rewrite Hc. destruct cur; now apply IH.
Qed.

Lemma pieces_one (s : string) :
  noDelimiter s -> (List.length (pieces s) <? 2)%nat = true.
Proof.
  intros H. apply Nat.ltb_lt.
  pose proof (fieldsFrom_one s H None). unfold pieces, Go.FieldsFunc. lia.
Qed.

(** [StrAppendUniques] on an empty slice is [dedup]. *)
Lemma StrInclude_In (vs : list string) (v : string) :
  StrInclude vs v = true <-> In v vs.
Proof.
  unfold StrInclude. rewrite existsb_exists. split.
  - intros (x & Hx & E). apply String.eqb_eq in E. now subst.
  - intros H. exists v. split; auto. apply String.eqb_refl.
Qed.

Lemma remove_comm (x y : string) (l : list string) :
  remove string_dec x (remove string_dec y l)
  = remove string_dec y (remove string_dec x l).
Proof.
  induction l as [|a l IH]; cbn; auto.
  destruct (string_dec y a) as [Ey|Ny], (string_dec x a) as [Ex|Nx]; cbn;
    repeat match goal with
           | |- context [string_dec ?u ?v] => destruct (string_dec u v)
           end; try congruence.
Qed.

Lemma remove_twice (x : string) (l : list string) :
  remove string_dec x (remove string_dec x l) = remove string_dec x l.
Proof.
  apply notin_remove. apply remove_In.
Qed.

Lemma dedup_remove (x : string) (l : list string) :
  dedup (remove string_dec x l) = remove string_dec x (dedup l).
Proof.
  induction l as [|a l IH]; cbn; auto.
  destruct (string_dec x a) as [<-|N].
  - now rewrite IH, remove_twice.
  - cbn. destruct (string_dec x a); [congruence|].
    now rewrite IH, remove_comm.
Qed.

Lemma dedup_In (x : string) (l : list string) : In x (dedup l) <-> In x l.
Proof.
  induction l as [|a l IH]; cbn; [tauto|].
  split.
  - intros [->|H]; auto. apply in_remove in H. right. now apply IH.
  - intros [->|H]; auto. destruct (string_dec a x) as [E|N]; auto.
    right. apply in_in_remove; [congruence | now apply IH].
Qed.

Lemma dedup_NoDup (l : list string) : NoDup (dedup l).
Proof.
  induction l as [|a l IH]; cbn; constructor.
  - apply remove_In.
  - clear -IH. induction (dedup l) as [|b m IHm]; cbn; [constructor|].
    inversion IH; subst.
    destruct (string_dec a b); auto. constructor; auto.
    intros H. apply in_remove in H. tauto.
Qed.

Lemma StrAppendUniques_dedup (l vs : list string) :
  StrAppendUniques vs l
  = vs ++ dedup (filter (fun v => negb (StrInclude vs v)) l).
Proof.
  revert vs. induction l as [|x l IH]; intros vs; cbn.
  - now rewrite app_nil_r.
  - unfold StrAppendUniques in *. cbn. unfold StrAppendUnique at 2.
    destruct (StrInclude vs x) eqn:E; cbn; [apply IH|].
    rewrite IH, <- app_assoc. cbn. do 2 f_equal.
    rewrite <- dedup_remove. f_equal.
    clear IH. induction l as [|y l IHl]; cbn; auto.
    assert (Hy : StrInclude (vs ++ [x]) y
                 = StrInclude vs y || String.eqb y x).
    { unfold StrInclude. rewrite existsb_app. cbn. now rewrite orb_false_r. }
    rewrite Hy. destruct (StrInclude vs y) eqn:Ey; cbn; auto.
    destruct (String.eqb_spec y x) as [->|N]; cbn.
    + destruct (string_dec x x); [auto|congruence].
    + destruct (string_dec x y); [congruence|]. now rewrite IHl.
Qed.

Lemma normalized_dedup (aliases : string) :
  normalized aliases = dedup (map Go.TrimSpace (pieces aliases)).
Proof.
  unfold normalized. rewrite StrAppendUniques_dedup. cbn.
  f_equal. induction (map Go.TrimSpace (pieces aliases)); cbn; congruence.
Qed.

Lemma normalized_noDelimiter (aliases a : string) :
  In a (normalized aliases) -> noDelimiter a.
Proof.
  rewrite normalized_dedup, dedup_In, in_map_iff.
  intros (w & <- & Hw). apply TrimSpace_noDelimiter.
  now apply pieces_noDelimiter with (aliases := aliases).
Qed.

(** ** Facts about ORDER BY and LIMIT *)

Section OrderBy.

Context {A : Type} (key : A -> Z).

Lemma insertBy_perm (x : A) (l : list A) :
  Permutation (Sql.insertBy key x l) (x :: l).
Proof.
  induction l as [|y r IH]; cbn; auto.
  destruct (key x <=? key y); auto.
  rewrite IH. apply perm_swap.
Qed.

Lemma orderBy_perm (l : list A) : Permutation (Sql.orderBy key l) l.
Proof.
  induction l as [|x l IH]; cbn; auto.
  rewrite insertBy_perm. now constructor.
Qed.

Lemma orderBy_In (x : A) (l : list A) : In x (Sql.orderBy key l) <-> In x l.
Proof.
  split; apply Permutation_in; [|symmetry]; apply orderBy_perm.
Qed.

Lemma orderBy_length (l : list A) :
  List.length (Sql.orderBy key l) = List.length l.
Proof. apply Permutation_length, orderBy_perm. Qed.

Lemma insertBy_sorted (x : A) (l : list A) :
  StronglySorted (keyLe key) l ->
  StronglySorted (keyLe key) (Sql.insertBy key x l).
Proof.
  induction 1 as [|y r Hr IH Hy]; cbn.
  - repeat constructor.
  - destruct (key x <=? key y) eqn:E.
    + apply Z.leb_le in E. constructor; [now constructor|].
      constructor; auto.
      eapply Forall_impl; [|exact Hy]. unfold keyLe. intros; lia.
    + apply Z.leb_gt in E. constructor; auto.
      rewrite Forall_forall. intros z Hz.
      apply (Permutation_in _ (insertBy_perm x r)) in Hz.
      destruct Hz as [<-|Hz]; [unfold keyLe; lia|].
      rewrite Forall_forall in Hy. now apply Hy.
Qed.

Lemma orderBy_sorted (l : list A) :
  StronglySorted (keyLe key) (Sql.orderBy key l).
Proof.
  induction l as [|x l IH]; cbn; [constructor|]. now apply insertBy_sorted.
Qed.

Lemma insertBy_head (x : A) (l : list A) :
  Forall (keyLe key x) l -> Sql.insertBy key x l = x :: l.
Proof.
  destruct l as [|y r]; cbn; auto.
  intros H. inversion H as [|? ? Hy _]; subst. unfold keyLe in Hy.
  now destruct (Z.leb_spec (key x) (key y)); [|lia].
Qed.

Lemma filter_insertBy (f : A -> bool) (x : A) (l : list A) :
  StronglySorted (keyLe key) l ->
  filter f (Sql.insertBy key x l)
  = if f x then Sql.insertBy key x (filter f l) else filter f l.
Proof.
  induction 1 as [|y r Hr IH Hy]; cbn.
  - now destruct (f x).
  - destruct (Z.leb_spec (key x) (key y)) as [E|E]; cbn.
    + destruct (f x) eqn:Fx; auto.
      rewrite insertBy_head; auto.
      assert (Hall : Forall (keyLe key x) (y :: r)).
      { constructor; [exact E|].
        eapply Forall_impl; [|exact Hy]. unfold keyLe. intros; lia. }
      rewrite Forall_forall in *. intros z Hz.
      apply Hall. change (In z (filter f (y :: r))) in Hz.
      now apply filter_In in Hz.
    + rewrite IH. destruct (f y) eqn:Fy, (f x) eqn:Fx; cbn; auto.
      now destruct (Z.leb_spec (key x) (key y)); [lia|].
Qed.

(** WHERE and ORDER BY commute. *)
Lemma orderBy_filter (f : A -> bool) (l : list A) :
  Sql.orderBy key (filter f l) = filter f (Sql.orderBy key l).
Proof.
  induction l as [|x l IH]; cbn [filter]; auto.
  change (Sql.orderBy key (x :: l))
    with (Sql.insertBy key x (Sql.orderBy key l)).
  rewrite filter_insertBy by apply orderBy_sorted.
  destruct (f x); [|exact IH].
  change (Sql.orderBy key (x :: filter f l))
    with (Sql.insertBy key x (Sql.orderBy key (filter f l))).
  now rewrite IH.
Qed.

Lemma sorted_app (R : A -> A -> Prop) (a b : list A) :
  StronglySorted R (a ++ b) ->
  forall x z, In x a -> In z b -> R x z.
Proof.
  induction a as [|y a IH]; cbn; intros H x z Hx Hz; [contradiction|].
  inversion H as [|? ? Hs Hall]; subst.
  destruct Hx as [<-|Hx]; [|now apply IH].
  rewrite Forall_forall in Hall. apply Hall, in_or_app. now right.
Qed.

(** With distinct keys the order is strict. *)
Lemma sorted_strict (l : list A) :
  StronglySorted (keyLe key) l -> NoDup (map key l) ->
  StronglySorted (keyLt key) l.
Proof.
  induction 1 as [|y r Hr IH Hy]; cbn; intros Hn; constructor;
    inversion Hn as [|? ? Hnot Hn']; subst; auto.
  rewrite Forall_forall in *. intros z Hz.
  specialize (Hy z Hz). unfold keyLe, keyLt in *.
  assert (key z <> key y); [|lia].
  intros E. apply Hnot. rewrite <- E. now apply in_map.
Qed.

Lemma orderBy_strict (l : list A) :
  NoDup (map key l) -> StronglySorted (keyLt key) (Sql.orderBy key l).
Proof.
  intros H. apply sorted_strict; [apply orderBy_sorted|].
  eapply Permutation_NoDup; [|exact H].
  apply Permutation_map. symmetry. apply orderBy_perm.
Qed.

Lemma lastKey_In (rows : list A) :
  forall d, rows <> [] -> exists x, In x rows /\ lastKey key rows d = key x.
Proof.
  induction rows as [|r rest IH]; intros d Hne; [congruence|].
  destruct rest as [|r' rest'].
  - exists r. cbn. auto.
  - destruct (IH (key r)) as (x & Hx & E); [discriminate|].
    exists x. split; [now right | exact E].
Qed.

Lemma lastKey_max (rows : list A) :
  StronglySorted (keyLe key) rows ->
  forall d y, In y rows -> key y <= lastKey key rows d.
Proof.
  induction 1 as [|r rest Hr IH Hall]; intros d y Hy; [contradiction|].
  cbn [lastKey]. destruct Hy as [<-|Hy]; [|now apply IH].
  destruct rest as [|r' rest']; [cbn; lia|].
  destruct (lastKey_In (r' :: rest') (key r)) as (x & Hx & ->);
    [discriminate|].
  rewrite Forall_forall in Hall. now apply Hall.
Qed.

Lemma firstn_sorted (R : A -> A -> Prop) (n : nat) (l : list A) :
  StronglySorted R l -> StronglySorted R (firstn n l).
Proof.
  intros H. revert n. induction H as [|y r Hr IH Hy]; intros [|n]; cbn;
    try constructor; auto.
  rewrite Forall_forall in *. intros z Hz. apply Hy.
  rewrite <- (firstn_skipn n r). apply in_or_app. now left.
Qed.

Lemma filter_none (f : A -> bool) (l : list A) :
  (forall x, In x l -> f x = false) -> filter f l = [].
Proof.
  induction l as [|x l IH]; cbn; intros H; auto.
  rewrite (H x) by now left. apply IH. intros; apply H. now right.
Qed.

Lemma filter_all (f : A -> bool) (l : list A) :
  (forall x, In x l -> f x = true) -> filter f l = l.
Proof.
  induction l as [|x l IH]; cbn; intros H; auto.
  rewrite (H x) by now left. f_equal. apply IH. intros; apply H. now right.
Qed.

Lemma filter_absorb (f g : A -> bool) (l : list A) :
  (forall x, In x l -> f x = true -> g x = true) ->
  filter f (filter g l) = filter f l.
Proof.
  induction l as [|x l IH]; cbn; intros H; auto.
  assert (IH' : filter f (filter g l) = filter f l)
    by (apply IH; intros; apply H; auto).
  destruct (g x) eqn:G; cbn; rewrite IH'; auto.
  destruct (f x) eqn:F; auto.
  rewrite (H x) in G; auto; discriminate.
Qed.

Lemma filter_shrinks (f : A -> bool) (l : list A) (x : A) :
  In x l -> f x = false ->
  (List.length (filter f l) < List.length l)%nat.
Proof.
  induction l as [|y l IH]; cbn; intros Hx Fx; [contradiction|].
  pose proof (filter_length_le f l).
  destruct Hx as [->|Hx].
  - rewrite Fx. lia.
  - specialize (IH Hx Fx). destruct (f y); cbn; lia.
Qed.

(** Under a strict order, the rows after the last key of a page are the
    rows after the page. *)
Lemma page_rest (n : nat) (l : list A) (d : Z) :
  StronglySorted (keyLt key) l -> firstn n l <> [] ->
  filter (fun r => lastKey key (firstn n l) d <? key r) l = skipn n l.
Proof.
  intros Hs Hne.
  destruct (lastKey_In (firstn n l) d Hne) as (x & Hx & E).
  assert (Hle : StronglySorted (keyLe key) (firstn n l)).
  { apply firstn_sorted. clear -Hs.
    induction Hs; constructor; auto.
    eapply Forall_impl; [|eassumption]. unfold keyLe, keyLt. intros; lia. }
  assert (Hmax : forall z, In z (firstn n l) -> key z <= key x).
  { intros z Hz. rewrite <- E. now apply lastKey_max. }
  rewrite E. rewrite <- (firstn_skipn n l) at 1. rewrite filter_app.
  rewrite filter_none, filter_all; auto.
  - intros z Hz. apply Z.ltb_lt.
    rewrite <- (firstn_skipn n l) in Hs.
    apply (sorted_app (keyLt key) _ _ Hs x z Hx Hz).
  - intros z Hz. apply Z.ltb_ge. now apply Hmax.
Qed.

End OrderBy.

(** ** The alias pass *)

Lemma aliasState_id (s : state) :
  aliasState (performer_aliases (db s)) (scannedAliases s) (pending s)
             (logs s) s = s.
Proof. now destruct_state s. Qed.

Lemma quiet_None (Hq : quiet) (c : call) (s : state) (text : string) :
  fault c s = Some text -> False.
Proof. rewrite Hq. discriminate. Qed.

Lemma Exec_pool_eq (q : Sql.stmt) (s : state) :
  Exec Pool q s
  = match fault (CallExec q) s with
    | Some text => Failed (ErrStorage text) s
    | None =>
        match Sql.exec q (db s) with
        | inl d => Ok tt (setDb d s)
        | inr e => Failed e s
        end
    end.
Proof. reflexivity. Qed.

Lemma forEach_insert_cons (pid : Z) (a : string) (l : list string)
      (s : state) :
  forEach (a :: l) (fun a => Exec Pool (Sql.InsertAlias pid a)) s
  = match fault (CallExec (Sql.InsertAlias pid a)) s with
    | Some text => Failed (ErrStorage text) s
    | None =>
        forEach l (fun a => Exec Pool (Sql.InsertAlias pid a))
                (setDb (withAliases
                          (performer_aliases (db s)
                           ++ [{| performer_id := pid; alias := a |}])
                          (db s)) s)
    end.
Proof.
  cbn [forEach]. unfold bind. rewrite Exec_pool_eq. cbn [Sql.exec].
  now destruct (fault _ s).
Qed.

(** The INSERTs of one performer, whatever their outcome: a first part
    of the aliases was inserted; all of them when the loop returns
    without error, which it does when no call fails. *)
Lemma forEach_insert_final (pid : Z) (l : list string) :
  forall s,
    let r := forEach l (fun a => Exec Pool (Sql.InsertAlias pid a)) s in
    exists l1 l2,
      l = l1 ++ l2
      /\ final r
         = aliasState
             (performer_aliases (db s)
              ++ map (fun a => {| performer_id := pid; alias := a |}) l1)
             (scannedAliases s) (pending s) (logs s) s
      /\ returned r = true
      /\ (forall s', r = Ok tt s' -> l2 = [])
      /\ (quiet -> exists s', r = Ok tt s').
Proof.
  induction l as [|a l IH]; intros s r; subst r.
  - exists [], []. cbn. rewrite app_nil_r, aliasState_id.
    repeat split; eauto.
  - rewrite forEach_insert_cons.
    destruct (fault (CallExec (Sql.InsertAlias pid a)) s) as [text|] eqn:F.
    + exists [], (a :: l). cbn. rewrite app_nil_r, aliasState_id.
      split; [reflexivity|]. split; [reflexivity|]. split; [reflexivity|].
      split; [discriminate|]. intros Hq. now apply quiet_None in F.
    + match goal with
      | |- context [forEach l _ ?s1] =>
          destruct (IH s1) as (l1 & l2 & E & Hf & Hret & Hok & Hquiet)
      end.
      exists (a :: l1), l2. rewrite Hf, Hret.
      split; [now rewrite E|]. split.
      { destruct_state s. unfold aliasState, withAliases. cbn.
        now rewrite <- app_assoc. }
      split; [reflexivity|]. split; [exact Hok | exact Hquiet].
Qed.

Lemma migratePerformerAliases_short (pid : Z) (aliases : string)
      (s : state) :
  (List.length (pieces aliases) < 2)%nat ->
  migratePerformerAliases pid aliases s = Ok tt s.
Proof.
  intros H. unfold migratePerformerAliases.
  fold isDelimiter. fold (pieces aliases).
  apply Nat.ltb_lt in H. now rewrite H.
Qed.

Lemma migratePerformerAliases_long (pid : Z) (aliases : string)
      (s : state) :
  (2 <= List.length (pieces aliases))%nat ->
  migratePerformerAliases pid aliases s
  = match fault (CallExec (Sql.DeleteAliases pid)) s with
    | Some text => Failed (ErrStorage text) s
    | None =>
        forEach (normalized aliases)
                (fun a => Exec Pool (Sql.InsertAlias pid a))
                (setDb (withAliases
                          (filter (fun x => negb (performer_id x =? pid))
                                  (performer_aliases (db s)))
                          (db s)) s)
    end.
Proof.
  intros H. unfold migratePerformerAliases.
  fold isDelimiter. fold (pieces aliases).
  destruct (Nat.ltb_spec (List.length (pieces aliases)) 2); [lia|].
  unfold bind. rewrite Exec_pool_eq. cbn [Sql.exec].
  now destruct (fault _ s).
Qed.

(** The transform, whatever its outcome: the alias table is as it was,
    or the rows of the performer have been deleted and a first part of
    the new ones inserted; all of them when the call returns without
    error, which it does when no call to the driver fails. *)
Lemma migratePerformerAliases_final (pid : Z) (aliases : string)
      (s : state) :
  let t := performer_aliases (db s) in
  let r := migratePerformerAliases pid aliases s in
  exists t',
    final r = aliasState t' (scannedAliases s) (pending s) (logs s) s
    /\ returned r = true
    /\ (t' = t
        \/ exists l1 l2,
            normalized aliases = l1 ++ l2
            /\ t' = filter (fun x => negb (performer_id x =? pid)) t
                    ++ map (fun a => {| performer_id := pid; alias := a |})
                           l1)
    /\ ((List.length (pieces aliases) < 2)%nat -> t' = t)
    /\ (forall s', r = Ok tt s' ->
                   t' = rewriteAliases
                          t {| performer_id := pid; alias := aliases |})
    /\ (quiet -> exists s', r = Ok tt s').
Proof.
  intros t r. subst r.
  destruct (Nat.ltb_spec (List.length (pieces aliases)) 2) as [Hp|Hp].
  - rewrite migratePerformerAliases_short by exact Hp.
    exists t. cbn [final returned]. subst t. rewrite aliasState_id.
    split; [reflexivity|]. split; [reflexivity|]. split; [now left|].
    split; [reflexivity|]. split; [|eauto].
    intros _ _. unfold rewriteAliases. cbn [alias].
    apply Nat.ltb_lt in Hp. now rewrite Hp.
  - rewrite migratePerformerAliases_long by exact Hp.
    destruct (fault (CallExec (Sql.DeleteAliases pid)) s) as [text|] eqn:F.
    + exists t. cbn [final returned]. subst t. rewrite aliasState_id.
      split; [reflexivity|]. split; [reflexivity|]. split; [now left|].
      split; [reflexivity|]. split; [discriminate|].
      intros Hq. now apply quiet_None in F.
    + match goal with
      | |- context [forEach _ _ ?s1] =>
          destruct (forEach_insert_final pid (normalized aliases) s1)
            as (l1 & l2 & E & Hf & Hret & Hok & Hquiet)
      end.
      exists (filter (fun x => negb (performer_id x =? pid)) t
              ++ map (fun a => {| performer_id := pid; alias := a |}) l1).
      rewrite Hf, Hret.
      split; [subst t; destruct_state s; reflexivity|].
      split; [reflexivity|].
      split; [right; exists l1, l2; auto|].
      split; [intros; lia|]. split; [|exact Hquiet].
      intros s' Hs'. apply Hok in Hs'. subst l2.
      rewrite app_nil_r in E. subst l1.
      unfold rewriteAliases. cbn [alias performer_id].
      destruct (Nat.ltb_spec (List.length (pieces aliases)) 2); [lia|].
      reflexivity.
Qed.

Lemma migratePerformerAliases_spec (Hq : quiet) (pid : Z) (aliases : string)
      (s : state) :
  migratePerformerAliases pid aliases s
  = Ok tt (aliasState
             (rewriteAliases (performer_aliases (db s))
                             {| performer_id := pid; alias := aliases |})
             (scannedAliases s) (pending s) (logs s) s).
Proof.
  pose proof (migratePerformerAliases_final pid aliases s) as H.
  cbv zeta in H. destruct H as (t' & Hf & _ & _ & _ & Hok & Hquiet).
  destruct (Hquiet Hq) as (s' & E). rewrite E in Hf. cbn [final] in Hf.
  rewrite E, Hf. now rewrite (Hok s' E).
Qed.

(** A call that returned without error has rewritten the rows. *)
Lemma migratePerformerAliases_ok (pid : Z) (aliases : string)
      (s s' : state) :
  migratePerformerAliases pid aliases s = Ok tt s' ->
  s' = aliasState
         (rewriteAliases (performer_aliases (db s))
                         {| performer_id := pid; alias := aliases |})
         (scannedAliases s) (pending s) (logs s) s.
Proof.
  intros E.
  pose proof (migratePerformerAliases_final pid aliases s) as H.
  cbv zeta in H. destruct H as (t' & Hf & _ & _ & _ & Hok & _).
  rewrite E in Hf. cbn [final] in Hf. rewrite Hf. now rewrite (Hok s' E).
Qed.

Lemma aliasRows_cons (r : alias_row) (rest : list alias_row)
      (lastID : Z) (gotSome : bool) (count : Z) (s : state) :
  aliasRows (r :: rest) lastID gotSome count s
  = match scanAlias r s with
    | Ok _ s1 =>
        match migratePerformerAliases (performer_id r) (alias r) s1 with
        | Ok _ s2 => aliasRows rest (performer_id r) true (Go.add count 1) s2
        | Failed e s2 => Failed e s2
        | OutOfFuel s2 => OutOfFuel s2
        end
    | Failed e s1 => Failed e s1
    | OutOfFuel s1 => OutOfFuel s1
    end.
Proof. reflexivity. Qed.

(** The row loop, whatever its outcome: a first part of the rows was
    scanned, and rows without two pieces leave the table alone; when the
    loop returns without error every row was scanned and rewritten. *)
Lemma aliasRows_final (rows : list alias_row) :
  forall lastID gotSome count s,
    let t := performer_aliases (db s) in
    let r := aliasRows rows lastID gotSome count s in
    exists t' sc,
      final r = aliasState t' (scannedAliases s ++ sc) (pending s) (logs s) s
      /\ returned r = true
      /\ (settled rows -> t' = t)
      /\ (forall v s',
             r = Ok v s' ->
             t' = fold_left rewriteAliases rows t /\ sc = rows
             /\ v = (lastKey performer_id rows lastID,
                     gotSome || negb (Nat.eqb (List.length rows) 0),
                     countAfter rows count))
      /\ (quiet -> exists v s', r = Ok v s').
Proof.
  induction rows as [|r0 rest IH]; intros lastID gotSome count s t r;
    subst r.
  - exists t, []. cbn. subst t. rewrite app_nil_r, aliasState_id.
    split; [reflexivity|]. split; [reflexivity|]. split; [reflexivity|].
    split; [|eauto].
    intros v s' [= <- <-]. now rewrite orb_false_r.
  - rewrite aliasRows_cons. unfold scanAlias.
    destruct (fault CallScan s) as [text|] eqn:F.
    + exists t, []. cbn. subst t. rewrite app_nil_r, aliasState_id.
      split; [reflexivity|]. split; [reflexivity|]. split; [reflexivity|].
      split; [discriminate|]. intros Hq. now apply quiet_None in F.
    + set (s1 := {| db := db s; pending := pending s; logs := logs s;
                    scannedAliases := scannedAliases s ++ [r0];
                    scannedPerformers := scannedPerformers s;
                    stages := stages s |}).
      pose proof (migratePerformerAliases_final
                    (performer_id r0) (alias r0) s1) as H1.
      cbv zeta in H1.
      destruct H1 as (t1 & Hf1 & Hret1 & _ & Hshort1 & Hok1 & Hquiet1).
      change (performer_aliases (db s1)) with t in Hshort1, Hok1.
      destruct (migratePerformerAliases (performer_id r0) (alias r0) s1)
        as [[] s2|e s2|s2] eqn:E1;
        cbn [final returned] in Hf1, Hret1; [| |discriminate].
      * pose proof (Hok1 s2 eq_refl) as Et1. subst s2.
        set (s2 := aliasState t1 (scannedAliases s1) (pending s1) (logs s1)
                              s1) in *.
        specialize (IH (performer_id r0) true (Go.add count 1) s2).
        cbv zeta in IH.
        destruct IH as (t' & sc & Hf & Hret & Hset & Hok & Hquiet).
        change (performer_aliases (db s2)) with t1 in Hset, Hok.
        exists t', (r0 :: sc). rewrite Hf, Hret.
        split.
        { subst s2 s1. destruct_state s. unfold aliasState, withAliases.
          cbn. now rewrite <- app_assoc. }
        split; [reflexivity|]. split; [|split].
        -- intros Hs. rewrite Hset by (intros x Hx; apply Hs; now right).
           apply Hshort1, Hs. now left.
        -- intros v s' Hv. destruct (Hok v s' Hv) as (E' & Esc & Ev).
           rewrite E', Esc, Ev, Et1.
           cbn [fold_left lastKey countAfter List.length Nat.eqb negb].
           rewrite !orb_true_r. destruct r0. repeat split.
        -- exact Hquiet.
      * exists t1, [r0]. rewrite Hf1.
        split; [subst s1; destruct_state s; reflexivity|].
        split; [reflexivity|]. split; [|split; [discriminate|]].
        -- intros Hs. apply Hshort1, Hs. now left.
        -- intros Hq. destruct (Hquiet1 Hq) as (s' & [=]).
Qed.

Lemma aliasRows_spec (Hq : quiet) (rows : list alias_row)
      (lastID : Z) (gotSome : bool) (count : Z) (s : state) :
  aliasRows rows lastID gotSome count s
  = Ok (lastKey performer_id rows lastID,
        gotSome || negb (Nat.eqb (List.length rows) 0),
        countAfter rows count)
       (aliasState
          (fold_left rewriteAliases rows (performer_aliases (db s)))
          (scannedAliases s ++ rows) (pending s) (logs s) s).
Proof.
  pose proof (aliasRows_final rows lastID gotSome count s) as H.
  cbv zeta in H. destruct H as (t' & sc & Hf & _ & _ & Hok & Hquiet).
  destruct (Hquiet Hq) as (v & s' & E). rewrite E in Hf. cbn [final] in Hf.
  destruct (Hok v s' E) as (-> & -> & ->). now rewrite E, Hf.
Qed.

Lemma firstn_In {A : Type} (n : nat) (l : list A) (x : A) :
  In x (firstn n l) -> In x l.
Proof.
  intros H. rewrite <- (firstn_skipn n l). apply in_or_app. now left.
Qed.

Lemma selectAliases_incl (lastID : Z) (d : database) :
  incl (Sql.selectAliases lastID d) (performer_aliases d).
Proof.
  intros x Hx. unfold Sql.selectAliases, Sql.aliasCandidates in Hx.
  apply firstn_In, orderBy_In in Hx.
  destruct (lastID =? 0); auto. now apply filter_In in Hx.
Qed.

(** [withTxn] and the callback of the alias pass, call by call. *)
Lemma withTxn_eq {A : Type} (fn : handle -> M A) (s : state) :
  withTxn fn s
  = match fault CallBegin s with
    | Some text => Failed (ErrStorage text) s
    | None =>
        match fn Tx (setPending (Some []) s) with
        | Ok a s' =>
            match pending s' with
            | Some qs =>
                match fault CallCommit s' with
                | Some text => Failed (ErrStorage text) (setPending None s')
                | None =>
                    match commit qs (db s') with
                    | inl d => Ok a (setPending None (setDb d s'))
                    | inr e => Failed e (setPending None s')
                    end
                end
            | None => Failed ErrTxDone s'
            end
        | Failed e s' => Failed e (setPending None s')
        | OutOfFuel s' => OutOfFuel s'
        end
    end.
Proof. reflexivity. Qed.

Lemma aliasPage_eq (lastID count : Z) (tx : handle) (s : state) :
  aliasPage lastID count tx s
  = match fault CallQuery s with
    | Some text => Failed (ErrStorage text) s
    | None =>
        match aliasRows (Sql.selectAliases lastID (db s)) lastID false count s
        with
        | Ok v s1 =>
            match fault CallRowsErr s1 with
            | Some text => Failed (ErrStorage text) s1
            | None => Ok v s1
            end
        | Failed e s1 => Failed e s1
        | OutOfFuel s1 => OutOfFuel s1
        end
    end.
Proof.
  unfold aliasPage, bind, Query, rowsErr, ret.
  destruct (fault CallQuery s); [reflexivity|].
  destruct (aliasRows _ _ _ _ _) as [v s1|e s1|s1]; try reflexivity.
  now destruct (fault CallRowsErr s1).
Qed.

(** A page of the alias pass inside [withTxn], whatever its outcome.  The
    callback leaves the transaction empty, so neither commit nor abort
    changes what the statements on [m.db] already did. *)
Lemma aliasPage_final (lastID count : Z) (s : state) :
  let t := performer_aliases (db s) in
  let rows := Sql.selectAliases lastID (db s) in
  let r := withTxn (aliasPage lastID count) s in
  exists t' sc q,
    final r = aliasState t' (scannedAliases s ++ sc) q (logs s) s
    /\ returned r = true
    /\ (settled t -> t' = t)
    /\ (forall v s',
           r = Ok v s' ->
           t' = fold_left rewriteAliases rows t /\ sc = rows /\ q = None
           /\ v = (lastKey performer_id rows lastID,
                   negb (Nat.eqb (List.length rows) 0),
                   countAfter rows count))
    /\ (quiet -> exists v s', r = Ok v s').
Proof.
  intros t rows r. subst r. rewrite withTxn_eq, aliasPage_eq.
  assert (Hnone : forall q, aliasState t (scannedAliases s ++ []) q (logs s) s
                            = setPending q s).
  { intros q. subst t. rewrite app_nil_r. now destruct_state s. }
  destruct (fault CallBegin s) as [text|] eqn:F1.
  { exists t, [], (pending s). cbn [final returned]. rewrite Hnone.
    split; [now destruct_state s|]. split; [reflexivity|].
    split; [reflexivity|]. split; [discriminate|].
    intros Hq. now apply quiet_None in F1. }
  destruct (fault CallQuery (setPending (Some []) s)) as [text|] eqn:F2.
  { exists t, [], None. cbn [final returned]. rewrite Hnone.
    split; [now destruct_state s|]. split; [reflexivity|].
    split; [reflexivity|]. split; [discriminate|].
    intros Hq. now apply quiet_None in F2. }
  change (db (setPending (Some []) s)) with (db s). fold rows.
  pose proof (aliasRows_final rows lastID false count
                              (setPending (Some []) s)) as H.
  cbv zeta in H. destruct H as (t' & sc & Hf & Hret & Hset & Hok & Hquiet).
  change (performer_aliases (db (setPending (Some []) s))) with t
    in Hf, Hset, Hok.
  assert (Hsel : settled t -> settled rows).
  { intros Hs x Hx. apply Hs. now apply selectAliases_incl in Hx. }
  destruct (aliasRows rows lastID false count (setPending (Some []) s))
    as [v s1|e s1|s1] eqn:E;
    cbn [final returned] in Hf, Hret; [| |discriminate].
  - destruct (Hok v s1 eq_refl) as (Et & Esc & Ev).
    assert (Es1 : forall q, setPending q s1
                            = aliasState t' (scannedAliases s ++ sc) q
                                         (logs s) s).
    { intros q. rewrite Hf. now destruct_state s. }
    destruct (fault CallRowsErr s1) as [text|] eqn:F3.
    { exists t', sc, None. cbn [final returned]. rewrite Es1.
      split; [reflexivity|]. split; [reflexivity|].
      split; [auto|]. split; [discriminate|].
      intros Hq. now apply quiet_None in F3. }
    assert (Ep : pending s1 = Some []) by (rewrite Hf; reflexivity).
    rewrite Ep.
    destruct (fault CallCommit s1) as [text|] eqn:F4.
    { exists t', sc, None. cbn [final returned]. rewrite Es1.
      split; [reflexivity|]. split; [reflexivity|].
      split; [auto|]. split; [discriminate|].
      intros Hq. now apply quiet_None in F4. }
    cbn [commit]. exists t', sc, None. cbn [final returned].
    split.
    { rewrite <- Es1. now destruct_state s1. }
    split; [reflexivity|]. split; [auto|]. split; [|eauto].
    intros v0 s0 [= <- _]. rewrite Ev. cbn [orb]. auto.
  - exists t', sc, None. cbn [final returned].
    split; [rewrite Hf; now destruct_state s|].
    split; [reflexivity|]. split; [auto|]. split; [discriminate|].
    intros Hq. destruct (Hquiet Hq) as (v & s' & [=]).
Qed.

Lemma aliasPage_spec (Hq : quiet) (lastID count : Z) (s : state) :
  let rows := Sql.selectAliases lastID (db s) in
  withTxn (aliasPage lastID count) s
  = Ok (lastKey performer_id rows lastID,
        negb (Nat.eqb (List.length rows) 0), countAfter rows count)
       (aliasState
          (fold_left rewriteAliases rows (performer_aliases (db s)))
          (scannedAliases s ++ rows) None (logs s) s).
Proof.
  intros rows.
  pose proof (aliasPage_final lastID count s) as H. cbv zeta in H.
  destruct H as (t' & sc & q & Hf & _ & _ & Hok & Hquiet).
  destruct (Hquiet Hq) as (v & s' & E). rewrite E in Hf. cbn [final] in Hf.
  destruct (Hok v s' E) as (-> & -> & -> & ->). now rewrite E, Hf.
Qed.

Lemma limit_page {A : Type} (l : list A) : firstn Sql.limit l = [] -> l = [].
Proof. destruct l; [auto | discriminate]. Qed.

Lemma filter_sorted {A : Type} (R : A -> A -> Prop) (f : A -> bool)
      (l : list A) :
  StronglySorted R l -> StronglySorted R (filter f l).
Proof.
  induction 1 as [|y r Hr IH Hy]; cbn; [constructor|].
  destruct (f y); auto. constructor; auto.
  rewrite Forall_forall in *. intros z Hz. apply Hy.
  now apply filter_In in Hz.
Qed.

(** Rewriting the aliases of a performer leaves the rows of every later
    performer as they are. *)
Lemma rewriteAliases_frame (b : Z) (r : alias_row) (t : list alias_row) :
  performer_id r <= b ->
  filter (Sql.afterID b) (rewriteAliases t r) = filter (Sql.afterID b) t.
Proof.
  intros Hr. unfold rewriteAliases.
  destruct (List.length (pieces (alias r)) <? 2)%nat; auto.
  rewrite filter_app, filter_absorb, (filter_none (Sql.afterID b) (map _ _)).
  - apply app_nil_r.
  - intros x Hx. apply in_map_iff in Hx. destruct Hx as (a & <- & _).
    unfold Sql.afterID. cbn. apply Z.ltb_ge. exact Hr.
  - intros x _ Hx. unfold Sql.afterID in Hx. apply Z.ltb_lt in Hx.
    apply negb_true_iff, Z.eqb_neq. lia.
Qed.

Lemma rewriteAll_frame (b : Z) (rows : list alias_row) :
  (forall r, In r rows -> performer_id r <= b) ->
  forall t,
    filter (Sql.afterID b) (fold_left rewriteAliases rows t)
    = filter (Sql.afterID b) t.
Proof.
  induction rows as [|r rows IH]; intros H t; cbn; auto.
  rewrite IH by (intros; apply H; now right).
  apply rewriteAliases_frame, H. now left.
Qed.

(** The candidates of the next page are the candidates of this page
    beyond its last key. *)
Lemma candidates_next (lastID : Z) (t : list alias_row) :
  let V := Sql.aliasCandidates lastID t in
  let page := firstn Sql.limit V in
  let next := lastKey performer_id page lastID in
  page <> [] -> next <> 0 ->
  Sql.aliasCandidates next (fold_left rewriteAliases page t)
  = filter (Sql.afterID next) V.
Proof.
  intros V page next Hne Hnz.
  assert (Hs : StronglySorted (keyLe performer_id) V)
    by apply orderBy_sorted.
  destruct (lastKey_In performer_id page lastID Hne) as (x & Hx & E).
  fold next in E.
  assert (HxV : In x V).
  { rewrite <- (firstn_skipn Sql.limit V). apply in_or_app. now left. }
  unfold Sql.aliasCandidates at 1.
  destruct (Z.eqb_spec next 0) as [|_]; [contradiction|].
  rewrite rewriteAll_frame.
  2:{ intros r Hr. apply lastKey_max; auto. now apply firstn_sorted. }
  subst V. unfold Sql.aliasCandidates in *.
  destruct (Z.eqb_spec lastID 0) as [E0|N0].
  - apply orderBy_filter.
  - rewrite <- orderBy_filter. f_equal. symmetry. apply filter_absorb.
    intros y _ Hy. apply orderBy_In, filter_In in HxV.
    destruct HxV as [_ HxV]. unfold Sql.afterID in *.
    apply Z.ltb_lt in HxV, Hy. apply Z.ltb_lt. lia.
Qed.

Lemma logEvery_step (c : bool) (m : logmsg) (t sc : list alias_row)
      (q : option (list Sql.stmt)) (lg : list logmsg) (s : state) :
  exists lg',
    (if c then info m else ret tt) (aliasState t sc q lg s)
    = Ok tt (aliasState t sc q lg' s).
Proof.
  destruct c; [exists (lg ++ [m]) | exists lg]; reflexivity.
Qed.

(** The alias loop, with fuel for one page more than there are
    candidates and no key 0 among them: it returns, having scanned the
    rows [F] and rewritten the aliases of each in turn.  [F] is taken from
    the candidates, and is all of them in order when the keys are
    distinct. *)
Lemma migrateLoop_spec (Hq : quiet) (fuel : nat) :
  forall lastID count s,
    let V := Sql.aliasCandidates lastID (performer_aliases (db s)) in
    (forall r, In r V -> performer_id r <> 0) ->
    (List.length V < fuel)%nat ->
    exists F lg,
      migrateLoop fuel lastID count s
      = Ok tt (aliasState
                 (fold_left rewriteAliases F (performer_aliases (db s)))
                 (scannedAliases s ++ F) None lg s)
      /\ incl F V
      /\ (StronglySorted (keyLt performer_id) V -> F = V).
Proof.
  induction fuel as [|n IH]; intros lastID count s V Hnz Hlen; [lia|].
  cbn [migrateLoop]. unfold bind at 1.
  pose proof (aliasPage_spec Hq lastID count s) as Hp. cbv zeta in Hp.
  rewrite Hp. clear Hp.
  unfold Sql.selectAliases. fold V.
  set (page := firstn Sql.limit V).
  assert (Hpage : incl page V).
  { intros x Hx. rewrite <- (firstn_skipn Sql.limit V).
    apply in_or_app. now left. }
  destruct (Nat.eqb_spec (List.length page) 0) as [Epage|Epage].
  - apply length_zero_iff_nil in Epage. rewrite Epage.
    exists [], (logs s). cbn. rewrite app_nil_r. split; [reflexivity|].
    split; [apply incl_nil_l|].
    intros _. symmetry. now apply limit_page.
  - cbn [negb].
    set (next := lastKey performer_id page lastID).
    assert (Hne : page <> []) by (intros E; apply Epage; now rewrite E).
    destruct (lastKey_In performer_id page lastID Hne) as (x & Hx & Ex).
    fold next in Ex.
    assert (Hnext : next <> 0) by (rewrite Ex; apply Hnz, Hpage, Hx).
    pose proof (candidates_next lastID (performer_aliases (db s))) as Hc.
    cbv zeta in Hc. fold V in Hc. fold page in Hc. fold next in Hc.
    specialize (Hc Hne Hnext).
    destruct (logEvery_step
                (Go.rem (countAfter page count) logEvery =? 0)
                (MigratedRows (countAfter page count))
                (fold_left rewriteAliases page (performer_aliases (db s)))
                (scannedAliases s ++ page) None (logs s) s) as (lg1 & Hlog).
    unfold bind. rewrite Hlog.
    specialize (IH next (countAfter page count)
                   (aliasState
                      (fold_left rewriteAliases page
                                 (performer_aliases (db s)))
                      (scannedAliases s ++ page) None lg1 s)).
    cbv zeta in IH.
    replace (performer_aliases (db (aliasState _ _ _ _ _)))
      with (fold_left rewriteAliases page (performer_aliases (db s))) in IH
      by reflexivity.
    rewrite Hc in IH.
    destruct IH as (F & lg2 & Hrun & Hincl & Hstrict).
    + intros r Hr. apply Hnz. now apply filter_In in Hr.
    + assert (List.length (filter (Sql.afterID next) V) < List.length V)%nat;
        [|lia].
      apply filter_shrinks with (x := x); [apply Hpage, Hx|].
      unfold Sql.afterID. apply Z.ltb_ge. lia.
    + exists (page ++ F), lg2. rewrite Hrun. split; [|split].
      * rewrite fold_left_app, app_assoc. destruct_state s. reflexivity.
      * apply incl_app; auto.
        intros y Hy. apply Hincl in Hy. now apply filter_In in Hy.
      * intros Hs. rewrite Hstrict by now apply filter_sorted.
        unfold next, page, Sql.afterID.
        rewrite (page_rest performer_id Sql.limit V lastID Hs) by exact Hne.
        apply firstn_skipn.
Qed.

Lemma rewriteAll_settled (rows t : list alias_row) :
  settled rows -> fold_left rewriteAliases rows t = t.
Proof.
  revert t. induction rows as [|r rows IH]; intros t H; cbn; auto.
  assert (Hr : (List.length (pieces (alias r)) <? 2)%nat = true)
    by (apply Nat.ltb_lt, H; now left).
  unfold rewriteAliases at 2. rewrite Hr.
  apply IH. intros x Hx. apply H. now right.
Qed.

(** An invariant of the pages and of the log is an invariant of the
    loop, whatever the outcome. *)
Lemma migrateLoop_inv (I : state -> Prop) :
  (forall lastID count s,
      I s -> I (final (withTxn (aliasPage lastID count) s))) ->
  (forall m s, I s -> I (final (info m s))) ->
  forall fuel lastID count s,
    I s -> I (final (migrateLoop fuel lastID count s)).
Proof.
  intros Hpage Hinfo.
  induction fuel as [|n IH]; intros lastID count s Hs; [exact Hs|].
  cbn [migrateLoop]. unfold bind at 1.
  specialize (Hpage lastID count s Hs).
  destruct (withTxn (aliasPage lastID count) s) as [[[l g] c'] s1|e s1|s1];
    cbn [final] in Hpage; auto.
  destruct g; cbn [negb]; auto.
  unfold bind.
  destruct (Go.rem c' logEvery =? 0).
  - specialize (Hinfo (MigratedRows c') s1 Hpage).
    cbn in Hinfo |- *. now apply IH.
  - cbn. now apply IH.
Qed.

(** On a settled table nothing is written, however far the loop runs
    and whatever its outcome. *)
Lemma migrateLoop_settled (fuel : nat) (lastID count : Z) (s : state) :
  settled (performer_aliases (db s)) ->
  performer_aliases (db (final (migrateLoop fuel lastID count s)))
  = performer_aliases (db s).
Proof.
  intros Hs.
  apply (migrateLoop_inv
           (fun s1 => performer_aliases (db s1) = performer_aliases (db s))).
  - intros l c s1 H1.
    pose proof (aliasPage_final l c s1) as H. cbv zeta in H.
    destruct H as (t' & sc & q & -> & _ & Hset & _).
    cbn [aliasState db withAliases performer_aliases].
    rewrite Hset; [exact H1 | now rewrite H1].
  - intros m s1 H1. exact H1.
  - reflexivity.
Qed.

Lemma noDelimiter_settled (t : list alias_row) :
  (forall r, In r t -> noDelimiter (alias r)) -> settled t.
Proof.
  intros H r Hr. apply Nat.ltb_lt, pieces_one, H, Hr.
Qed.

(** The whole alias pass, from the loop. *)
Lemma migrate_spec (Hq : quiet) (fuel : nat) (s : state) :
  let t := performer_aliases (db s) in
  (forall r, In r t -> performer_id r <> 0) ->
  (List.length t < fuel)%nat ->
  exists F lg,
    migrate fuel s
    = Ok tt {| db := withAliases (fold_left rewriteAliases F t) (db s);
               pending := None; logs := lg;
               scannedAliases := scannedAliases s ++ F;
               scannedPerformers := scannedPerformers s;
               stages := stages s ++ [AliasPass] |}
    /\ incl F t
    /\ (NoDup (map performer_id t) -> F = Sql.orderBy performer_id t).
Proof.
  intros t Hnz Hlen. unfold migrate, bind, enter, info.
  match goal with
  | |- context [migrateLoop fuel 0 0 ?s1] =>
      pose proof (migrateLoop_spec Hq fuel 0 0 s1) as H; cbv zeta in H;
      change (performer_aliases (db s1)) with t in H
  end.
  change (Sql.aliasCandidates 0 t) with (Sql.orderBy performer_id t) in H.
  destruct H as (F & lg & Hrun & Hincl & Hs).
  - intros r Hr. apply Hnz. now apply orderBy_In in Hr.
  - now rewrite orderBy_length.
  - exists F, lg. rewrite Hrun.
    split; [destruct_state s; reflexivity|]. split.
    + intros x Hx. apply Hincl in Hx. now apply orderBy_In in Hx.
    + intros Hn. apply Hs. now apply orderBy_strict.
Qed.

(** The aliases of one performer after the rows have been rewritten. *)
Lemma rewriteAliases_other (pid : Z) (r : alias_row) (t : list alias_row) :
  performer_id r <> pid ->
  aliasesOf pid (rewriteAliases t r) = aliasesOf pid t.
Proof.
  intros Hr. unfold aliasesOf, rewriteAliases.
  destruct (List.length (pieces (alias r)) <? 2)%nat; auto.
  rewrite filter_app, map_app.
  rewrite (filter_none (fun x => performer_id x =? pid) (map _ _)).
  - rewrite app_nil_r. f_equal. apply filter_absorb.
    intros x _ Hx. apply Z.eqb_eq in Hx.
    apply negb_true_iff, Z.eqb_neq. congruence.
  - intros x Hx. apply in_map_iff in Hx. destruct Hx as (a & <- & _).
    cbn. now apply Z.eqb_neq.
Qed.

Lemma rewriteAliases_self (pid : Z) (aliases : string)
      (t : list alias_row) :
  (2 <= List.length (pieces aliases))%nat ->
  aliasesOf pid (rewriteAliases t {| performer_id := pid; alias := aliases |})
  = normalized aliases.
Proof.
  intros H. unfold aliasesOf, rewriteAliases. cbn [alias performer_id].
  destruct (Nat.ltb_spec (List.length (pieces aliases)) 2); [lia|].
  rewrite filter_app, map_app, filter_none, filter_all; cbn.
  - rewrite map_map. cbn. apply map_id.
  - intros x Hx. apply in_map_iff in Hx. destruct Hx as (a & <- & _).
    cbn. apply Z.eqb_refl.
  - intros x Hx. apply filter_In in Hx. destruct Hx as [_ Hx].
    now apply negb_true_iff in Hx.
Qed.

Lemma rewriteAll_other (pid : Z) (rows : list alias_row) :
  ~ In pid (map performer_id rows) ->
  forall t, aliasesOf pid (fold_left rewriteAliases rows t) = aliasesOf pid t.
Proof.
  induction rows as [|r rows IH]; intros H t; cbn [fold_left]; auto.
  cbn in H. rewrite IH by tauto. apply rewriteAliases_other. tauto.
Qed.

Lemma rewriteAll_aliasesOf (pid : Z) (aliases : string)
      (rows : list alias_row) :
  NoDup (map performer_id rows) ->
  In {| performer_id := pid; alias := aliases |} rows ->
  (2 <= List.length (pieces aliases))%nat ->
  forall t,
    aliasesOf pid (fold_left rewriteAliases rows t) = normalized aliases.
Proof.
  induction rows as [|r rows IH]; intros Hn Hin Hp t; [contradiction|].
  cbn in Hn. inversion Hn as [|? ? Hnot Hn']; subst. cbn [fold_left].
  destruct Hin as [->|Hin].
  - rewrite rewriteAll_other by exact Hnot. now apply rewriteAliases_self.
  - now apply IH.
Qed.

Lemma rewriteAll_settles (rows : list alias_row) :
  forall t,
    (forall x, In x t ->
               (List.length (pieces (alias x)) < 2)%nat \/ In x rows) ->
    settled (fold_left rewriteAliases rows t).
Proof.
  induction rows as [|r rows IH]; intros t H; cbn [fold_left].
  - intros x Hx. destruct (H x Hx) as [Hs|[]]. exact Hs.
  - apply IH. intros x Hx. unfold rewriteAliases in Hx.
    destruct (Nat.ltb_spec (List.length (pieces (alias r))) 2) as [Hr|Hr].
    + destruct (H x Hx) as [Hs|[<-|Hin]]; auto.
    + apply in_app_or in Hx. destruct Hx as [Hx|Hx].
      * apply filter_In in Hx. destruct Hx as [Hx Hk].
        destruct (H x Hx) as [Hs|[<-|Hin]]; auto.
        rewrite Z.eqb_refl in Hk. discriminate.
      * apply in_map_iff in Hx. destruct Hx as (a & <- & Ha). left. cbn.
        apply Nat.ltb_lt, pieces_one.
        now apply normalized_noDelimiter with (aliases := alias r).
Qed.

Lemma migrate_table (fuel : nat) (s : state) :
  performer_aliases (db (final (migrate fuel s)))
  = performer_aliases
      (db (final (migrateLoop fuel 0 0
                    {| db := db s; pending := pending s;
                       logs := logs s ++ [MigratingAliases];
                       scannedAliases := scannedAliases s;
                       scannedPerformers := scannedPerformers s;
                       stages := stages s ++ [AliasPass] |}))).
Proof.
  unfold migrate, bind, enter, info.
  now destruct (migrateLoop fuel 0 0 _).
Qed.

(** The alias loop when it returns without error, whichever calls could
    have failed: it has scanned the rows [F] and rewritten the aliases
    of each in turn.  [F] is taken from the candidates, and is all of
    them in order when the keys are distinct. *)
Lemma migrateLoop_ok (fuel : nat) :
  forall lastID count s s',
    let V := Sql.aliasCandidates lastID (performer_aliases (db s)) in
    (forall r, In r V -> performer_id r <> 0) ->
    migrateLoop fuel lastID count s = Ok tt s' ->
    exists F lg,
      s' = aliasState
             (fold_left rewriteAliases F (performer_aliases (db s)))
             (scannedAliases s ++ F) None lg s
      /\ incl F V
      /\ (StronglySorted (keyLt performer_id) V -> F = V).
Proof.
  induction fuel as [|n IH]; intros lastID count s s' V Hnz Hrun;
    [discriminate|].
  cbn [migrateLoop] in Hrun. unfold bind at 1 in Hrun.
  pose proof (aliasPage_final lastID count s) as Hp. cbv zeta in Hp.
  destruct Hp as (t' & sc & q & Hf & _ & _ & Hok & _).
  destruct (withTxn (aliasPage lastID count) s) as [[[l g] c'] s1|e s1|s1];
    [|discriminate..].
  cbn [final] in Hf. destruct (Hok _ _ eq_refl) as (-> & -> & -> & Ev).
  injection Ev as -> -> ->. subst s1. clear Hok.
  unfold Sql.selectAliases in Hrun. fold V in Hrun.
  set (page := firstn Sql.limit V) in *.
  assert (Hpage : incl page V).
  { intros x Hx. rewrite <- (firstn_skipn Sql.limit V).
    apply in_or_app. now left. }
  destruct (Nat.eqb_spec (List.length page) 0) as [Epage|Epage].
  - apply length_zero_iff_nil in Epage. cbn [negb ret] in Hrun.
    injection Hrun as <-. rewrite Epage.
    exists [], (logs s). split; [reflexivity|].
    split; [apply incl_nil_l|].
    intros _. symmetry. now apply limit_page.
  - cbn [negb] in Hrun.
    set (next := lastKey performer_id page lastID) in *.
    assert (Hne : page <> []) by (intros E; apply Epage; now rewrite E).
    destruct (lastKey_In performer_id page lastID Hne) as (x & Hx & Ex).
    fold next in Ex.
    assert (Hnext : next <> 0) by (rewrite Ex; apply Hnz, Hpage, Hx).
    pose proof (candidates_next lastID (performer_aliases (db s))) as Hc.
    cbv zeta in Hc. fold V in Hc. fold page in Hc. fold next in Hc.
    specialize (Hc Hne Hnext).
    destruct (logEvery_step
                (Go.rem (countAfter page count) logEvery =? 0)
                (MigratedRows (countAfter page count))
                (fold_left rewriteAliases page (performer_aliases (db s)))
                (scannedAliases s ++ page) None (logs s) s) as (lg1 & Hlog).
    unfold bind in Hrun. rewrite Hlog in Hrun.
    specialize (IH next (countAfter page count)
                   (aliasState
                      (fold_left rewriteAliases page
                                 (performer_aliases (db s)))
                      (scannedAliases s ++ page) None lg1 s) s').
    cbv zeta in IH.
    replace (performer_aliases (db (aliasState _ _ _ _ _)))
      with (fold_left rewriteAliases page (performer_aliases (db s))) in IH
      by reflexivity.
    rewrite Hc in IH.
    destruct IH as (F & lg2 & Hs' & Hincl & Hstrict).
    + intros r Hr. apply Hnz. now apply filter_In in Hr.
    + exact Hrun.
    + exists (page ++ F), lg2. rewrite Hs'. split; [|split].
      * rewrite fold_left_app, app_assoc. destruct_state s. reflexivity.
      * apply incl_app; auto.
        intros y Hy. apply Hincl in Hy. now apply filter_In in Hy.
      * intros Hs. rewrite Hstrict by now apply filter_sorted.
        unfold next, page, Sql.afterID.
        rewrite (page_rest performer_id Sql.limit V lastID Hs) by exact Hne.
        apply firstn_skipn.
Qed.

(** The whole alias pass when it returns without error. *)
Lemma migrate_ok (fuel : nat) (s s' : state) :
  let t := performer_aliases (db s) in
  (forall r, In r t -> performer_id r <> 0) ->
  migrate fuel s = Ok tt s' ->
  exists F lg,
    s' = {| db := withAliases (fold_left rewriteAliases F t) (db s);
            pending := None; logs := lg;
            scannedAliases := scannedAliases s ++ F;
            scannedPerformers := scannedPerformers s;
            stages := stages s ++ [AliasPass] |}
    /\ incl F t
    /\ (NoDup (map performer_id t) -> F = Sql.orderBy performer_id t).
Proof.
  intros t Hnz Hrun. unfold migrate, bind, enter, info in Hrun.
  match type of Hrun with
  | migrateLoop fuel 0 0 ?s1 = _ =>
      pose proof (migrateLoop_ok fuel 0 0 s1 s') as H; cbv zeta in H;
      change (performer_aliases (db s1)) with t in H
  end.
  change (Sql.aliasCandidates 0 t) with (Sql.orderBy performer_id t) in H.
  destruct H as (F & lg & Hs' & Hincl & Hs).
  - intros r Hr. apply Hnz. now apply orderBy_In in Hr.
  - exact Hrun.
  - exists F, lg. rewrite Hs'.
    split; [destruct_state s; reflexivity|]. split.
    + intros x Hx. apply Hincl in Hx. now apply orderBy_In in Hx.
    + intros Hn. apply Hs. now apply orderBy_strict.
Qed.

(** ** C2 *)

(** C2, as the code has it.  A raw alias string that splits on [,] or
    [/] into two or more pieces, counted before any white space is
    trimmed, is replaced by its trimmed pieces, deduplicated keeping the
    first occurrence of each: by every call of the transform that
    returns without error, and by every alias pass that does, for a
    performer of a table that holds one raw string per performer.  The
    transform and the pass do return without error when no call to the
    driver fails.  No resulting alias contains [,] or [/].  The pieces
    are non-empty before they are trimmed, and the deduplicated list
    holds each trimmed piece once, the empty one among them when a piece
    is only white space; when no piece is, the trimmed pieces are the
    pieces as the spec counts them. *)
Theorem alias_pass_normalizes (pid : Z) (aliases : string) :
  (2 <= List.length (pieces aliases))%nat ->
  (forall s s',
      migratePerformerAliases pid aliases s = Ok tt s' ->
      aliasesOf pid (performer_aliases (db s'))
      = dedup (map Go.TrimSpace (pieces aliases)))
  /\ (quiet ->
      forall s, exists s', migratePerformerAliases pid aliases s = Ok tt s')
  /\ (forall fuel s s',
         NoDup (map performer_id (performer_aliases (db s))) ->
         (forall r, In r (performer_aliases (db s)) -> performer_id r <> 0) ->
         In {| performer_id := pid; alias := aliases |}
            (performer_aliases (db s)) ->
         migrate fuel s = Ok tt s' ->
         aliasesOf pid (performer_aliases (db s'))
         = dedup (map Go.TrimSpace (pieces aliases)))
  /\ (quiet ->
      forall fuel s,
        (forall r, In r (performer_aliases (db s)) -> performer_id r <> 0) ->
        (List.length (performer_aliases (db s)) < fuel)%nat ->
        exists s', migrate fuel s = Ok tt s')
  /\ (forall a c,
         In a (dedup (map Go.TrimSpace (pieces aliases))) ->
         In c (list_ascii_of_string a) ->
         c <> ","%char /\ c <> "/"%char)
  /\ (forall a, In a (pieces aliases) -> a <> "")
  /\ NoDup (dedup (map Go.TrimSpace (pieces aliases)))
  /\ (forall a,
         In a (dedup (map Go.TrimSpace (pieces aliases)))
         <-> In a (map Go.TrimSpace (pieces aliases)))
  /\ ((forall a, In a (pieces aliases) -> Go.TrimSpace a <> "") ->
      map Go.TrimSpace (pieces aliases) = trimmedPieces aliases).
Proof.
  intros Hp.
  split; [|split; [|split; [|split; [|split; [|split; [|split; [|split]]]]]]];
    [| | | | |apply pieces_nonempty|apply dedup_NoDup
     |intros a; apply dedup_In|];
    rewrite <- ?normalized_dedup.
  - intros s s' Hrun. apply migratePerformerAliases_ok in Hrun.
    rewrite Hrun. cbn. now apply rewriteAliases_self.
  - intros Hq s. eexists. apply (migratePerformerAliases_spec Hq).
  - intros fuel s s' Hn Hnz Hin Hrun.
    destruct (migrate_ok fuel s s' Hnz Hrun) as (F & lg & -> & _ & HF).
    cbn. rewrite (HF Hn). apply rewriteAll_aliasesOf; auto.
    + eapply Permutation_NoDup; [|exact Hn].
      apply Permutation_map. symmetry. apply orderBy_perm.
    + now apply orderBy_In.
  - intros Hq fuel s Hnz Hlen.
    destruct (migrate_spec Hq fuel s Hnz Hlen) as (F & lg & Hrun & _).
    eauto.
  - intros a c Ha Hc. apply isDelimiter_spec.
    now apply (normalized_noDelimiter aliases a).
  - intros Hne. unfold trimmedPieces. symmetry. apply filter_all.
    intros a Ha. apply in_map_iff in Ha. destruct Ha as (b & <- & Hb).
    apply negb_true_iff, String.eqb_neq. now apply Hne.
Qed.

(** ** C3 *)

(** C3, as the code has it.  A raw alias string that splits on the
    delimiters into fewer than two pieces, counted before any white
    space is trimmed, is left alone: the transform returns at once in
    the state it was called in, without a call to the driver.  So a pass
    over a table of such rows writes nothing however far it runs and
    whatever its outcome, and returns when no key is 0 and no call to
    the driver fails; and the table a pass leaves when it returns
    without error is of that kind, so that a later pass changes
    nothing. *)
Theorem alias_transform_single_is_noop :
  (forall pid aliases s,
      (List.length (pieces aliases) < 2)%nat ->
      migratePerformerAliases pid aliases s = Ok tt s)
  /\ (forall fuel s,
         settled (performer_aliases (db s)) ->
         performer_aliases (db (final (migrate fuel s)))
         = performer_aliases (db s))
  /\ (quiet ->
      forall fuel s,
        settled (performer_aliases (db s)) ->
        (forall r, In r (performer_aliases (db s)) -> performer_id r <> 0) ->
        (List.length (performer_aliases (db s)) < fuel)%nat ->
        exists s',
          migrate fuel s = Ok tt s'
          /\ performer_aliases (db s') = performer_aliases (db s))
  /\ (forall fuel s s',
         NoDup (map performer_id (performer_aliases (db s))) ->
         (forall r, In r (performer_aliases (db s)) -> performer_id r <> 0) ->
         migrate fuel s = Ok tt s' ->
         settled (performer_aliases (db s'))
         /\ forall fuel',
             performer_aliases (db (final (migrate fuel' s')))
             = performer_aliases (db s'))
  /\ (quiet ->
      forall fuel s,
        NoDup (map performer_id (performer_aliases (db s))) ->
        (forall r, In r (performer_aliases (db s)) -> performer_id r <> 0) ->
        (List.length (performer_aliases (db s)) < fuel)%nat ->
        exists s',
          migrate fuel s = Ok tt s'
          /\ settled (performer_aliases (db s'))
          /\ forall fuel',
              performer_aliases (db (final (migrate fuel' s')))
              = performer_aliases (db s')).
Proof.
  assert (Hrerun : forall fuel s,
             settled (performer_aliases (db s)) ->
             performer_aliases (db (final (migrate fuel s)))
             = performer_aliases (db s)).
  { intros fuel s Hs. rewrite migrate_table.
    now rewrite migrateLoop_settled. }
  assert (Hdone : forall fuel s s',
             NoDup (map performer_id (performer_aliases (db s))) ->
             (forall r, In r (performer_aliases (db s)) ->
                        performer_id r <> 0) ->
             migrate fuel s = Ok tt s' ->
             settled (performer_aliases (db s'))
             /\ forall fuel',
                 performer_aliases (db (final (migrate fuel' s')))
                 = performer_aliases (db s')).
  { intros fuel s s' Hn Hnz Hrun.
    destruct (migrate_ok fuel s s' Hnz Hrun) as (F & lg & -> & _ & HF).
    assert (Hset : settled
                     (fold_left rewriteAliases F (performer_aliases (db s)))).
    { apply rewriteAll_settles. intros x Hx. right.
      rewrite (HF Hn). now apply orderBy_In. }
    split; [exact Hset|]. intros fuel'. now apply Hrerun. }
  split; [|split; [exact Hrerun|split; [|split; [exact Hdone|]]]].
  - intros pid aliases s H. now apply migratePerformerAliases_short.
  - intros Hq fuel s Hs Hnz Hlen.
    destruct (migrate_spec Hq fuel s Hnz Hlen)
      as (F & lg & Hrun & Hincl & _).
    eexists. split; [exact Hrun|]. cbn.
    apply rewriteAll_settled. intros x Hx. now apply Hs, Hincl.
  - intros Hq fuel s Hn Hnz Hlen.
    destruct (migrate_spec Hq fuel s Hnz Hlen) as (F & lg & Hrun & _).
    eexists. split; [exact Hrun|]. exact (Hdone fuel s _ Hn Hnz Hrun).
Qed.

(** ** C5 *)

(** C5, as the code has it.  When the rows present at the start of the
    pass have pairwise distinct performer ids, none of them 0, an alias
    pass that returns without error has scanned every one of those rows
    exactly once, in ascending order of performer id; and the pass does
    return without error when no call to the driver fails. *)
Theorem alias_cursor_scans_each_row_once (fuel : nat) (s : state) :
  NoDup (map performer_id (performer_aliases (db s))) ->
  (forall r, In r (performer_aliases (db s)) -> performer_id r <> 0) ->
  (forall s',
      migrate fuel s = Ok tt s' ->
      exists F,
        scannedAliases s' = scannedAliases s ++ F
        /\ Permutation F (performer_aliases (db s))
        /\ StronglySorted (keyLt performer_id) F)
  /\ (quiet ->
      (List.length (performer_aliases (db s)) < fuel)%nat ->
      exists s' F,
        migrate fuel s = Ok tt s'
        /\ scannedAliases s' = scannedAliases s ++ F
        /\ Permutation F (performer_aliases (db s))
        /\ StronglySorted (keyLt performer_id) F).
Proof.
  intros Hn Hnz.
  assert (Hdone : forall s',
             migrate fuel s = Ok tt s' ->
             exists F,
               scannedAliases s' = scannedAliases s ++ F
               /\ Permutation F (performer_aliases (db s))
               /\ StronglySorted (keyLt performer_id) F).
  { intros s' Hrun.
    destruct (migrate_ok fuel s s' Hnz Hrun) as (F & lg & -> & _ & HF).
    exists F. split; [reflexivity|]. rewrite (HF Hn).
    split; [apply orderBy_perm | now apply orderBy_strict]. }
  split; [exact Hdone|].
  intros Hq Hlen.
  destruct (migrate_spec Hq fuel s Hnz Hlen) as (F0 & lg & Hrun & _).
  destruct (Hdone _ Hrun) as (F & H). eexists. exists F.
  split; [exact Hrun | exact H].
Qed.

(** ** The duplicate pass *)

Lemma dupState_id (s : state) :
  dupState (performers (db s)) (scannedPerformers s) (pending s) (logs s) s
  = s.
Proof. now destruct_state s. Qed.

(** The log line and the UPDATE of one row. *)
Lemma update_eq (n : Z) (nm : string) (pid : Z) (s : state) :
  (info (AddingDisambiguation n nm) ;;
   Exec Pool (Sql.UpdateDisambiguation (Go.Itoa n) pid)) s
  = let lg := logs s ++ [AddingDisambiguation n nm] in
    let s1 := dupState (performers (db s)) (scannedPerformers s) (pending s)
                       lg s in
    match fault (CallExec (Sql.UpdateDisambiguation (Go.Itoa n) pid)) s1 with
    | Some text => Failed (ErrStorage text) s1
    | None =>
        match Sql.violated
                (indexes (db s))
                (map (Sql.setDisambiguation (Go.Itoa n) pid)
                     (performers (db s))) with
        | Some i => Failed (ErrConstraint i) s1
        | None =>
            Ok tt (dupState (map (Sql.setDisambiguation (Go.Itoa n) pid)
                                 (performers (db s)))
                            (scannedPerformers s) (pending s) lg s)
        end
    end.
Proof.
  cbv zeta. unfold bind, info. rewrite Exec_pool_eq.
  destruct_state s. unfold dupState, withPerformers.
  cbn [db performers performer_aliases indexes pending logs scannedAliases
       scannedPerformers stages Sql.exec].
  destruct (fault _ _); [reflexivity|].
  now destruct (Sql.violated _ _).
Qed.

(** One row, by the value the query for the greatest disambiguation
    returns. *)
Lemma migrateDuplicatePerformer_eq (pid : Z) (nm : string) (s : state) :
  migrateDuplicatePerformer pid nm s
  = match fault CallQuery s with
    | Some text => Failed (ErrStorage text) s
    | None =>
        match Sql.selectMaxDisambiguation nm (db s) with
        | None => Failed ErrNoRows s
        | Some None =>
            (info (AddingDisambiguation 1 nm) ;;
             Exec Pool (Sql.UpdateDisambiguation (Go.Itoa 1) pid)) s
        | Some (Some str) =>
            match Go.Atoi str with
            | inr e => Failed (ErrNum e) s
            | inl n =>
                (info (AddingDisambiguation (Go.add n 1) nm) ;;
                 Exec Pool
                   (Sql.UpdateDisambiguation (Go.Itoa (Go.add n 1)) pid)) s
            end
        end
    end.
Proof.
  unfold migrateDuplicatePerformer, bind at 1, Query.
  destruct (fault CallQuery s); [reflexivity|].
  destruct (Sql.selectMaxDisambiguation nm (db s)) as [[str|]|]; auto.
  unfold bind at 1. destruct (Go.Atoi str); auto.
Qed.

(** One row: either the UPDATE is made, or the call fails and the tables
    are as before. *)
Lemma migrateDuplicatePerformer_cases (pid : Z) (nm : string) (s : state) :
  exists lg,
    (exists v,
        migrateDuplicatePerformer pid nm s
        = Ok tt (dupState (map (Sql.setDisambiguation v pid)
                               (performers (db s)))
                          (scannedPerformers s) (pending s) lg s))
    \/ (exists e,
           migrateDuplicatePerformer pid nm s
           = Failed e (dupState (performers (db s)) (scannedPerformers s)
                                (pending s) lg s)).
Proof.
  assert (Hupd : forall n,
             exists lg,
               (exists v,
                   (info (AddingDisambiguation n nm) ;;
                    Exec Pool (Sql.UpdateDisambiguation (Go.Itoa n) pid)) s
                   = Ok tt (dupState (map (Sql.setDisambiguation v pid)
                                          (performers (db s)))
                                     (scannedPerformers s) (pending s) lg s))
               \/ (exists e,
                      (info (AddingDisambiguation n nm) ;;
                       Exec Pool (Sql.UpdateDisambiguation (Go.Itoa n) pid)) s
                      = Failed e (dupState (performers (db s))
                                           (scannedPerformers s)
                                           (pending s) lg s))).
  { intros n. exists (logs s ++ [AddingDisambiguation n nm]).
    rewrite update_eq. cbv zeta.
    destruct (fault _ _) as [text|]; [right; eauto|].
    destruct (Sql.violated _ _) as [i|]; [right; eauto | left; eauto]. }
  rewrite migrateDuplicatePerformer_eq.
  destruct (fault CallQuery s) as [text|].
  { exists (logs s). right. exists (ErrStorage text). now rewrite dupState_id. }
  destruct (Sql.selectMaxDisambiguation nm (db s)) as [[str|]|].
  - destruct (Go.Atoi str) as [n|e]; [apply Hupd|].
    exists (logs s). right. exists (ErrNum e). now rewrite dupState_id.
  - apply Hupd.
  - exists (logs s). right. exists ErrNoRows. now rewrite dupState_id.
Qed.

Lemma duplicateRows_cons (r : Z * string) (rows : list (Z * string))
      (gotSome : bool) (count : Z) (s : state) :
  duplicateRows (r :: rows) gotSome count s
  = match scanPerformer r s with
    | Ok _ s1 =>
        match migrateDuplicatePerformer (fst r) (snd r) s1 with
        | Ok _ s2 => duplicateRows rows true (Go.add count 1) s2
        | Failed e s2 => Failed e s2
        | OutOfFuel s2 => OutOfFuel s2
        end
    | Failed e s1 => Failed e s1
    | OutOfFuel s1 => OutOfFuel s1
    end.
Proof. reflexivity. Qed.

(** The row loop, whatever its outcome: some of the page's rows were
    scanned and some of those updated; all of them when it returns. *)
Lemma duplicateRows_final (rows : list (Z * string)) :
  forall gotSome count s,
  exists us sc lg,
    final (duplicateRows rows gotSome count s)
    = dupState (applyUpdates us (performers (db s)))
               (scannedPerformers s ++ sc) (pending s) lg s
    /\ incl (map snd us) (map fst rows)
    /\ incl sc rows
    /\ returned (duplicateRows rows gotSome count s) = true
    /\ (forall v s', duplicateRows rows gotSome count s = Ok v s' ->
                     map snd us = map fst rows
                     /\ fst v = gotSome
                                || negb (Nat.eqb (List.length rows) 0)).
Proof.
  induction rows as [|r rows IH]; intros gotSome count s.
  - exists [], [], (logs s). cbn. rewrite app_nil_r, dupState_id.
    split; [reflexivity|]. split; [apply incl_refl|].
    split; [apply incl_refl|]. split; [reflexivity|].
    intros v s' [= <- <-]. cbn. now rewrite orb_false_r.
  - rewrite duplicateRows_cons. unfold scanPerformer.
    destruct (fault CallScan s) as [text|].
    { exists [], [], (logs s). cbn. rewrite app_nil_r, dupState_id.
      split; [reflexivity|]. split; [apply incl_nil_l|].
      split; [apply incl_nil_l|]. split; [reflexivity | discriminate]. }
    set (s1 := {| db := db s; pending := pending s; logs := logs s;
                  scannedAliases := scannedAliases s;
                  scannedPerformers := scannedPerformers s ++ [r];
                  stages := stages s |}).
    destruct (migrateDuplicatePerformer_cases (fst r) (snd r) s1)
      as (lg & [(val & ->)|(e & ->)]); subst s1.
    + match goal with
      | |- context [duplicateRows rows ?g ?c ?s2] =>
          destruct (IH g c s2) as (us & sc & lg' & Hf & Hus & Hsc & Hret & Hok)
      end.
      exists ((val, fst r) :: us), (r :: sc), lg'.
      rewrite Hf, Hret.
      split; [|split; [|split; [|split; [reflexivity|]]]].
      * destruct_state s. unfold dupState, withPerformers. cbn.
        now rewrite <- app_assoc.
      * cbn. intros x [<-|Hx]; [now left | right; now apply Hus].
      * intros x [<-|Hx]; [now left | right; now apply Hsc].
      * intros v s' Hv. destruct (Hok v s' Hv) as [E1 E2].
        cbn. rewrite E1, E2. now rewrite orb_true_r.
    + exists [], [r], lg. cbn.
      split; [destruct_state s; reflexivity|].
      split; [apply incl_nil_l|].
      split; [intros x [<-|[]]; now left|].
      split; [reflexivity | discriminate].
Qed.

Lemma duplicatePage_eq (count : Z) (tx : handle) (s : state) :
  duplicatePage count tx s
  = match fault CallQuery s with
    | Some text => Failed (ErrStorage text) s
    | None =>
        match duplicateRows (Sql.selectDuplicates (db s)) false count s with
        | Ok v s1 =>
            match fault CallRowsErr s1 with
            | Some text => Failed (ErrStorage text) s1
            | None => Ok v s1
            end
        | Failed e s1 => Failed e s1
        | OutOfFuel s1 => OutOfFuel s1
        end
    end.
Proof.
  unfold duplicatePage, bind, Query, rowsErr, ret.
  destruct (fault CallQuery s); [reflexivity|].
  destruct (duplicateRows _ _ _ _) as [v s1|e s1|s1]; try reflexivity.
  now destruct (fault CallRowsErr s1).
Qed.

(** A page inside [withTxn], whatever its outcome: the callback leaves
    the transaction empty, so neither commit nor abort changes the
    tables. *)
Lemma duplicatePage_final (count : Z) (s : state) :
  let rows := Sql.selectDuplicates (db s) in
  exists us sc q lg,
    final (withTxn (duplicatePage count) s)
    = dupState (applyUpdates us (performers (db s)))
               (scannedPerformers s ++ sc) q lg s
    /\ incl (map snd us) (map fst rows)
    /\ incl sc rows
    /\ returned (withTxn (duplicatePage count) s) = true
    /\ (forall v s', withTxn (duplicatePage count) s = Ok v s' ->
                     map snd us = map fst rows
                     /\ fst v = negb (Nat.eqb (List.length rows) 0)).
Proof.
  intros rows. rewrite withTxn_eq, duplicatePage_eq.
  assert (Hnone : forall q,
             dupState (applyUpdates [] (performers (db s)))
                      (scannedPerformers s ++ []) q (logs s) s
             = setPending q s).
  { intros q. rewrite app_nil_r. now destruct_state s. }
  destruct (fault CallBegin s) as [text|].
  { exists [], [], (pending s), (logs s). cbn [final returned].
    rewrite Hnone.
    split; [now destruct_state s|]. split; [apply incl_nil_l|].
    split; [apply incl_nil_l|]. split; [reflexivity | discriminate]. }
  destruct (fault CallQuery (setPending (Some []) s)) as [text|].
  { exists [], [], None, (logs s). cbn [final returned]. rewrite Hnone.
    split; [now destruct_state s|]. split; [apply incl_nil_l|].
    split; [apply incl_nil_l|]. split; [reflexivity | discriminate]. }
  change (db (setPending (Some []) s)) with (db s). fold rows.
  destruct (duplicateRows_final rows false count (setPending (Some []) s))
    as (us & sc & lg & Hf & Hus & Hsc & Hret & Hok).
  destruct (duplicateRows rows false count (setPending (Some []) s))
    as [v s'|e s'|s'] eqn:E;
    cbn [final returned] in Hf, Hret; try discriminate;
    exists us, sc, None, lg.
  - assert (Es : forall q, setPending q s'
                           = dupState (applyUpdates us (performers (db s)))
                                      (scannedPerformers s ++ sc) q lg s).
    { intros q. rewrite Hf. now destruct_state s. }
    assert (Ep : pending s' = Some []) by (rewrite Hf; reflexivity).
    destruct (fault CallRowsErr s') as [text|].
    { cbn [final returned]. rewrite Es.
      split; [reflexivity|]. split; [exact Hus|]. split; [exact Hsc|].
      split; [reflexivity | discriminate]. }
    rewrite Ep.
    destruct (fault CallCommit s') as [text|].
    { cbn [final returned]. rewrite Es.
      split; [reflexivity|]. split; [exact Hus|]. split; [exact Hsc|].
      split; [reflexivity | discriminate]. }
    cbn [commit final returned].
    split; [rewrite <- Es; now destruct_state s'|].
    split; [exact Hus|]. split; [exact Hsc|]. split; [reflexivity|].
    intros v0 s0 [= <- _]. now apply (Hok v _ eq_refl).
  - cbn [final returned].
    split; [rewrite Hf; now destruct_state s|].
    split; [exact Hus|]. split; [exact Hsc|]. split; [reflexivity|].
    discriminate.
Qed.

(** What an UPDATE does to the rows the duplicate query selects: the
    rows with the updated id leave the selection, the others stay. *)
Lemma earlier_update (v : string) (pid : Z) (p q : performer) :
  Sql.earlier (Sql.setDisambiguation v pid p) (Sql.setDisambiguation v pid q)
  = Sql.earlier p q.
Proof.
  unfold Sql.earlier, Sql.setDisambiguation.
  now destruct (id p =? pid), (id q =? pid).
Qed.

Lemma isDuplicate_update (v : string) (pid : Z) (ps : list performer)
      (p : performer) :
  Sql.isDuplicate (map (Sql.setDisambiguation v pid) ps)
                  (Sql.setDisambiguation v pid p)
  = Sql.isDuplicate ps p && negb (id p =? pid).
Proof.
  assert (E : existsb (Sql.earlier (Sql.setDisambiguation v pid p))
                      (map (Sql.setDisambiguation v pid) ps)
              = existsb (Sql.earlier p) ps).
  { induction ps as [|q ps IH]; cbn; auto.
    now rewrite earlier_update, IH. }
  unfold Sql.isDuplicate. rewrite E.
  unfold Sql.setDisambiguation.
  destruct (id p =? pid); cbn.
  - now rewrite andb_false_r.
  - now rewrite andb_true_r.
Qed.

Lemma duplicates_update (v : string) (pid : Z) (ps : list performer) :
  Sql.duplicates (map (Sql.setDisambiguation v pid) ps)
  = filter (fun p => negb (id p =? pid)) (Sql.duplicates ps).
Proof.
  unfold Sql.duplicates.
  generalize ps at 2 4. intros l.
  induction l as [|p l IH]; cbn [map filter]; auto.
  rewrite isDuplicate_update, IH.
  destruct (Sql.isDuplicate ps p); cbn [andb filter]; auto.
  destruct (id p =? pid) eqn:E; cbn [negb]; auto.
  unfold Sql.setDisambiguation at 1. now rewrite E.
Qed.

Lemma filter_filter {A : Type} (f g : A -> bool) (l : list A) :
  filter f (filter g l) = filter (fun x => g x && f x) l.
Proof.
  induction l as [|x l IH]; cbn; auto.
  destruct (g x); cbn; rewrite IH; auto.
Qed.

Lemma duplicates_updates (us : list (string * Z)) :
  forall ps,
    Sql.duplicates (applyUpdates us ps)
    = filter (untouched (map snd us)) (Sql.duplicates ps).
Proof.
  induction us as [|u us IH]; intros ps.
  - cbn. symmetry. now apply filter_all.
  - unfold applyUpdates in *. cbn [fold_left map].
    rewrite IH, duplicates_update, filter_filter.
    apply filter_ext. intros p. unfold untouched. cbn [existsb].
    now rewrite negb_orb.
Qed.

Lemma shape_updates (us : list (string * Z)) :
  forall ps, shape (applyUpdates us ps) = shape ps.
Proof.
  induction us as [|u us IH]; intros ps; [reflexivity|].
  unfold applyUpdates in *. cbn [fold_left]. rewrite IH.
  unfold shape. rewrite map_map. apply map_ext. intros p.
  unfold Sql.setDisambiguation. now destruct (id p =? snd u).
Qed.

Lemma In_updates (us : list (string * Z)) (p : performer) :
  ~ In (id p) (map snd us) ->
  forall ps, In p ps -> In p (applyUpdates us ps).
Proof.
  induction us as [|u us IH]; intros Hn ps Hp; [exact Hp|].
  unfold applyUpdates in *. cbn [fold_left]. cbn in Hn.
  apply IH; [tauto|]. apply in_map_iff. exists p. split; auto.
  unfold Sql.setDisambiguation.
  destruct (Z.eqb_spec (id p) (snd u)); [|reflexivity].
  exfalso. apply Hn. now left.
Qed.

Lemma updates_set (us : list (string * Z)) :
  forall ps p pid,
    In p (applyUpdates us ps) -> id p = pid ->
    In pid (map snd us)
    \/ (forall q, In q ps -> id q = pid -> isNull q = false) ->
    isNull p = false.
Proof.
  induction us as [|u us IH]; intros ps p pid Hp Hid H.
  - destruct H as [[]|H]. now apply H.
  - unfold applyUpdates in *. cbn [fold_left] in Hp.
    apply (IH _ p pid Hp Hid).
    destruct (Z.eq_dec (snd u) pid) as [E|N].
    + right. intros q Hq Hqid. apply in_map_iff in Hq.
      destruct Hq as (q0 & <- & _). unfold Sql.setDisambiguation in *.
      destruct (Z.eqb_spec (id q0) (snd u)); [reflexivity|].
      cbn in Hqid. congruence.
    + destruct H as [[E|H]|H]; [congruence | now left | right].
      intros q Hq Hqid. apply in_map_iff in Hq.
      destruct Hq as (q0 & <- & Hq0). unfold Sql.setDisambiguation in *.
      destruct (Z.eqb_spec (id q0) (snd u)); [reflexivity|].
      now apply H.
Qed.

Lemma selectDuplicates_In (d : database) (r : Z * string) :
  In r (Sql.selectDuplicates d) ->
  exists q, In q (Sql.duplicates (performers d)) /\ r = (id q, name q).
Proof.
  unfold Sql.selectDuplicates. intros H. apply in_map_iff in H.
  destruct H as (q & <- & Hq). exists q. split; [|reflexivity].
  now apply firstn_In, orderBy_In in Hq.
Qed.

(** A page that returns having fetched rows has shrunk the selection by
    the rows it fetched. *)
Lemma duplicatePage_shrinks (count : Z) (s s' : state) (v : bool * Z) :
  withTxn (duplicatePage count) s = Ok v s' ->
  let rows := Sql.selectDuplicates (db s) in
  fst v = negb (Nat.eqb (List.length rows) 0)
  /\ Sql.duplicates (performers (db s'))
     = filter (untouched (map fst rows)) (Sql.duplicates (performers (db s)))
  /\ (forall p, In p (performers (db s')) -> In (id p) (map fst rows) ->
                isNull p = false)
  /\ (fst v = true ->
      (List.length (Sql.duplicates (performers (db s')))
       < List.length (Sql.duplicates (performers (db s))))%nat)
  /\ (fst v = false -> db s' = db s).
Proof.
  intros Hrun rows.
  destruct (duplicatePage_final count s)
    as (us & sc & pq & lg & Hf & Hus & Hsc & _ & Hok).
  rewrite Hrun in Hf. cbn [final] in Hf.
  destruct (Hok v s' Hrun) as [Eus Ev]. fold rows in Eus, Ev.
  assert (Eps : performers (db s') = applyUpdates us (performers (db s)))
    by (rewrite Hf; reflexivity).
  assert (Edup : Sql.duplicates (performers (db s'))
                 = filter (untouched (map fst rows))
                          (Sql.duplicates (performers (db s))))
    by (rewrite Eps, duplicates_updates; now rewrite Eus).
  split; [exact Ev|]. split; [exact Edup|]. split; [|split].
  - intros p Hp Hid. rewrite Eps in Hp.
    apply (updates_set us _ p (id p) Hp eq_refl). left. now rewrite Eus.
  - intros Hv. rewrite Ev in Hv. rewrite Edup.
    destruct rows as [|r rows'] eqn:Erows; [discriminate|].
    destruct (selectDuplicates_In (db s) r) as (q & Hq & Er).
    { fold rows. rewrite Erows. now left. }
    apply filter_shrinks with (x := q); auto.
    unfold untouched. apply negb_false_iff, existsb_exists.
    exists (id q). split; [|apply Z.eqb_refl].
    cbn. left. now rewrite Er.
  - intros Hv. rewrite Ev in Hv.
    destruct rows as [|r rows'] eqn:Erows; [|discriminate].
    destruct us as [|u us]; [|discriminate].
    rewrite Hf. destruct_state s. reflexivity.
Qed.

Lemma logEvery_db (c : bool) (m : logmsg) (s : state) :
  exists s',
    (if c then info m else ret tt) s = Ok tt s'
    /\ db s' = db s /\ stages s' = stages s /\ pending s' = pending s
    /\ scannedPerformers s' = scannedPerformers s
    /\ scannedAliases s' = scannedAliases s.
Proof.
  destruct c; eexists; (split; [reflexivity|]); cbn; auto.
Qed.

(** The duplicate loop returns once it has fuel for one page more than
    there are rows to select. *)
Lemma duplicateLoop_returns (fuel : nat) :
  forall count s,
    (List.length (Sql.duplicates (performers (db s))) < fuel)%nat ->
    returned (duplicateLoop fuel count s) = true.
Proof.
  induction fuel as [|n IH]; intros count s Hlen; [lia|].
  cbn [duplicateLoop]. unfold bind at 1.
  destruct (duplicatePage_final count s)
    as (_ & _ & _ & _ & _ & _ & _ & Hret & _).
  destruct (withTxn (duplicatePage count) s) as [[g c'] s1|e s1|s1] eqn:E;
    try discriminate; [|reflexivity].
  destruct (duplicatePage_shrinks count s s1 (g, c') E)
    as (_ & _ & _ & Hlt & _).
  cbn [fst] in Hlt. destruct g; cbn [negb]; [|reflexivity].
  destruct (logEvery_db (Go.rem c' logEvery =? 0) (MigratedPerformers c') s1)
    as (s2 & E2 & Hdb & _).
  unfold bind. rewrite E2. apply IH. rewrite Hdb.
  specialize (Hlt eq_refl). lia.
Qed.

(** An invariant of the pages and of the log is an invariant of the
    loop, whatever the outcome. *)
Lemma duplicateLoop_inv (I : state -> Prop) :
  (forall count s, I s -> I (final (withTxn (duplicatePage count) s))) ->
  (forall m s, I s -> I (final (info m s))) ->
  forall fuel count s, I s -> I (final (duplicateLoop fuel count s)).
Proof.
  intros Hpage Hinfo.
  induction fuel as [|n IH]; intros count s Hs; [exact Hs|].
  cbn [duplicateLoop]. unfold bind at 1.
  specialize (Hpage count s Hs).
  destruct (withTxn (duplicatePage count) s) as [[g c'] s1|e s1|s1];
    cbn [final] in Hpage; auto.
  destruct g; cbn [negb]; auto.
  unfold bind.
  destruct (Go.rem c' logEvery =? 0).
  - specialize (Hinfo (MigratedPerformers c') s1 Hpage).
    cbn in Hinfo |- *. now apply IH.
  - cbn. now apply IH.
Qed.

Lemma duplicates_length (ps : list performer) :
  (List.length (Sql.duplicates ps) <= List.length ps)%nat.
Proof. apply filter_length_le. Qed.

Lemma migrateDuplicatePerformers_eq (fuel : nat) (s : state) :
  migrateDuplicatePerformers fuel s
  = duplicateLoop fuel 0
      {| db := db s; pending := pending s;
         logs := logs s ++ [MigratingDuplicates];
         scannedAliases := scannedAliases s;
         scannedPerformers := scannedPerformers s;
         stages := stages s ++ [DuplicatePass] |}.
Proof. reflexivity. Qed.

(** ** C10 *)

(** C10.  The duplicate pass returns on every performers table, given
    fuel for one page more than the query selects rows.  A page that
    returns without rows leaves the tables as they are and ends the
    loop; a page that returns with rows has given every row it fetched
    a disambiguation, and the query then selects exactly the rows it
    selected before less the fetched ones, strictly fewer. *)
Theorem duplicate_pass_terminates :
  (forall fuel s,
      (List.length (Sql.duplicates (performers (db s))) < fuel)%nat ->
      returned (migrateDuplicatePerformers fuel s) = true)
  /\ (forall s,
         returned (migrateDuplicatePerformers
                     (S (List.length (performers (db s)))) s) = true)
  /\ (forall count s v s',
         withTxn (duplicatePage count) s = Ok v s' ->
         (fst v = false ->
          Sql.selectDuplicates (db s) = [] /\ db s' = db s)
         /\ (fst v = true ->
             Sql.selectDuplicates (db s) <> []
             /\ (forall p, In p (performers (db s')) ->
                           In (id p) (map fst (Sql.selectDuplicates (db s))) ->
                           disambiguation p <> None)
             /\ Sql.duplicates (performers (db s'))
                = filter (untouched (map fst (Sql.selectDuplicates (db s))))
                         (Sql.duplicates (performers (db s)))
             /\ (List.length (Sql.duplicates (performers (db s')))
                 < List.length (Sql.duplicates (performers (db s))))%nat)).
Proof.
  split; [|split].
  - intros fuel s H. rewrite migrateDuplicatePerformers_eq.
    now apply duplicateLoop_returns.
  - intros s. rewrite migrateDuplicatePerformers_eq.
    apply duplicateLoop_returns. cbn [db performers].
    pose proof (duplicates_length (performers (db s))). lia.
  - intros count s v s' Hrun.
    destruct (duplicatePage_shrinks count s s' v Hrun)
      as (Ev & Edup & Hset & Hlt & Hsame).
    split.
    + intros Hv. split; [|now apply Hsame].
      rewrite Hv in Ev.
      destruct (Sql.selectDuplicates (db s)); [reflexivity|discriminate].
    + intros Hv. split; [|split; [|split]]; auto.
      * rewrite Hv in Ev. intros E. rewrite E in Ev. discriminate.
      * intros p Hp Hid Hnull. specialize (Hset p Hp Hid).
        unfold isNull in Hset. rewrite Hnull in Hset. discriminate.
Qed.

(** ** C8 *)

Lemma NoDup_map_eq {A B : Type} (f : A -> B) (l : list A) (x y : A) :
  NoDup (map f l) -> In x l -> In y l -> f x = f y -> x = y.
Proof.
  induction l as [|a l IH]; cbn; intros Hn Hx Hy E; [contradiction|].
  inversion Hn as [|? ? Hnot Hn']; subst.
  destruct Hx as [->|Hx], Hy as [->|Hy]; auto.
  - exfalso. apply Hnot. rewrite E. now apply in_map.
  - exfalso. apply Hnot. rewrite <- E. now apply in_map.
Qed.

Lemma earlier_shape (p : performer) (ps ps' : list performer) :
  shape ps = shape ps' ->
  existsb (Sql.earlier p) ps = existsb (Sql.earlier p) ps'.
Proof.
  revert ps'. induction ps as [|q ps IH]; intros [|q' ps'] E;
    try discriminate; auto.
  cbn in E. injection E as Eid Enm Erest. cbn.
  rewrite (IH ps' Erest). unfold Sql.earlier. now rewrite Eid, Enm.
Qed.

Lemma shape_ids (ps : list performer) : map fst (shape ps) = map id ps.
Proof. unfold shape. rewrite map_map. reflexivity. Qed.

(** C8.  With the ids of the table distinct, a performer that has no
    row of the same name and a smaller id comes out of the duplicate
    pass as it went in, whatever the outcome of the pass: the row is
    still in the table, the ids and names of the table are unchanged,
    and no row the pass fetched has that id. *)
Theorem canonical_row_untouched (fuel : nat) (s : state) (p : performer) :
  NoDup (map id (performers (db s))) ->
  In p (performers (db s)) ->
  existsb (Sql.earlier p) (performers (db s)) = false ->
  let s' := final (migrateDuplicatePerformers fuel s) in
  In p (performers (db s'))
  /\ shape (performers (db s')) = shape (performers (db s))
  /\ exists fetched,
      scannedPerformers s' = scannedPerformers s ++ fetched
      /\ forall r, In r fetched -> fst r <> id p.
Proof.
  intros Hn Hp Hcanon s'. subst s'.
  rewrite migrateDuplicatePerformers_eq.
  set (I := fun s1 : state =>
              In p (performers (db s1))
              /\ shape (performers (db s1)) = shape (performers (db s))
              /\ exists fetched,
                  scannedPerformers s1 = scannedPerformers s ++ fetched
                  /\ forall r, In r fetched -> fst r <> id p).
  apply (duplicateLoop_inv I).
  - intros count s1 (Hp1 & Hshape & fetched & Hsc & Hfetched).
    destruct (duplicatePage_final count s1)
      as (us & sc & pq & lg & -> & Hus & Hsc' & _ & _).
    assert (Hrows : forall r, In r (Sql.selectDuplicates (db s1)) ->
                              fst r <> id p).
    { intros r Hr E. apply selectDuplicates_In in Hr.
      destruct Hr as (q & Hq & ->). cbn in E.
      apply filter_In in Hq. destruct Hq as [Hq Hdup].
      assert (q = p).
      { apply (NoDup_map_eq id (performers (db s1))); auto.
        rewrite <- shape_ids, Hshape, shape_ids. exact Hn. }
      subst q. unfold Sql.isDuplicate in Hdup.
      rewrite (earlier_shape p _ _ Hshape), Hcanon in Hdup.
      now destruct (disambiguation p). }
    unfold I. cbn [dupState db withPerformers performers scannedPerformers].
    split; [|split].
    + apply In_updates; auto. intros Hin. apply Hus in Hin.
      apply in_map_iff in Hin. destruct Hin as (r & Er & Hr).
      now apply (Hrows r Hr).
    + now rewrite shape_updates.
    + exists (fetched ++ sc). rewrite Hsc, app_assoc. split; auto.
      intros r Hr. apply in_app_or in Hr. destruct Hr as [Hr|Hr]; auto.
  - intros m s1 H. exact H.
  - unfold I. cbn. split; [exact Hp|]. split; [reflexivity|].
    exists []. rewrite app_nil_r. split; [reflexivity|]. intros r [].
Qed.

(** ** The stages of [post42] *)

Lemma post42_eq (fuel : nat) (s : state) :
  post42 fuel s
  = match migrate fuel (started s) with
    | Ok _ s1 =>
        match migrateDuplicatePerformers fuel s1 with
        | Ok _ s2 =>
            match executeSchemaChanges s2 with
            | Failed e s3 => Failed (ErrWrap "executing schema changes" e) s3
            | r => r
            end
        | Failed e s2 => Failed (ErrWrap "migrating performer aliases" e) s2
        | OutOfFuel s2 => OutOfFuel s2
        end
    | Failed e s1 => Failed (ErrWrap "migrating performer aliases" e) s1
    | OutOfFuel s1 => OutOfFuel s1
    end.
Proof.
  unfold post42, bind at 1, info. fold (info RunningPostMigration s).
  unfold started, info at 1. cbn [final].
  unfold bind at 1, wrapErr at 1.
  destruct (migrate fuel _) as [[] s1|e s1|s1]; auto.
  unfold bind at 1, wrapErr at 1.
  destruct (migrateDuplicatePerformers fuel s1) as [[] s2|e s2|s2]; auto.
Qed.

Lemma migrate_stages (fuel : nat) (s : state) :
  stages (final (migrate fuel s)) = stages s ++ [AliasPass].
Proof.
  unfold migrate, bind at 1, enter. unfold bind at 1, info.
  apply (migrateLoop_inv (fun s1 => stages s1 = stages s ++ [AliasPass])).
  - intros lastID count s1 H.
    pose proof (aliasPage_final lastID count s1) as Hp. cbv zeta in Hp.
    destruct Hp as (t' & sc & q & -> & _). exact H.
  - intros m s1 H. exact H.
  - reflexivity.
Qed.

Lemma migrateDuplicatePerformers_stages (fuel : nat) (s : state) :
  stages (final (migrateDuplicatePerformers fuel s))
  = stages s ++ [DuplicatePass]
  /\ indexes (db (final (migrateDuplicatePerformers fuel s)))
     = indexes (db s).
Proof.
  rewrite migrateDuplicatePerformers_eq.
  apply (duplicateLoop_inv
           (fun s1 => stages s1 = stages s ++ [DuplicatePass]
                      /\ indexes (db s1) = indexes (db s))).
  - intros count s1 H.
    destruct (duplicatePage_final count s1) as (us & sc & q & lg & -> & _).
    exact H.
  - intros m s1 H. exact H.
  - split; reflexivity.
Qed.

(** The finalisation, call by call. *)
Lemma executeSchemaChanges_eq (s : state) :
  executeSchemaChanges s
  = let i1 := performers_name_disambiguation_unique in
    let i2 := performers_name_unique in
    let s0 := final (enter SchemaFinalize s) in
    let s1 := setDb {| performers := performers (db s);
                       performer_aliases := performer_aliases (db s);
                       indexes := indexes (db s) ++ [i1] |} s0 in
    let s2 := setDb {| performers := performers (db s);
                       performer_aliases := performer_aliases (db s);
                       indexes := (indexes (db s) ++ [i1]) ++ [i2] |} s1 in
    match fault (CallExec (Sql.CreateUniqueIndex i1)) s0 with
    | Some text => Failed (ErrStorage text) s0
    | None =>
        if Sql.hasIndex i1 (indexes (db s)) then Failed (ErrIndexExists i1) s0
        else if Sql.unique i1 (performers (db s)) then
          match fault (CallExec (Sql.CreateUniqueIndex i2)) s1 with
          | Some text => Failed (ErrStorage text) s1
          | None =>
              if Sql.hasIndex i2 (indexes (db s) ++ [i1])
              then Failed (ErrIndexExists i2) s1
              else if Sql.unique i2 (performers (db s)) then Ok tt s2
                   else Failed (ErrConstraint i2) s1
          end
        else Failed (ErrConstraint i1) s0
    end.
Proof.
  cbv zeta.
  unfold executeSchemaChanges, execAll, forEach, bind, enter, ret, final.
  rewrite Exec_pool_eq. cbn [db Sql.exec indexes performers].
  destruct (fault _ _); [reflexivity|].
  destruct (Sql.hasIndex performers_name_disambiguation_unique
                         (indexes (db s))); [reflexivity|].
  destruct (Sql.unique performers_name_disambiguation_unique
                       (performers (db s))); [|reflexivity].
  rewrite Exec_pool_eq.
  cbn [setDb db Sql.exec indexes performers performer_aliases].
  destruct (fault _ _); [reflexivity|].
  destruct (Sql.hasIndex performers_name_unique _); [reflexivity|].
  destruct (Sql.unique performers_name_unique (performers (db s)));
    reflexivity.
Qed.

Lemma executeSchemaChanges_stages (s : state) :
  stages (final (executeSchemaChanges s)) = stages s ++ [SchemaFinalize].
Proof.
  rewrite executeSchemaChanges_eq. cbv zeta.
  destruct (fault _ _); [reflexivity|].
  destruct (Sql.hasIndex _ _); [reflexivity|].
  destruct (Sql.unique _ _); [|reflexivity].
  destruct (fault _ _); [reflexivity|].
  destruct (Sql.hasIndex _ _); [reflexivity|].
  destruct (Sql.unique _ _); reflexivity.
Qed.

Lemma executeSchemaChanges_ok (s s' : state) :
  executeSchemaChanges s = Ok tt s' ->
  Sql.unique performers_name_disambiguation_unique (performers (db s'))
  = true
  /\ Sql.unique performers_name_unique (performers (db s')) = true
  /\ performers (db s') = performers (db s)
  /\ indexes (db s')
     = indexes (db s)
       ++ [performers_name_disambiguation_unique; performers_name_unique].
Proof.
  rewrite executeSchemaChanges_eq. cbv zeta.
  destruct (fault _ _); [discriminate|].
  destruct (Sql.hasIndex _ _); [discriminate|].
  destruct (Sql.unique performers_name_disambiguation_unique
                       (performers (db s))) eqn:U1; [|discriminate].
  destruct (fault _ _); [discriminate|].
  destruct (Sql.hasIndex _ _); [discriminate|].
  destruct (Sql.unique performers_name_unique (performers (db s))) eqn:U2;
    [|discriminate].
  intros [= <-]. cbn [setDb db indexes performers].
  rewrite <- app_assoc. auto.
Qed.

(** ** C7 *)

(** C7.  [post42] enters the alias pass first and each stage once; it
    enters the duplicate pass only when the alias pass returned without
    error, and the finalisation only when both passes did, and it
    returns without error only after all three. *)
Theorem stages_run_in_order (fuel : nat) (s : state) :
  exists t,
    stages (final (post42 fuel s)) = stages s ++ t
    /\ (t = [AliasPass] \/ t = [AliasPass; DuplicatePass]
        \/ t = [AliasPass; DuplicatePass; SchemaFinalize])
    /\ (In DuplicatePass t <->
        exists s1, migrate fuel (started s) = Ok tt s1)
    /\ (In SchemaFinalize t <->
        exists s1 s2,
          migrate fuel (started s) = Ok tt s1
          /\ migrateDuplicatePerformers fuel s1 = Ok tt s2)
    /\ (forall s', post42 fuel s = Ok tt s' ->
                   t = [AliasPass; DuplicatePass; SchemaFinalize])
    /\ (In SchemaFinalize t ->
        exists s2,
          final (post42 fuel s) = final (executeSchemaChanges s2)).
Proof.
  rewrite post42_eq.
  pose proof (migrate_stages fuel (started s)) as H1.
  change (stages (started s)) with (stages s) in H1.
  destruct (migrate fuel (started s)) as [[] s1|e s1|s1] eqn:E1;
    cbn [final] in H1.
  - destruct (migrateDuplicatePerformers_stages fuel s1) as [H2 _].
    assert (Hstop :
             forall r : result unit,
               stages (final r) = stages s1 ++ [DuplicatePass] ->
               (forall s2, migrateDuplicatePerformers fuel s1 <> Ok tt s2) ->
               (forall s', r <> Ok tt s') ->
               exists t,
                 stages (final r) = stages s ++ t
                 /\ (t = [AliasPass] \/ t = [AliasPass; DuplicatePass]
                     \/ t = [AliasPass; DuplicatePass; SchemaFinalize])
                 /\ (In DuplicatePass t <->
                     exists s1', Ok tt s1 = Ok (A := unit) tt s1')
                 /\ (In SchemaFinalize t <->
                     exists s1' s2,
                       Ok tt s1 = Ok (A := unit) tt s1'
                       /\ migrateDuplicatePerformers fuel s1' = Ok tt s2)
                 /\ (forall s', r = Ok tt s' ->
                                t = [AliasPass; DuplicatePass; SchemaFinalize])
                 /\ (In SchemaFinalize t ->
                     exists s2, final r = final (executeSchemaChanges s2))).
    { intros r Hr Hno Hnok. exists [AliasPass; DuplicatePass].
      rewrite Hr, H1, <- app_assoc.
      split; [reflexivity|]. split; [auto|].
      split. { split; [eauto | cbn; auto]. }
      split.
      { split; [cbn; intuition discriminate|].
        intros (s1' & s2 & Ha & Hb). injection Ha as <-.
        now apply Hno in Hb. }
      split. { intros s' Hs'. now apply Hnok in Hs'. }
      cbn. intuition discriminate. }
    destruct (migrateDuplicatePerformers fuel s1) as [[] s2|e s2|s2] eqn:E2;
      cbn [final] in H2.
    + pose proof (executeSchemaChanges_stages s2) as H3.
      exists [AliasPass; DuplicatePass; SchemaFinalize].
      split.
      { destruct (executeSchemaChanges s2); cbn [final] in *;
          rewrite H3, H2, H1, <- !app_assoc; reflexivity. }
      split; [auto|].
      split. { split; [eauto | cbn; auto]. }
      split. { split; [eauto | cbn; auto]. }
      split; [reflexivity|]. intros _. exists s2.
      now destruct (executeSchemaChanges s2).
    + apply Hstop; [exact H2 | discriminate | discriminate].
    + apply Hstop; [exact H2 | discriminate | discriminate].
  - exists [AliasPass]. cbn [final]. rewrite H1.
    split; [reflexivity|]. split; [auto|].
    split.
    { split; [cbn; intuition discriminate | intros (? & [=])]. }
    split.
    { split; [cbn; intuition discriminate | intros (? & ? & [=] & _)]. }
    split; [discriminate|]. cbn. intuition discriminate.
  - exists [AliasPass]. cbn [final]. rewrite H1.
    split; [reflexivity|]. split; [auto|].
    split.
    { split; [cbn; intuition discriminate | intros (? & [=])]. }
    split.
    { split; [cbn; intuition discriminate | intros (? & ? & [=] & _)]. }
    split; [discriminate|]. cbn. intuition discriminate.
Qed.

(** ** C4 *)

Lemma keyEqb_refl (k : string * option string) : Sql.keyEqb k k = true.
Proof.
  destruct k as [n [v|]]; unfold Sql.keyEqb; cbn;
    now rewrite ?String.eqb_refl.
Qed.

Lemma distinct_twice (k : string * option string)
      (a b c : list (string * option string)) :
  Sql.distinct (a ++ k :: b ++ k :: c) = false.
Proof.
  induction a as [|x a IH]; cbn.
  - rewrite existsb_app. cbn. rewrite keyEqb_refl.
    now rewrite orb_true_r.
  - rewrite IH. apply andb_false_r.
Qed.

Lemma indexKeys_app (i : index) (a b : list performer) :
  Sql.indexKeys i (a ++ b) = Sql.indexKeys i a ++ Sql.indexKeys i b.
Proof.
  induction a as [|p a IH]; cbn; auto.
  destruct (Sql.indexKey i p); cbn; now rewrite IH.
Qed.

Lemma unique_twice (i : index) (k : string * option string)
      (p q : performer) (l1 l2 l3 : list performer) :
  Sql.indexKey i p = Some k -> Sql.indexKey i q = Some k ->
  Sql.unique i (l1 ++ p :: l2 ++ q :: l3) = false.
Proof.
  intros Hp Hq. unfold Sql.unique.
  rewrite indexKeys_app. cbn. rewrite Hp, indexKeys_app. cbn. rewrite Hq.
  apply distinct_twice.
Qed.

(** C4.  After a run of [post42] that returned without error, both
    indexes are installed and any two rows of [performers] with the same
    name differ in their disambiguation: they are not both NULL and do
    not hold the same value. *)
Theorem full_run_leaves_performers_unique (fuel : nat) (s s' : state) :
  post42 fuel s = Ok tt s' ->
  (forall l1 p l2 q l3,
      performers (db s') = l1 ++ p :: l2 ++ q :: l3 ->
      name p = name q ->
      disambiguation p <> disambiguation q)
  /\ Sql.hasIndex performers_name_disambiguation_unique (indexes (db s'))
     = true
  /\ Sql.hasIndex performers_name_unique (indexes (db s')) = true.
Proof.
  rewrite post42_eq. intros Hrun.
  destruct (migrate fuel (started s)) as [[] s1|e s1|s1]; try discriminate.
  destruct (migrateDuplicatePerformers fuel s1) as [[] s2|e s2|s2];
    try discriminate.
  destruct (executeSchemaChanges s2) as [[] s3|e s3|s3] eqn:E;
    try discriminate.
  injection Hrun as <-.
  destruct (executeSchemaChanges_ok s2 s3 E) as (U1 & U2 & _ & Hix).
  split; [|split].
  - intros l1 p l2 q l3 Hps Hname Hdis. rewrite Hps in U1, U2.
    destruct (disambiguation p) as [v|] eqn:Dp.
    + rewrite (unique_twice _ (name p, Some v)) in U1; [discriminate| |].
      * unfold Sql.indexKey. now rewrite Dp.
      * unfold Sql.indexKey. now rewrite <- Hdis, Hname.
    + rewrite (unique_twice _ (name p, None)) in U2; [discriminate| |].
      * unfold Sql.indexKey. now rewrite Dp.
      * unfold Sql.indexKey. now rewrite <- Hdis, Hname.
  - rewrite Hix. clear. induction (indexes (db s2)) as [|j l IH]; cbn; auto.
    now destruct j.
  - rewrite Hix. clear. induction (indexes (db s2)) as [|j l IH]; cbn; auto.
    now destruct j.
Qed.

(** ** C9 *)

Lemma duplicateRows_app (pre rest : list (Z * string)) :
  forall gotSome count s,
    duplicateRows (pre ++ rest) gotSome count s
    = match duplicateRows pre gotSome count s with
      | Ok v s1 => duplicateRows rest (fst v) (snd v) s1
      | Failed e s1 => Failed e s1
      | OutOfFuel s1 => OutOfFuel s1
      end.
Proof.
  induction pre as [|r pre IH]; intros gotSome count s; [reflexivity|].
  rewrite <- app_comm_cons, !duplicateRows_cons.
  destruct (scanPerformer r s); auto.
  destruct (migrateDuplicatePerformer _ _ _); auto.
Qed.

(** A page of the duplicate pass when no call to the driver fails. *)
Lemma withTxn_duplicatePage (Hq : quiet) (count : Z) (s : state) :
  withTxn (duplicatePage count) s
  = match duplicateRows (Sql.selectDuplicates (db s)) false count
                        (setPending (Some []) s) with
    | Ok a s' =>
        match pending s' with
        | Some qs =>
            match commit qs (db s') with
            | inl d => Ok a (setPending None (setDb d s'))
            | inr e => Failed e (setPending None s')
            end
        | None => Failed ErrTxDone s'
        end
    | Failed e s' => Failed e (setPending None s')
    | OutOfFuel s' => OutOfFuel s'
    end.
Proof.
  rewrite withTxn_eq, duplicatePage_eq, !Hq.
  change (db (setPending (Some []) s)) with (db s).
  destruct (duplicateRows _ _ _ _) as [v s'|e s'|s']; try reflexivity.
  now rewrite !Hq.
Qed.

(** C9, as the code has it.  When the greatest disambiguation of the
    name is no number and the query returns it, [migrateDuplicatePerformer]
    returns the error of [strconv.Atoi], which names the function and
    the text it could not parse, in the state it was called in: nothing
    is assigned and nothing is logged.  When no call to the driver
    fails, the page and the loop stop there with that error, the rest of
    the page unprocessed; and [post42] returns the error of the pass
    under the message of the pass, not entering the finalisation. *)
Theorem nonnumeric_disambiguation_is_fatal :
  (forall pid nm s str e,
      fault CallQuery s = None ->
      Sql.selectMaxDisambiguation nm (db s) = Some (Some str) ->
      Go.Atoi str = inr e ->
      migrateDuplicatePerformer pid nm s = Failed (ErrNum e) s
      /\ Go.Func e = "Atoi" /\ Go.Num e = str)
  /\ (quiet ->
      forall n count s pre pid nm rest v sa str e,
        Sql.selectDuplicates (db s) = pre ++ (pid, nm) :: rest ->
        duplicateRows pre false count (setPending (Some []) s) = Ok v sa ->
        Sql.selectMaxDisambiguation nm (db sa) = Some (Some str) ->
        Go.Atoi str = inr e ->
        exists s',
          duplicateLoop (S n) count s = Failed (ErrNum e) s'
          /\ db s' = db sa)
  /\ (forall fuel s s1 e s2,
         migrate fuel (started s) = Ok tt s1 ->
         migrateDuplicatePerformers fuel s1 = Failed e s2 ->
         post42 fuel s
         = Failed (ErrWrap "migrating performer aliases" e) s2
         /\ indexes (db s2) = indexes (db s1)
         /\ stages s2 = stages s ++ [AliasPass; DuplicatePass]).
Proof.
  assert (Hrow : forall pid nm s str e,
             fault CallQuery s = None ->
             Sql.selectMaxDisambiguation nm (db s) = Some (Some str) ->
             Go.Atoi str = inr e ->
             migrateDuplicatePerformer pid nm s = Failed (ErrNum e) s).
  { intros pid nm s str e Hf Hmax Hatoi.
    now rewrite migrateDuplicatePerformer_eq, Hf, Hmax, Hatoi. }
  split; [|split].
  - intros pid nm s str e Hf Hmax Hatoi.
    split; [now apply (Hrow pid nm s str)|].
    unfold Go.Atoi in Hatoi. destruct (Go.parseInt str); [discriminate|].
    injection Hatoi as <-. split; reflexivity.
  - intros Hq n count s pre pid nm rest v sa str e Hsel Hpre Hmax Hatoi.
    cbn [duplicateLoop]. unfold bind at 1.
    rewrite (withTxn_duplicatePage Hq), Hsel, duplicateRows_app, Hpre.
    rewrite duplicateRows_cons. unfold scanPerformer. rewrite Hq.
    cbn [fst snd].
    rewrite (Hrow pid nm _ str e); [|apply Hq|exact Hmax|exact Hatoi].
    eexists. split; reflexivity.
  - intros fuel s s1 e s2 Hal Hdup. rewrite post42_eq, Hal, Hdup.
    split; [reflexivity|].
    destruct (migrateDuplicatePerformers_stages fuel s1) as [Hst Hix].
    rewrite Hdup in Hst, Hix. cbn [final] in Hst, Hix.
    split; [exact Hix|]. rewrite Hst.
    pose proof (migrate_stages fuel (started s)) as H1.
    rewrite Hal in H1. cbn [final] in H1.
    change (stages (started s)) with (stages s) in H1.
    now rewrite H1, <- app_assoc.
Qed.

(** ** Statements issued on the transaction *)

(** What [withTxn] does with statements issued on the transaction when
    no call to the driver fails: they are dropped when the callback
    fails and applied when it returns. *)
Lemma withTxn_aborts (Hq : quiet) (q : Sql.stmt) (e : error) (s : state) :
  withTxn (fun tx => Exec tx q ;; (fun s' => Failed (A := unit) e s')) s
  = Failed e (setPending None s).
Proof.
  rewrite withTxn_eq, Hq. unfold bind, Exec. rewrite Hq.
  destruct_state s. reflexivity.
Qed.

Lemma withTxn_commits (Hq : quiet) (pid : Z) (a : string) (s : state) :
  withTxn (fun tx => Exec tx (Sql.InsertAlias pid a)) s
  = Ok tt (setPending None
             (setDb (withAliases (performer_aliases (db s) ++ [A pid a])
                                 (db s)) s)).
Proof.
  rewrite withTxn_eq, Hq. unfold Exec. rewrite Hq.
  cbn [pending setPending]. rewrite Hq.
  destruct_state s. reflexivity.
Qed.

(** * Further properties of the code *)

(** ** [strconv.Itoa] and [strconv.Atoi] as the duplicate pass uses them *)

Lemma uintZ_mono (d : Decimal.uint) :
  forall acc, 0 <= acc -> acc <= uintZ d acc.
Proof.
  induction d; intros acc Hacc; cbn [uintZ]; try lia;
    match goal with
    | |- _ <= uintZ d ?a => specialize (IHd a); lia
    end.
Qed.

Lemma parseDigits_uintZ (d : Decimal.uint) :
  forall acc,
    0 <= acc -> uintZ d acc <= 2 ^ 64 - 1 ->
    Go.parseDigits (NilEmpty.string_of_uint d) acc = inl (uintZ d acc).
Proof.
  induction d; intros acc Hacc Hmax; cbn [NilEmpty.string_of_uint uintZ];
    [reflexivity|..];
    cbn [uintZ] in Hmax;
    match type of Hmax with
    | uintZ d ?a <= _ =>
        pose proof (uintZ_mono d a ltac:(lia)) as Hm;
        cbn [Go.parseDigits]; unfold Go.digit; cbn [Go.byte];
        change (2 ^ 64 - 1) with 18446744073709551615 in *;
        change (18446744073709551615 / 10 + 1) with 1844674407370955162;
        cbn -[Go.parseDigits Z.leb Z.ltb Z.mul Z.add];
        destruct (Z.leb_spec 1844674407370955162 acc); [lia|];
        match goal with
        | |- context [?x <? ?y] => destruct (Z.ltb_spec x y); [lia|]
        end;
        match goal with
        | |- Go.parseDigits _ ?b = _ =>
            replace b with a by lia; apply IHd; lia
        end
    end.
Qed.

Lemma uintZ_of_uint_acc (d : Decimal.uint) :
  forall acc, uintZ d (Zpos acc) = Zpos (Pos.of_uint_acc d acc).
Proof.
  induction d; intros acc; cbn [uintZ Pos.of_uint_acc]; [reflexivity|..];
    rewrite <- IHd; f_equal; lia.
Qed.

Lemma uintZ_of_uint (d : Decimal.uint) :
  uintZ d 0 = Z.of_N (Pos.of_uint d).
Proof.
  induction d; cbn [uintZ Pos.of_uint]; [reflexivity|exact IHd|..];
    cbn [Z.mul Z.add]; rewrite uintZ_of_uint_acc; reflexivity.
Qed.

Lemma parseDigits_to_uint (p : positive) :
  Zpos p <= 2 ^ 64 - 1 ->
  Go.parseDigits (NilEmpty.string_of_uint (Pos.to_uint p)) 0 = inl (Zpos p).
Proof.
  intros H.
  assert (E : uintZ (Pos.to_uint p) 0 = Zpos p)
    by (rewrite uintZ_of_uint, DecimalPos.Unsigned.of_to; reflexivity).
  rewrite parseDigits_uintZ; [now rewrite E | lia | rewrite E; lia].
Qed.

Lemma string_of_uint_digits (d : Decimal.uint) :
  d <> Decimal.Nil ->
  exists c r,
    NilEmpty.string_of_uint d = String c r
    /\ Ascii.eqb c "+" = false /\ Ascii.eqb c "-" = false.
Proof.
  destruct d; [congruence|..]; intros _; cbn; eauto.
Qed.

Lemma Itoa_pos (p : positive) :
  Go.Itoa (Zpos p) = NilEmpty.string_of_uint (Pos.to_uint p).
Proof.
  unfold Go.Itoa. cbn [Z.to_int NilZero.string_of_int].
  unfold NilZero.string_of_uint.
  pose proof (Unsigned.to_uint_nonnil p).
  now destruct (Pos.to_uint p).
Qed.

Lemma Itoa_neg (p : positive) :
  Go.Itoa (Zneg p) = String "-" (NilEmpty.string_of_uint (Pos.to_uint p)).
Proof.
  unfold Go.Itoa. cbn [Z.to_int NilZero.string_of_int].
  unfold NilZero.string_of_uint.
  pose proof (Unsigned.to_uint_nonnil p).
  now destruct (Pos.to_uint p).
Qed.

(** What [strconv.Itoa] prints of an [int], [strconv.Atoi] reads back. *)
Lemma Atoi_Itoa (n : Z) :
  Go.minInt <= n <= Go.maxInt -> Go.Atoi (Go.Itoa n) = inl n.
Proof.
  unfold Go.minInt, Go.maxInt. intros Hn.
  change (2 ^ 63) with 9223372036854775808 in Hn.
  destruct n as [|p|p].
  - reflexivity.
  - rewrite Itoa_pos.
    destruct (string_of_uint_digits (Pos.to_uint p)
                                    (Unsigned.to_uint_nonnil p))
      as (c & r & E & Hplus & Hminus).
    pose proof (parseDigits_to_uint p) as Hd. rewrite E in Hd.
    change (2 ^ 64 - 1) with 18446744073709551615 in Hd.
    unfold Go.Atoi, Go.parseInt. rewrite E, Hplus, Hminus.
    cbn [orb negb andb]. rewrite Hd by lia.
    change (2 ^ 63) with 9223372036854775808.
    now destruct (Z.leb_spec 9223372036854775808 (Zpos p)); [lia|].
  - rewrite Itoa_neg.
    destruct (string_of_uint_digits (Pos.to_uint p)
                                    (Unsigned.to_uint_nonnil p))
      as (c & r & E & _).
    pose proof (parseDigits_to_uint p) as Hd. rewrite E in Hd.
    change (2 ^ 64 - 1) with 18446744073709551615 in Hd.
    unfold Go.Atoi, Go.parseInt. rewrite E.
    change (Ascii.eqb "-" "+") with false.
    change (Ascii.eqb "-" "-") with true.
    cbn [orb negb andb]. rewrite Hd by lia.
    change (2 ^ 63) with 9223372036854775808.
    now destruct (Z.ltb_spec 9223372036854775808 (Zpos p)); [lia|].
Qed.

Lemma add_range (a b : Z) : Go.minInt <= Go.add a b <= Go.maxInt.
Proof.
  unfold Go.add, Go.wrap, Go.minInt, Go.maxInt.
  change (2 ^ 63) with 9223372036854775808.
  change (2 ^ 64) with 18446744073709551616.
  pose proof (Z.mod_pos_bound (a + b + 9223372036854775808)
                              18446744073709551616).
  lia.
Qed.

(** ** The outcomes of the duplicate pass *)

Lemma greatest_cases (a b : option string) :
  Sql.greatest a b = a \/ Sql.greatest a b = b.
Proof. unfold Sql.greatest. destruct (Sql.le a b); auto. Qed.

Lemma fold_greatest_In (vs : list (option string)) :
  forall v, In (fold_left Sql.greatest vs v) (v :: vs).
Proof.
  induction vs as [|w vs IH]; intros v; cbn [fold_left]; [now left|].
  destruct (IH (Sql.greatest v w)) as [E|H]; [|right; now right].
  rewrite <- E. destruct (greatest_cases v w) as [->| ->]; cbn; auto.
Qed.

(** The value the query for the greatest disambiguation returns is the
    one of a row of that name; it returns no row only when the name is
    not in the table. *)
Lemma selectMax_In (nm : string) (d : database) (v : option string) :
  Sql.selectMaxDisambiguation nm d = Some v ->
  exists p, In p (performers d) /\ name p = nm /\ disambiguation p = v.
Proof.
  unfold Sql.selectMaxDisambiguation.
  destruct (map disambiguation _) as [|w ws] eqn:E; [discriminate|].
  intros [= <-].
  pose proof (fold_greatest_In ws w) as H. rewrite <- E in H.
  apply in_map_iff in H. destruct H as (p & Hp & Hin).
  apply filter_In in Hin. destruct Hin as [Hin Hnm].
  apply String.eqb_eq in Hnm. eauto.
Qed.

Lemma selectMax_None (nm : string) (d : database) :
  Sql.selectMaxDisambiguation nm d = None ->
  forall p, In p (performers d) -> name p <> nm.
Proof.
  unfold Sql.selectMaxDisambiguation.
  destruct (map disambiguation _) as [|w ws] eqn:E; [|discriminate].
  intros _ p Hp Hnm. apply map_eq_nil in E.
  assert (Hin : In p (filter (fun q => String.eqb (name q) nm)
                             (performers d))).
  { apply filter_In. split; auto. now apply String.eqb_eq. }
  rewrite E in Hin. contradiction.
Qed.

Lemma violated_In (l : list index) (ps : list performer) (i : index) :
  Sql.violated l ps = Some i -> In i l.
Proof.
  induction l as [|j l IH]; cbn; [discriminate|].
  destruct (Sql.unique j ps); [auto|]. intros [= <-]. now left.
Qed.

(** One row of a name that is in the table: the UPDATE is made, or the
    call fails in one of the three ways and the tables are as before. *)
Lemma migrateDuplicatePerformer_outcome (pid : Z) (nm : string) (s : state) :
  (exists p, In p (performers (db s)) /\ name p = nm) ->
  (exists n lg,
      Go.minInt <= n <= Go.maxInt
      /\ migrateDuplicatePerformer pid nm s
         = Ok tt (dupState (map (Sql.setDisambiguation (Go.Itoa n) pid)
                                (performers (db s)))
                           (scannedPerformers s) (pending s) lg s))
  \/ (exists e lg,
         migrateDuplicatePerformer pid nm s
         = Failed e (dupState (performers (db s)) (scannedPerformers s)
                              (pending s) lg s)
         /\ duplicateFailure (performers (db s)) (indexes (db s)) e).
Proof.
  intros (p0 & Hp0 & Hnm0).
  assert (Hupd : forall n,
             Go.minInt <= n <= Go.maxInt ->
             (exists n' lg,
                 Go.minInt <= n' <= Go.maxInt
                 /\ (info (AddingDisambiguation n nm) ;;
                     Exec Pool (Sql.UpdateDisambiguation (Go.Itoa n) pid)) s
                    = Ok tt (dupState
                               (map (Sql.setDisambiguation (Go.Itoa n') pid)
                                    (performers (db s)))
                               (scannedPerformers s) (pending s) lg s))
             \/ (exists e lg,
                    (info (AddingDisambiguation n nm) ;;
                     Exec Pool (Sql.UpdateDisambiguation (Go.Itoa n) pid)) s
                    = Failed e (dupState (performers (db s))
                                         (scannedPerformers s) (pending s)
                                         lg s)
                    /\ duplicateFailure (performers (db s))
                                        (indexes (db s)) e)).
  { intros n Hn. rewrite update_eq. cbv zeta.
    destruct (fault _ _) as [text|] eqn:F.
    - right. eexists. eexists. split; [reflexivity|].
      right. right. eauto.
    - destruct (Sql.violated _ _) as [i|] eqn:V.
      + right. eexists. eexists. split; [reflexivity|].
        right. left. exists i. split; [reflexivity|].
        now apply violated_In in V.
      + left. exists n. eexists. split; [exact Hn | reflexivity]. }
  rewrite migrateDuplicatePerformer_eq.
  destruct (fault CallQuery s) as [text|] eqn:F.
  { right. exists (ErrStorage text), (logs s). rewrite dupState_id.
    split; [reflexivity|]. right. right. eauto. }
  destruct (Sql.selectMaxDisambiguation nm (db s)) as [[str|]|] eqn:Hmax.
  - destruct (Go.Atoi str) as [n|e] eqn:Hatoi.
    + apply (Hupd (Go.add n 1) (add_range n 1)).
    + right. exists (ErrNum e), (logs s). rewrite dupState_id.
      split; [reflexivity|]. left.
      destruct (selectMax_In nm (db s) _ Hmax) as (p & Hp & Hnm & Hdis).
      assert (Hnum : Go.Num e = str).
      { unfold Go.Atoi in Hatoi. destruct (Go.parseInt str); [discriminate|].
        now injection Hatoi as <-. }
      exists e, p. rewrite Hnum. repeat split; auto.
      unfold isNumeric. now rewrite Hatoi.
  - assert (Hone : Go.minInt <= 1 <= Go.maxInt)
      by (unfold Go.minInt, Go.maxInt; lia).
    apply (Hupd 1 Hone).
  - exfalso. now apply (selectMax_None nm (db s) Hmax p0 Hp0).
Qed.

Lemma numericTable_update (n pid : Z) (ps : list performer) :
  Go.minInt <= n <= Go.maxInt ->
  numericTable ps ->
  numericTable (map (Sql.setDisambiguation (Go.Itoa n) pid) ps).
Proof.
  intros Hn Hps p v Hp Hv. apply in_map_iff in Hp.
  destruct Hp as (q & <- & Hq). unfold Sql.setDisambiguation in Hv.
  destruct (id q =? pid).
  - cbn in Hv. injection Hv as <-. unfold isNumeric.
    now rewrite Atoi_Itoa.
  - now apply (Hps q).
Qed.

Lemma named_update (v : string) (pid : Z) (nm : string)
      (ps : list performer) :
  (exists p, In p ps /\ name p = nm) ->
  exists p, In p (map (Sql.setDisambiguation v pid) ps) /\ name p = nm.
Proof.
  intros (p & Hp & Hnm). exists (Sql.setDisambiguation v pid p).
  split; [now apply in_map|].
  unfold Sql.setDisambiguation. now destruct (id p =? pid).
Qed.

(** The row loop on rows whose names are in the table: it keeps a
    numeric table numeric and the indexes as they are, and fails only in
    the three ways. *)
Lemma duplicateRows_outcome (rows : list (Z * string)) :
  forall gotSome count s,
    (forall r, In r rows ->
               exists p, In p (performers (db s)) /\ name p = snd r) ->
    let r := duplicateRows rows gotSome count s in
    (numericTable (performers (db s)) ->
     numericTable (performers (db (final r))))
    /\ indexes (db (final r)) = indexes (db s)
    /\ match r with
       | Ok _ _ => True
       | Failed e s' =>
           duplicateFailure (performers (db s')) (indexes (db s)) e
       | OutOfFuel _ => False
       end.
Proof.
  induction rows as [|r0 rows IH]; intros gotSome count s Hnames r; subst r.
  - cbn. auto.
  - rewrite duplicateRows_cons. unfold scanPerformer.
    destruct (fault CallScan s) as [text|] eqn:F.
    { cbn [final]. split; [auto|]. split; [reflexivity|].
      right. right. eauto. }
    set (s1 := {| db := db s; pending := pending s; logs := logs s;
                  scannedAliases := scannedAliases s;
                  scannedPerformers := scannedPerformers s ++ [r0];
                  stages := stages s |}).
    destruct (migrateDuplicatePerformer_outcome (fst r0) (snd r0) s1)
      as [(n & lg & Hn & ->)|(e & lg & -> & He)].
    + apply Hnames. now left.
    + set (s2 := dupState _ _ _ lg s1).
      specialize (IH true (Go.add count 1) s2).
      destruct IH as (Hnumeric & Hix & Hres).
      { intros r Hr. apply named_update. apply Hnames. now right. }
      split; [|split].
      * intros H. apply Hnumeric. now apply numericTable_update.
      * exact Hix.
      * exact Hres.
    + cbn [final]. split; [auto|]. split; [reflexivity|]. exact He.
Qed.

Lemma duplicatePage_outcome (count : Z) (s : state) :
  let r := withTxn (duplicatePage count) s in
  (numericTable (performers (db s)) ->
   numericTable (performers (db (final r))))
  /\ indexes (db (final r)) = indexes (db s)
  /\ match r with
     | Ok _ _ => True
     | Failed e s' =>
         duplicateFailure (performers (db s')) (indexes (db s)) e
     | OutOfFuel _ => False
     end.
Proof.
  intros r. subst r. rewrite withTxn_eq, duplicatePage_eq.
  destruct (fault CallBegin s) as [text|] eqn:F1.
  { cbn [final]. split; [auto|]. split; [reflexivity|].
    right. right. eauto. }
  destruct (fault CallQuery (setPending (Some []) s)) as [text|] eqn:F2.
  { cbn [final]. split; [auto|]. split; [reflexivity|].
    right. right. eauto. }
  change (db (setPending (Some []) s)) with (db s).
  destruct (duplicateRows_final (Sql.selectDuplicates (db s)) false count
                                (setPending (Some []) s))
    as (us & sc & lg & Hf & _).
  pose proof (duplicateRows_outcome (Sql.selectDuplicates (db s)) false count
                                    (setPending (Some []) s)) as Hout.
  cbv zeta in Hout.
  destruct Hout as (Hnum & Hix & Hres).
  { intros r Hr. apply selectDuplicates_In in Hr.
    destruct Hr as (q & Hq & ->). apply filter_In in Hq.
    exists q. split; [tauto | reflexivity]. }
  destruct (duplicateRows _ false count _) as [v s'|e s'|s'];
    cbn [final] in *; [|auto|contradiction].
  destruct (fault CallRowsErr s') as [text|] eqn:F3.
  { cbn [final setPending db]. split; [auto|]. split; [auto|].
    right. right. eauto. }
  assert (Ep : pending s' = Some []) by (rewrite Hf; reflexivity).
  rewrite Ep.
  destruct (fault CallCommit s') as [text|] eqn:F4.
  { cbn [final setPending db]. split; [auto|]. split; [auto|].
    right. right. eauto. }
  cbn [commit final setPending setDb db]. auto.
Qed.

Lemma duplicateLoop_S (n : nat) (count : Z) (s : state) :
  duplicateLoop (S n) count s
  = match withTxn (duplicatePage count) s with
    | Ok (gotSome, count') s1 =>
        if gotSome then
          match (if Go.rem count' logEvery =? 0
                 then info (MigratedPerformers count')
                 else ret tt) s1 with
          | Ok _ s2 => duplicateLoop n count' s2
          | Failed e s2 => Failed e s2
          | OutOfFuel s2 => OutOfFuel s2
          end
        else Ok tt s1
    | Failed e s1 => Failed e s1
    | OutOfFuel s1 => OutOfFuel s1
    end.
Proof.
  cbn [duplicateLoop]. unfold bind.
  destruct (withTxn (duplicatePage count) s) as [[g c'] s1|e s1|s1];
    [destruct g|..]; reflexivity.
Qed.

Lemma duplicateLoop_outcome (fuel : nat) :
  forall count s,
    let r := duplicateLoop fuel count s in
    (numericTable (performers (db s)) ->
     numericTable (performers (db (final r))))
    /\ indexes (db (final r)) = indexes (db s)
    /\ match r with
       | Ok _ s' => Sql.duplicates (performers (db s')) = []
       | Failed e s' =>
           duplicateFailure (performers (db s')) (indexes (db s)) e
       | OutOfFuel _ => True
       end.
Proof.
  induction fuel as [|n IH]; intros count s r; subst r; [cbn; auto|].
  rewrite duplicateLoop_S.
  pose proof (duplicatePage_outcome count s) as Hpage. cbv zeta in Hpage.
  destruct Hpage as (Hnum & Hix & Hres).
  destruct (withTxn (duplicatePage count) s) as [[g c'] s1|e s1|s1] eqn:E;
    cbn [final] in *; [|auto|contradiction].
  destruct (duplicatePage_shrinks count s s1 (g, c') E)
    as (Ev & _ & _ & _ & Hsame).
  cbn [fst] in Ev, Hsame. destruct g.
  - destruct (logEvery_db (Go.rem c' logEvery =? 0) (MigratedPerformers c') s1)
      as (s2 & E2 & Hdb & _).
    rewrite E2.
    specialize (IH c' s2). cbv zeta in IH. rewrite Hdb in IH.
    destruct IH as (Hnum' & Hix' & Hres').
    split; [auto|]. split; [now rewrite Hix'|].
    destruct (duplicateLoop n c' s2); auto.
    rewrite <- Hix. exact Hres'.
  - cbn [final]. split; [auto|]. split; [auto|].
    rewrite (Hsame eq_refl).
    destruct (Sql.selectDuplicates (db s)) as [|x l] eqn:Esel;
      [|discriminate].
    unfold Sql.selectDuplicates in Esel. apply map_eq_nil, limit_page in Esel.
    apply (f_equal (@List.length performer)) in Esel.
    rewrite orderBy_length in Esel.
    now apply length_zero_iff_nil in Esel.
Qed.

Lemma duplicatePass_numeric (Hq : quiet) (fuel : nat) (s : state) :
  indexes (db s) = [] ->
  numericTable (performers (db s)) ->
  (List.length (Sql.duplicates (performers (db s))) < fuel)%nat ->
  exists s',
    migrateDuplicatePerformers fuel s = Ok tt s'
    /\ Sql.duplicates (performers (db s')) = []
    /\ numericTable (performers (db s')).
Proof.
  intros Hix Hnum Hlen. rewrite migrateDuplicatePerformers_eq.
  set (s0 := {| db := db s; pending := pending s;
                logs := logs s ++ [MigratingDuplicates];
                scannedAliases := scannedAliases s;
                scannedPerformers := scannedPerformers s;
                stages := stages s ++ [DuplicatePass] |}).
  pose proof (duplicateLoop_outcome fuel 0 s0) as Hout. cbv zeta in Hout.
  destruct Hout as (Hnum' & Hix' & Hres).
  pose proof (duplicateLoop_returns fuel 0 s0 Hlen) as Hret.
  specialize (Hnum' Hnum).
  destruct (duplicateLoop fuel 0 s0) as [[] s'|e s'|s'];
    cbn [final returned] in *; [|exfalso|discriminate].
  - exists s'. auto.
  - destruct Hres as [(ne & p & _ & Hp & Hdis & Hno)
                     |[(i & _ & Hi)|(text & c & sf & _ & Hf)]].
    + rewrite (Hnum' p _ Hp Hdis) in Hno. discriminate.
    + change (indexes (db s0)) with (indexes (db s)) in Hi.
      now rewrite Hix in Hi.
    + now apply quiet_None in Hf.
Qed.

(** X1.  A performers table whose disambiguations, where set, all
    parse stays such a table through the duplicate pass, whatever the
    outcome.  With no index installed and no call to the driver failing,
    the pass on such a table returns without error once it has fuel for
    one page more than the query selects rows, and leaves no row for the
    query to select. *)
Theorem duplicate_pass_succeeds_on_numeric (fuel : nat) (s : state) :
  numericTable (performers (db s)) ->
  numericTable (performers (db (final (migrateDuplicatePerformers fuel s))))
  /\ (quiet ->
      indexes (db s) = [] ->
      (List.length (Sql.duplicates (performers (db s))) < fuel)%nat ->
      exists s',
        migrateDuplicatePerformers fuel s = Ok tt s'
        /\ Sql.duplicates (performers (db s')) = []
        /\ numericTable (performers (db s'))).
Proof.
  intros Hnum. split.
  - rewrite migrateDuplicatePerformers_eq.
    match goal with
    | |- context [duplicateLoop fuel 0 ?s0] =>
        pose proof (duplicateLoop_outcome fuel 0 s0) as Hout
    end.
    cbv zeta in Hout. destruct Hout as (Hkeep & _). now apply Hkeep.
  - intros Hq Hix Hlen. now apply duplicatePass_numeric.
Qed.

(** X2.  The duplicate pass fails in three ways only: on a
    disambiguation that is in the table and that [strconv.Atoi] rejects,
    on an index that was installed before the pass, or with the error of
    a call that the driver failed.  It never fails for want of a row of
    the name it asks for. *)
Theorem duplicate_pass_failures (fuel : nat) (s s' : state) (e : error) :
  migrateDuplicatePerformers fuel s = Failed e s' ->
  (exists ne p,
      e = ErrNum ne /\ In p (performers (db s'))
      /\ disambiguation p = Some (Go.Num ne)
      /\ isNumeric (Go.Num ne) = false)
  \/ (exists i, e = ErrConstraint i /\ In i (indexes (db s)))
  \/ (exists text c s0, e = ErrStorage text /\ fault c s0 = Some text).
Proof.
  rewrite migrateDuplicatePerformers_eq. intros Hrun.
  match type of Hrun with
  | duplicateLoop fuel 0 ?s0 = _ =>
      pose proof (duplicateLoop_outcome fuel 0 s0) as Hout
  end.
  cbv zeta in Hout. rewrite Hrun in Hout.
  destruct Hout as (_ & _ & Hres). exact Hres.
Qed.

(** X3.  What [migrateDuplicatePerformer] writes, it can read: after a
    call that returned without error, every row with the given id holds
    the decimal text of an [int], which [strconv.Atoi] parses back to
    that number. *)
Theorem written_disambiguation_parses (pid : Z) (nm : string)
        (s s' : state) :
  migrateDuplicatePerformer pid nm s = Ok tt s' ->
  exists n,
    Go.minInt <= n <= Go.maxInt
    /\ Go.Atoi (Go.Itoa n) = inl n
    /\ forall p, In p (performers (db s')) -> id p = pid ->
                 disambiguation p = Some (Go.Itoa n).
Proof.
  intros Hrun.
  assert (Hcases :
           (exists n lg,
               Go.minInt <= n <= Go.maxInt
               /\ s' = dupState (map (Sql.setDisambiguation (Go.Itoa n) pid)
                                     (performers (db s)))
                                (scannedPerformers s) (pending s) lg s)).
  { rewrite migrateDuplicatePerformer_eq in Hrun.
    destruct (fault CallQuery s); [discriminate|].
    assert (Hupd : forall n,
               (info (AddingDisambiguation n nm) ;;
                Exec Pool (Sql.UpdateDisambiguation (Go.Itoa n) pid)) s
               = Ok tt s' ->
               exists lg,
                 s' = dupState (map (Sql.setDisambiguation (Go.Itoa n) pid)
                                    (performers (db s)))
                               (scannedPerformers s) (pending s) lg s).
    { intros n. rewrite update_eq. cbv zeta.
      destruct (fault _ _); [discriminate|].
      destruct (Sql.violated _ _); [discriminate|].
      intros [= <-]. eauto. }
    destruct (Sql.selectMaxDisambiguation nm (db s)) as [[str|]|];
      [|..|discriminate].
    - destruct (Go.Atoi str) as [n|]; [|discriminate].
      destruct (Hupd _ Hrun) as (lg & ->).
      exists (Go.add n 1), lg. split; [apply add_range | reflexivity].
    - destruct (Hupd _ Hrun) as (lg & ->).
      exists 1, lg. split; [unfold Go.minInt, Go.maxInt; lia | reflexivity]. }
  destruct Hcases as (n & lg & Hn & ->). exists n.
  split; [exact Hn|]. split; [now apply Atoi_Itoa|].
  intros p Hp Hid. cbn in Hp. apply in_map_iff in Hp.
  destruct Hp as (q & <- & _). unfold Sql.setDisambiguation in *.
  destruct (Z.eqb_spec (id q) pid); [reflexivity | contradiction].
Qed.

(** ** What the duplicate pass leaves as it is *)

Lemma duplicatePass_shape (fuel : nat) (s : state) :
  let s' := final (migrateDuplicatePerformers fuel s) in
  shape (performers (db s')) = shape (performers (db s))
  /\ performer_aliases (db s') = performer_aliases (db s)
  /\ scannedAliases s' = scannedAliases s.
Proof.
  cbv zeta. rewrite migrateDuplicatePerformers_eq.
  apply (duplicateLoop_inv
           (fun s1 => shape (performers (db s1)) = shape (performers (db s))
                      /\ performer_aliases (db s1) = performer_aliases (db s)
                      /\ scannedAliases s1 = scannedAliases s)).
  - intros count s1 (H1 & H2 & H3).
    destruct (duplicatePage_final count s1) as (us & sc & q & lg & -> & _).
    cbn [dupState db withPerformers performers performer_aliases
                  scannedAliases].
    now rewrite shape_updates.
  - intros m s1 H. exact H.
  - cbn. auto.
Qed.

Lemma keyEqb_eq (a b : string * option string) :
  Sql.keyEqb a b = true -> a = b.
Proof.
  destruct a as [n [v|]], b as [n' [v'|]]; unfold Sql.keyEqb; cbn;
    intros H; apply andb_true_iff in H; destruct H as [H1 H2];
    apply String.eqb_eq in H1; subst; try discriminate; auto.
  apply String.eqb_eq in H2. now subst.
Qed.

Lemma distinct_NoDup (l : list (string * option string)) :
  NoDup l -> Sql.distinct l = true.
Proof.
  induction 1 as [|k l Hk Hl IH]; cbn; auto.
  rewrite IH, andb_true_r. apply negb_true_iff.
  destruct (existsb (Sql.keyEqb k) l) eqn:E; auto.
  apply existsb_exists in E. destruct E as (x & Hx & Hkx).
  apply keyEqb_eq in Hkx. now subst.
Qed.

Lemma indexKeys_null (ps : list performer) :
  Sql.indexKeys performers_name_unique ps
  = map (fun p => (name p, @None string)) (filter isNull ps).
Proof.
  induction ps as [|p ps IH]; cbn; auto.
  unfold Sql.indexKey, isNull. destruct (disambiguation p); cbn;
    now rewrite IH.
Qed.

(** With distinct ids and no row left for the duplicate query, the rows
    without disambiguation have distinct names. *)
Lemma no_duplicates_unique (ps : list performer) :
  NoDup (map id ps) -> Sql.duplicates ps = [] ->
  Sql.unique performers_name_unique ps = true.
Proof.
  intros Hn Hd. unfold Sql.unique. rewrite indexKeys_null.
  apply distinct_NoDup, NoDup_map_NoDup_ForallPairs.
  - intros p q Hp Hq E. injection E as E.
    apply filter_In in Hp, Hq. destruct Hp as [Hp Np], Hq as [Hq Nq].
    destruct (Z.eq_dec (id p) (id q)) as [Eid|Nid].
    + now apply (NoDup_map_eq id ps).
    + exfalso.
      assert (Hsel : forall a b,
                 In a ps -> In b ps -> isNull b = true ->
                 name a = name b -> id a < id b -> False).
      { intros a b Ha Hb Nb Enm Hlt.
        assert (Hin : In b (Sql.duplicates ps)).
        { apply filter_In. split; auto. unfold Sql.isDuplicate.
          unfold isNull in Nb. destruct (disambiguation b); [discriminate|].
          apply existsb_exists. exists a. split; auto.
          unfold Sql.earlier. rewrite Enm, String.eqb_refl. cbn.
          now apply Z.ltb_lt. }
        now rewrite Hd in Hin. }
      destruct (Z.lt_ge_cases (id p) (id q)).
      * now apply (Hsel p q).
      * apply (Hsel q p); auto. lia.
  - apply NoDup_filter. now apply NoDup_map_inv in Hn.
Qed.

(** X4.  When the duplicate pass returns without error on a table with
    distinct ids, no row is left for its query, so no two rows without
    disambiguation share a name: the index on the names of such rows
    can be created.  The ids and names of the table are as before. *)
Theorem duplicate_pass_separates_null_names (fuel : nat) (s s' : state) :
  migrateDuplicatePerformers fuel s = Ok tt s' ->
  NoDup (map id (performers (db s))) ->
  Sql.duplicates (performers (db s')) = []
  /\ Sql.unique performers_name_unique (performers (db s')) = true
  /\ shape (performers (db s')) = shape (performers (db s))
  /\ (forall l1 p l2 q l3,
         performers (db s') = l1 ++ p :: l2 ++ q :: l3 ->
         disambiguation p = None -> disambiguation q = None ->
         name p <> name q).
Proof.
  intros Hrun Hn.
  destruct (duplicatePass_shape fuel s) as (Hshape & _).
  rewrite Hrun in Hshape. cbn [final] in Hshape.
  assert (Hempty : Sql.duplicates (performers (db s')) = []).
  { rewrite migrateDuplicatePerformers_eq in Hrun.
    match type of Hrun with
    | duplicateLoop fuel 0 ?s0 = _ =>
        pose proof (duplicateLoop_outcome fuel 0 s0) as Hout
    end.
    cbv zeta in Hout. rewrite Hrun in Hout. tauto. }
  assert (Hu : Sql.unique performers_name_unique (performers (db s')) = true).
  { apply no_duplicates_unique; auto.
    rewrite <- shape_ids, Hshape, shape_ids. exact Hn. }
  split; [exact Hempty|]. split; [exact Hu|]. split; [exact Hshape|].
  intros l1 p l2 q l3 Hps Np Nq Enm. rewrite Hps in Hu.
  rewrite (unique_twice _ (name p, None)) in Hu; [discriminate| |].
  - unfold Sql.indexKey. now rewrite Np.
  - unfold Sql.indexKey. now rewrite Nq, Enm.
Qed.

(** X5.  Whatever its outcome, the duplicate pass leaves the alias table
    alone and changes no id and no name; with distinct ids, a row that
    holds a disambiguation keeps it. *)
Theorem duplicate_pass_frame (fuel : nat) (s : state) :
  let s' := final (migrateDuplicatePerformers fuel s) in
  performer_aliases (db s') = performer_aliases (db s)
  /\ shape (performers (db s')) = shape (performers (db s))
  /\ (NoDup (map id (performers (db s))) ->
      forall p, In p (performers (db s)) -> disambiguation p <> None ->
                In p (performers (db s'))).
Proof.
  cbv zeta. destruct (duplicatePass_shape fuel s) as (Hshape & Hal & _).
  split; [exact Hal|]. split; [exact Hshape|].
  intros Hn p Hp Hset. rewrite migrateDuplicatePerformers_eq.
  apply (duplicateLoop_inv
           (fun s1 => In p (performers (db s1))
                      /\ shape (performers (db s1))
                         = shape (performers (db s)))).
  - intros count s1 (Hp1 & Hs1).
    destruct (duplicatePage_final count s1)
      as (us & sc & pq & lg & -> & Hus & _).
    cbn [dupState db withPerformers performers].
    split; [|now rewrite shape_updates].
    apply In_updates; auto. intros Hin. apply Hus in Hin.
    apply in_map_iff in Hin. destruct Hin as (r & Er & Hr).
    apply selectDuplicates_In in Hr. destruct Hr as (q & Hq & ->).
    cbn in Er. apply filter_In in Hq. destruct Hq as [Hq Hdup].
    assert (q = p).
    { apply (NoDup_map_eq id (performers (db s1))); auto.
      rewrite <- shape_ids, Hs1, shape_ids. exact Hn. }
    subst q. unfold Sql.isDuplicate in Hdup.
    destruct (disambiguation p); [discriminate | now apply Hset].
  - intros m s1 H. exact H.
  - cbn. auto.
Qed.

(** ** The alias pass *)

Lemma rewriteAliases_others (pid : Z) (r : alias_row) (t : list alias_row) :
  performer_id r = pid ->
  filter (fun x => negb (performer_id x =? pid)) (rewriteAliases t r)
  = filter (fun x => negb (performer_id x =? pid)) t.
Proof.
  intros <-. unfold rewriteAliases.
  destruct (List.length (pieces (alias r)) <? 2)%nat; auto.
  rewrite filter_app, filter_filter.
  rewrite (filter_none _ (map _ _)).
  - rewrite app_nil_r. apply filter_ext. intros x.
    now destruct (performer_id x =? performer_id r).
  - intros x Hx. apply in_map_iff in Hx. destruct Hx as (a & <- & _).
    cbn. now rewrite Z.eqb_refl.
Qed.

(** X6.  Whatever its outcome, [migratePerformerAliases] touches the
    rows of the given performer only: the rows of the other performers
    stay, in their order, a row it leaves is of the given performer or
    was there before, and the performers table and the indexes are as
    they were. *)
Theorem alias_transform_frame (pid : Z) (aliases : string) (s : state) :
  let s' := final (migratePerformerAliases pid aliases s) in
  filter (fun x => negb (performer_id x =? pid))
         (performer_aliases (db s'))
  = filter (fun x => negb (performer_id x =? pid))
           (performer_aliases (db s))
  /\ (forall x, In x (performer_aliases (db s')) ->
                performer_id x = pid \/ In x (performer_aliases (db s)))
  /\ performers (db s') = performers (db s)
  /\ indexes (db s') = indexes (db s).
Proof.
  cbv zeta.
  pose proof (migratePerformerAliases_final pid aliases s) as H.
  cbv zeta in H. destruct H as (t' & -> & _ & Hshape & _).
  cbn [aliasState db withAliases performer_aliases performers indexes].
  destruct Hshape as [->|(l1 & l2 & _ & ->)]; [auto|].
  split; [|split; [|auto]].
  - rewrite filter_app, filter_filter.
    rewrite (filter_none _ (map _ _)).
    + rewrite app_nil_r. apply filter_ext. intros x.
      now destruct (performer_id x =? pid).
    + intros x Hx. apply in_map_iff in Hx. destruct Hx as (a & <- & _).
      cbn. now rewrite Z.eqb_refl.
  - intros x Hx. apply in_app_or in Hx. destruct Hx as [Hx|Hx].
    + right. now apply filter_In in Hx.
    + left. apply in_map_iff in Hx. now destruct Hx as (a & <- & _).
Qed.

Lemma aliasesOf_single (pid : Z) (a : string) (t : list alias_row) :
  NoDup (map performer_id t) ->
  In {| performer_id := pid; alias := a |} t ->
  aliasesOf pid t = [a].
Proof.
  induction t as [|r t IH]; intros Hn Hin; [contradiction|].
  cbn in Hn. inversion Hn as [|? ? Hnot Hn']; subst.
  unfold aliasesOf in *. cbn [filter].
  destruct Hin as [->|Hin].
  - cbn [performer_id]. rewrite Z.eqb_refl. cbn. f_equal.
    rewrite filter_none; auto.
    intros x Hx. apply Z.eqb_neq. intros E. apply Hnot.
    cbn [performer_id]. rewrite <- E. now apply in_map.
  - destruct (Z.eqb_spec (performer_id r) pid) as [E|N]; [|now apply IH].
    exfalso. apply Hnot. rewrite E.
    now apply (in_map performer_id) in Hin.
Qed.

Lemma aliasesOf_absent (pid : Z) (t : list alias_row) :
  ~ In pid (map performer_id t) -> aliasesOf pid t = [].
Proof.
  intros H. unfold aliasesOf. rewrite filter_none; auto.
  intros x Hx. apply Z.eqb_neq. intros E. apply H. rewrite <- E.
  now apply in_map.
Qed.

Lemma rewriteAll_noop (r : alias_row) (rows : list alias_row) :
  NoDup (map performer_id rows) ->
  In r rows ->
  (List.length (pieces (alias r)) < 2)%nat ->
  forall t,
    aliasesOf (performer_id r) (fold_left rewriteAliases rows t)
    = aliasesOf (performer_id r) t.
Proof.
  induction rows as [|r0 rows IH]; intros Hn Hin Hp t; [contradiction|].
  cbn in Hn. inversion Hn as [|? ? Hnot Hn']; subst. cbn [fold_left].
  destruct Hin as [->|Hin].
  - rewrite rewriteAll_other by exact Hnot.
    unfold rewriteAliases. apply Nat.ltb_lt in Hp. now rewrite Hp.
  - rewrite IH by auto. apply rewriteAliases_other.
    intros E. apply Hnot. rewrite E. now apply in_map.
Qed.

(** X7.  On a table with one row per performer and no performer id 0,
    an alias pass that returns without error leaves, for every performer
    id: nothing when the performer had no row, the row as it was when
    its text has fewer than two pieces, and otherwise the trimmed pieces
    of its text without repetitions.  The pass returns without error
    when no call to the driver fails. *)
Theorem alias_pass_result (fuel : nat) (s : state) :
  NoDup (map performer_id (performer_aliases (db s))) ->
  (forall r, In r (performer_aliases (db s)) -> performer_id r <> 0) ->
  (forall s',
      migrate fuel s = Ok tt s' ->
      forall pid,
        aliasesOf pid (performer_aliases (db s'))
        = aliasesAfter (rowOf pid (performer_aliases (db s))))
  /\ (quiet ->
      (List.length (performer_aliases (db s)) < fuel)%nat ->
      exists s', migrate fuel s = Ok tt s').
Proof.
  intros Hn Hnz. split.
  2:{ intros Hq Hlen.
      destruct (migrate_spec Hq fuel s Hnz Hlen) as (F & lg & Hrun & _).
      eauto. }
  intros s' Hrun pid.
  destruct (migrate_ok fuel s s' Hnz Hrun) as (F & lg & -> & _ & HF).
  cbn [db withAliases performer_aliases]. rewrite (HF Hn).
  set (t := performer_aliases (db s)) in *.
  assert (HnV : NoDup (map performer_id (Sql.orderBy performer_id t))).
  { eapply Permutation_NoDup; [|exact Hn].
    apply Permutation_map. symmetry. apply orderBy_perm. }
  unfold rowOf. destruct (find _ t) as [r|] eqn:Ef.
  - apply find_some in Ef. destruct Ef as [Hr Hk].
    apply Z.eqb_eq in Hk. subst pid. unfold aliasesAfter.
    destruct (Nat.ltb_spec (List.length (pieces (alias r))) 2) as [Hp|Hp].
    + rewrite (rewriteAll_noop r); auto; [|now apply orderBy_In].
      apply aliasesOf_single; auto. now destruct r.
    + destruct r as [pid a]. cbn [performer_id alias] in *.
      apply rewriteAll_aliasesOf; auto. now apply orderBy_In.
  - assert (Habs : ~ In pid (map performer_id t)).
    { intros Hin. apply in_map_iff in Hin. destruct Hin as (x & Ex & Hx).
      apply (find_none _ _ Ef) in Hx. rewrite Ex, Z.eqb_refl in Hx.
      discriminate. }
    cbn [aliasesAfter]. rewrite rewriteAll_other.
    + now apply aliasesOf_absent.
    + intros Hin. apply Habs. apply in_map_iff in Hin.
      destruct Hin as (x & Ex & Hx). apply orderBy_In in Hx.
      rewrite <- Ex. now apply in_map.
Qed.

Lemma migrate_frame (fuel : nat) (s : state) :
  let s' := final (migrate fuel s) in
  performers (db s') = performers (db s)
  /\ indexes (db s') = indexes (db s)
  /\ scannedPerformers s' = scannedPerformers s.
Proof.
  cbv zeta. unfold migrate, bind at 1, enter. unfold bind at 1, info.
  apply (migrateLoop_inv
           (fun s1 => performers (db s1) = performers (db s)
                      /\ indexes (db s1) = indexes (db s)
                      /\ scannedPerformers s1 = scannedPerformers s)).
  - intros lastID count s1 H.
    pose proof (aliasPage_final lastID count s1) as Hp. cbv zeta in Hp.
    destruct Hp as (t' & sc & q & -> & _). exact H.
  - intros m s1 H. exact H.
  - cbn. auto.
Qed.

(** X8.  Whatever its outcome, the alias pass leaves the performers
    table and the indexes alone and fetches no performer row. *)
Theorem alias_pass_frame (fuel : nat) (s : state) :
  let s' := final (migrate fuel s) in
  performers (db s') = performers (db s)
  /\ indexes (db s') = indexes (db s)
  /\ scannedPerformers s' = scannedPerformers s.
Proof. exact (migrate_frame fuel s). Qed.

(** ** Finalisation after the passes *)

(** Where the first index is installed the finalisation does not
    return without error; when no call to the driver fails, its error
    says that the index exists. *)
Lemma executeSchemaChanges_again (s : state) :
  Sql.hasIndex performers_name_disambiguation_unique (indexes (db s)) = true ->
  (forall s', executeSchemaChanges s <> Ok tt s')
  /\ (quiet ->
      failure (executeSchemaChanges s)
      = Some (ErrIndexExists performers_name_disambiguation_unique)).
Proof.
  intros H. rewrite executeSchemaChanges_eq. cbv zeta. rewrite H.
  split.
  - intros s'. now destruct (fault _ _).
  - intros Hq. now rewrite Hq.
Qed.

Lemma executeSchemaChanges_clean (Hq : quiet) (s : state) :
  indexes (db s) = [] ->
  Sql.unique performers_name_unique (performers (db s)) = true ->
  (exists s', executeSchemaChanges s = Ok tt s')
  \/ (exists s',
         executeSchemaChanges s
         = Failed (ErrConstraint performers_name_disambiguation_unique) s'
         /\ indexes (db s') = []
         /\ performers (db s') = performers (db s)
         /\ Sql.unique performers_name_disambiguation_unique
                       (performers (db s)) = false).
Proof.
  intros Hix Hu. rewrite executeSchemaChanges_eq. cbv zeta.
  rewrite !Hq, Hix, Hu. cbn [Sql.hasIndex app].
  destruct (Sql.unique performers_name_disambiguation_unique
                       (performers (db s))) eqn:U1.
  - left. eauto.
  - right. eexists. split; [reflexivity|]. cbn. auto.
Qed.

Lemma hasIndex_app (i : index) (l l' : list index) :
  Sql.hasIndex i l' = true -> Sql.hasIndex i (l ++ l') = true.
Proof.
  intros H. induction l as [|j l IH]; cbn; auto.
  destruct i, j; auto.
Qed.

(** X9.  When no call to the driver fails, the alias pass has returned
    and [post42] started from a performers table with distinct ids,
    disambiguations that all parse and no index, only one thing can go
    wrong given enough fuel: the first index fails on a repeated pair of
    name and disambiguation, and then no index is installed.  The
    duplicate pass itself does not fail, and the index on the names of
    rows without disambiguation does not either. *)
Theorem post42_fails_only_on_repeated_pairs (fuel : nat) (s s1 : state) :
  quiet ->
  migrate fuel (started s) = Ok tt s1 ->
  indexes (db s) = [] ->
  NoDup (map id (performers (db s))) ->
  numericTable (performers (db s)) ->
  (List.length (Sql.duplicates (performers (db s))) < fuel)%nat ->
  (exists s', post42 fuel s = Ok tt s')
  \/ (exists s',
         post42 fuel s
         = Failed (ErrWrap "executing schema changes"
                           (ErrConstraint
                              performers_name_disambiguation_unique)) s'
         /\ indexes (db s') = []
         /\ Sql.unique performers_name_disambiguation_unique
                       (performers (db s')) = false).
Proof.
  intros Hq Hal Hix Hn Hnum Hlen.
  destruct (migrate_frame fuel (started s)) as (Hps & Hix1 & _).
  rewrite Hal in Hps, Hix1. cbn [final] in Hps, Hix1.
  change (performers (db (started s))) with (performers (db s)) in Hps.
  change (indexes (db (started s))) with (indexes (db s)) in Hix1.
  destruct (duplicatePass_numeric Hq fuel s1) as (s2 & Hdup & Hempty & _);
    [congruence | now rewrite Hps | now rewrite Hps |].
  destruct (duplicatePass_shape fuel s1) as (Hshape & _).
  destruct (migrateDuplicatePerformers_stages fuel s1) as [_ Hix2].
  rewrite Hdup in Hshape, Hix2. cbn [final] in Hshape, Hix2.
  assert (Hu : Sql.unique performers_name_unique (performers (db s2)) = true).
  { apply no_duplicates_unique; auto.
    rewrite <- shape_ids, Hshape, shape_ids, Hps. exact Hn. }
  rewrite post42_eq, Hal, Hdup.
  destruct (executeSchemaChanges_clean Hq s2)
    as [(s' & ->)|(s' & -> & H1 & H2 & H3)];
    [congruence | exact Hu | left; eauto |].
  right. exists s'. split; [reflexivity|]. split; [exact H1|].
  now rewrite H2.
Qed.

(** X10.  [post42] does not succeed twice: run again on the state a
    successful run left, it never returns without error, whichever calls
    fail; and when both passes return and no call to the driver fails,
    it fails because the first index already exists. *)
Theorem post42_not_rerunnable (fuel fuel' : nat) (s s' : state) :
  post42 fuel s = Ok tt s' ->
  (forall s'', post42 fuel' s' <> Ok tt s'')
  /\ (quiet ->
      forall s1 s2,
        migrate fuel' (started s') = Ok tt s1 ->
        migrateDuplicatePerformers fuel' s1 = Ok tt s2 ->
        failure (post42 fuel' s')
        = Some (ErrWrap "executing schema changes"
                        (ErrIndexExists
                           performers_name_disambiguation_unique))).
Proof.
  intros Hrun.
  assert (Hhas : Sql.hasIndex performers_name_disambiguation_unique
                              (indexes (db s')) = true).
  { rewrite post42_eq in Hrun.
    destruct (migrate fuel (started s)) as [[] s1|e s1|s1];
      try discriminate.
    destruct (migrateDuplicatePerformers fuel s1) as [[] s2|e s2|s2];
      try discriminate.
    destruct (executeSchemaChanges s2) as [[] s3|e s3|s3] eqn:E;
      try discriminate.
    injection Hrun as <-.
    destruct (executeSchemaChanges_ok s2 s3 E) as (_ & _ & _ & ->).
    now apply hasIndex_app. }
  assert (Hfin : forall s1 s2,
             migrate fuel' (started s') = Ok tt s1 ->
             migrateDuplicatePerformers fuel' s1 = Ok tt s2 ->
             Sql.hasIndex performers_name_disambiguation_unique
                          (indexes (db s2)) = true).
  { intros s1 s2 Hal Hdup.
    destruct (migrate_frame fuel' (started s')) as (_ & Hix1 & _).
    destruct (migrateDuplicatePerformers_stages fuel' s1) as [_ Hix2].
    rewrite Hal in Hix1. rewrite Hdup in Hix2. cbn [final] in Hix1, Hix2.
    rewrite Hix2, Hix1. exact Hhas. }
  split.
  - intros s'' H. rewrite post42_eq in H.
    destruct (migrate fuel' (started s')) as [[] s1|e s1|s1] eqn:Hal;
      try discriminate.
    destruct (migrateDuplicatePerformers fuel' s1) as [[] s2|e s2|s2] eqn:Hdup;
      try discriminate.
    destruct (executeSchemaChanges_again s2 (Hfin s1 s2 eq_refl Hdup))
      as [Hno _].
    destruct (executeSchemaChanges s2) as [[] s3|e s3|s3] eqn:E;
      try discriminate.
    now apply (Hno s3).
  - intros Hq s1 s2 Hal Hdup. rewrite post42_eq, Hal, Hdup.
    destruct (executeSchemaChanges_again s2 (Hfin s1 s2 Hal Hdup))
      as [_ Hex].
    specialize (Hex Hq).
    destruct (executeSchemaChanges s2); cbn in Hex |- *; try discriminate.
    now injection Hex as ->.
Qed.

(** ** The aliases the transform stores are trimmed *)

Lemma trimLeft_suffix (n : nat) :
  forall s, (List.length s <= n)%nat -> exists w, s = w ++ Go.trimLeft s.
Proof.
  induction n as [|n IH]; intros s Hs.
  - destruct s; [now exists [] | cbn in Hs; lia].
  - destruct s as [|c1 r1]; [now exists []|].
    cbn in Hs. cbn [Go.trimLeft].
    destruct (Go.asciiSpace c1).
    { destruct (IH r1) as (w & Hw); [lia|]. exists (c1 :: w). cbn.
      now rewrite <- Hw. }
    destruct r1 as [|c2 r2]; [now exists []|]. cbn in Hs.
    destruct (Go.space2 c1 c2).
    { destruct (IH r2) as (w & Hw); [lia|]. exists (c1 :: c2 :: w). cbn.
      now rewrite <- Hw. }
    destruct r2 as [|c3 r3]; [now exists []|]. cbn in Hs.
    destruct (Go.space3 c1 c2 c3); [|now exists []].
    destruct (IH r3) as (w & Hw); [lia|]. exists (c1 :: c2 :: c3 :: w).
    cbn. now rewrite <- Hw.
Qed.

Lemma trimRightRev_suffix (n : nat) :
  forall s, (List.length s <= n)%nat -> exists w, s = w ++ Go.trimRightRev s.
Proof.
  induction n as [|n IH]; intros s Hs.
  - destruct s; [now exists [] | cbn in Hs; lia].
  - destruct s as [|c1 r1]; [now exists []|].
    cbn in Hs. cbn [Go.trimRightRev].
    destruct (Go.asciiSpace c1).
    { destruct (IH r1) as (w & Hw); [lia|]. exists (c1 :: w). cbn.
      now rewrite <- Hw. }
    destruct r1 as [|c2 r2]; [now exists []|]. cbn in Hs.
    destruct (Go.space2 c2 c1).
    { destruct (IH r2) as (w & Hw); [lia|]. exists (c1 :: c2 :: w). cbn.
      now rewrite <- Hw. }
    destruct r2 as [|c3 r3]; [now exists []|]. cbn in Hs.
    destruct (Go.space3 c3 c2 c1); [|now exists []].
    destruct (IH r3) as (w & Hw); [lia|]. exists (c1 :: c2 :: c3 :: w).
    cbn. now rewrite <- Hw.
Qed.

Lemma trimLeft_shorter (s : list ascii) :
  (List.length (Go.trimLeft s) <= List.length s)%nat.
Proof.
  destruct (trimLeft_suffix _ s (le_n _)) as (w & Hw).
  rewrite Hw at 2. rewrite length_app. lia.
Qed.

Lemma trimLeft_idem (n : nat) :
  forall s, (List.length s <= n)%nat ->
            Go.trimLeft (Go.trimLeft s) = Go.trimLeft s.
Proof.
  induction n as [|n IH]; intros s Hs.
  - destruct s; [reflexivity | cbn in Hs; lia].
  - destruct s as [|c1 r1]; [reflexivity|].
    cbn in Hs. cbn [Go.trimLeft].
    destruct (Go.asciiSpace c1) eqn:E1; [apply IH; lia|].
    destruct r1 as [|c2 r2]; [cbn; now rewrite E1|]. cbn in Hs.
    destruct (Go.space2 c1 c2) eqn:E2; [apply IH; lia|].
    destruct r2 as [|c3 r3]; [cbn; now rewrite E1, E2|]. cbn in Hs.
    destruct (Go.space3 c1 c2 c3) eqn:E3; [apply IH; lia|].
    cbn. now rewrite E1, E2, E3.
Qed.

Lemma trimRightRev_idem (n : nat) :
  forall s, (List.length s <= n)%nat ->
            Go.trimRightRev (Go.trimRightRev s) = Go.trimRightRev s.
Proof.
  induction n as [|n IH]; intros s Hs.
  - destruct s; [reflexivity | cbn in Hs; lia].
  - destruct s as [|c1 r1]; [reflexivity|].
    cbn in Hs. cbn [Go.trimRightRev].
    destruct (Go.asciiSpace c1) eqn:E1; [apply IH; lia|].
    destruct r1 as [|c2 r2]; [cbn; now rewrite E1|]. cbn in Hs.
    destruct (Go.space2 c2 c1) eqn:E2; [apply IH; lia|].
    destruct r2 as [|c3 r3]; [cbn; now rewrite E1, E2|]. cbn in Hs.
    destruct (Go.space3 c3 c2 c1) eqn:E3; [apply IH; lia|].
    cbn. now rewrite E1, E2, E3.
Qed.

(** A string that starts with no white space keeps doing so when it is
    cut short. *)
Lemma trimLeft_prefix (y z : list ascii) :
  Go.trimLeft (y ++ z) = y ++ z -> Go.trimLeft y = y.
Proof.
  assert (Hshort : forall r : list ascii,
             (List.length r < List.length (y ++ z))%nat ->
             Go.trimLeft r <> y ++ z).
  { intros r Hr E. pose proof (trimLeft_shorter r) as H.
    rewrite E in H. lia. }
  destruct y as [|c1 r1]; [reflexivity|]. intros H.
  cbn [app Go.trimLeft] in H. cbn [Go.trimLeft].
  destruct (Go.asciiSpace c1).
  { exfalso. eapply Hshort; [|exact H]. cbn [List.length app]. lia. }
  destruct r1 as [|c2 r2]; [reflexivity|]. cbn [app] in H.
  destruct (Go.space2 c1 c2).
  { exfalso. eapply Hshort; [|exact H]. cbn [List.length app]. lia. }
  destruct r2 as [|c3 r3]; [reflexivity|]. cbn [app] in H.
  destruct (Go.space3 c1 c2 c3); [|reflexivity].
  exfalso. eapply Hshort; [|exact H]. cbn [List.length app]. lia.
Qed.

Lemma TrimSpace_idem (s : string) :
  Go.TrimSpace (Go.TrimSpace s) = Go.TrimSpace s.
Proof.
  unfold Go.TrimSpace at 1 3.
  unfold Go.TrimSpace. rewrite list_ascii_of_string_of_list_ascii.
  set (x := Go.trimLeft (list_ascii_of_string s)).
  set (y := rev (Go.trimRightRev (rev x))).
  assert (Hx : Go.trimLeft x = x) by apply (trimLeft_idem _ _ (le_n _)).
  assert (Hy : Go.trimLeft y = y).
  { destruct (trimRightRev_suffix _ (rev x) (le_n _)) as (w & Hw).
    apply (trimLeft_prefix y (rev w)).
    assert (E : y ++ rev w = x).
    { unfold y. rewrite <- rev_app_distr, <- Hw. apply rev_involutive. }
    now rewrite E. }
  rewrite Hy. unfold y. rewrite rev_involutive.
  now rewrite (trimRightRev_idem _ _ (le_n _)).
Qed.

(** X11.  Every alias [migratePerformerAliases] stores has no white
    space at either end: trimming it again gives it back.  It holds no
    delimiter either, so a later run of the transform leaves it alone. *)
Theorem stored_aliases_are_trimmed (pid : Z) (aliases : string)
        (s s' : state) (a : string) :
  (2 <= List.length (pieces aliases))%nat ->
  migratePerformerAliases pid aliases s = Ok tt s' ->
  In a (aliasesOf pid (performer_aliases (db s'))) ->
  Go.TrimSpace a = a
  /\ noDelimiter a
  /\ (List.length (pieces a) < 2)%nat.
Proof.
  intros Hp Hrun Ha. apply migratePerformerAliases_ok in Hrun. subst s'.
  cbn [aliasState db withAliases performer_aliases] in Ha.
  rewrite rewriteAliases_self in Ha by exact Hp.
  assert (Hn : noDelimiter a)
    by now apply (normalized_noDelimiter aliases).
  split; [|split; [exact Hn | now apply Nat.ltb_lt, pieces_one]].
  rewrite normalized_dedup, dedup_In, in_map_iff in Ha.
  destruct Ha as (w & <- & _). apply TrimSpace_idem.
Qed.

(** * The performer edit panel *)

Lemma nodup_shorter (l : list string) :
  (List.length (nodup string_dec l) <= List.length l)%nat.
Proof.
  induction l as [|x l IH]; cbn; auto.
  destruct (in_dec string_dec x l); cbn; lia.
Qed.

Lemma nodup_same_length (l : list string) :
  List.length (nodup string_dec l) = List.length l -> NoDup l.
Proof.
  induction l as [|x l IH]; cbn; [constructor|].
  pose proof (nodup_shorter l) as Hle.
  destruct (in_dec string_dec x l); cbn; intros H; [lia|].
  constructor; auto.
Qed.

(** X12.  The [unique] test of the alias list accepts a missing list,
    and accepts a list exactly when no alias occurs in it twice. *)
Theorem alias_unique_test :
  Panel.aliasesUnique None = true
  /\ forall l, Panel.aliasesUnique (Some l) = true <-> NoDup l.
Proof.
  split; [reflexivity|]. intros l. unfold Panel.aliasesUnique, Panel.setSize.
  rewrite Nat.eqb_eq. split.
  - intros H. now apply nodup_same_length.
  - intros H. now rewrite nodup_fixed_point.
Qed.

(** X13.  The aliases the migration stores for a performer pass the
    [unique] test of the edit panel, in the order of the table and in
    any other order, such as the sorted one the panel starts from. *)
Theorem stored_aliases_pass_unique_test (pid : Z) (aliases : string)
        (s s' : state) (l : list string) :
  (2 <= List.length (pieces aliases))%nat ->
  migratePerformerAliases pid aliases s = Ok tt s' ->
  Permutation l (aliasesOf pid (performer_aliases (db s'))) ->
  Panel.aliasesUnique (Some l) = true.
Proof.
  intros Hp Hrun Hl. apply migratePerformerAliases_ok in Hrun. subst s'.
  cbn [aliasState db withAliases performer_aliases] in Hl.
  rewrite rewriteAliases_self, normalized_dedup in Hl by exact Hp.
  unfold Panel.aliasesUnique, Panel.setSize. apply Nat.eqb_eq.
  rewrite nodup_fixed_point; auto.
  apply (Permutation_NoDup (Permutation_sym Hl)), dedup_NoDup.
Qed.


Lemma NoDup_snoc {T : Type} (l : list T) (x : T) :
  NoDup l -> ~ In x l -> NoDup (l ++ [x]).
Proof.
  induction 1 as [|y l Hy Hl IH]; cbn; intros Hx.
  - constructor; [intros [] | constructor].
  - constructor; [|apply IH; tauto].
    intros Hin. apply in_app_or in Hin. cbn in Hin. intuition congruence.
Qed.

(** X14.  The stash id step throws exactly when a remote site id came
    with no scraper selected.  When it sets the list, the scraper is a
    stash-box with an endpoint; the new list ends with the one entry of
    that endpoint, which holds the remote site id, the entries of the
    other endpoints are kept in their order, and endpoints that were
    distinct stay distinct. *)
Theorem stash_id_step (remote_site_id : option string)
        (scraper : option (option string))
        (stash_ids : option (list Panel.StashIDInput)) :
  (Panel.scrapedStashIDs remote_site_id scraper stash_ids = Panel.TypeError
   <-> Panel.truthy remote_site_id = true /\ scraper = None)
  /\ forall l,
      Panel.scrapedStashIDs remote_site_id scraper stash_ids
      = Panel.SetValue l ->
      exists r ep old,
        remote_site_id = Some r /\ scraper = Some (Some ep)
        /\ r <> "" /\ ep <> ""
        /\ old = match stash_ids with Some o => o | None => [] end
        /\ filter (fun x => String.eqb (Panel.endpoint x) ep) l
           = [{| Panel.endpoint := ep; Panel.stash_id := r |}]
        /\ filter (fun x => negb (String.eqb (Panel.endpoint x) ep)) l
           = filter (fun x => negb (String.eqb (Panel.endpoint x) ep)) old
        /\ last l {| Panel.endpoint := ep; Panel.stash_id := r |}
           = {| Panel.endpoint := ep; Panel.stash_id := r |}
        /\ (NoDup (map Panel.endpoint old) -> NoDup (map Panel.endpoint l)).
Proof.
  split.
  - unfold Panel.scrapedStashIDs.
    destruct remote_site_id as [[|c r]|]; cbn;
      [intuition discriminate| |intuition discriminate].
    destruct scraper as [[[|c' e]|]|]; cbn; intuition discriminate.
  - intros l H. unfold Panel.scrapedStashIDs in H.
    destruct remote_site_id as [[|c r]|]; cbn in H; try discriminate.
    destruct scraper as [[[|c' e]|]|]; cbn in H; try discriminate.
    injection H as <-.
    set (ep := String c' e). set (rr := String c r).
    set (old := match stash_ids with Some o => o | None => [] end).
    exists rr, ep, old.
    split; [reflexivity|]. split; [reflexivity|].
    split; [discriminate|]. split; [discriminate|].
    split; [reflexivity|].
    assert (Hsame : forall f : Panel.StashIDInput -> bool,
               filter f (filter (fun x => negb (String.eqb (Panel.endpoint x)
                                                           ep)) old
                         ++ [{| Panel.endpoint := ep; Panel.stash_id := rr |}])
               = filter f (filter (fun x => negb (String.eqb
                                                    (Panel.endpoint x) ep))
                                  old)
                 ++ (if f {| Panel.endpoint := ep; Panel.stash_id := rr |}
                     then [{| Panel.endpoint := ep; Panel.stash_id := rr |}]
                     else [])).
    { intros f. rewrite filter_app. cbn. now destruct (f _). }
    split; [|split; [|split]].
    + rewrite Hsame. cbn [Panel.endpoint]. rewrite String.eqb_refl.
      rewrite filter_none; auto.
      intros x Hx. apply filter_In in Hx. destruct Hx as [_ Hx].
      now apply negb_true_iff in Hx.
    + rewrite Hsame. cbn [Panel.endpoint]. rewrite String.eqb_refl.
      cbn [negb]. rewrite app_nil_r. apply filter_all.
      intros x Hx. now apply filter_In in Hx.
    + apply last_last.
    + intros Hn. rewrite map_app. cbn [map Panel.endpoint].
      apply NoDup_snoc.
      * clear -Hn. induction old as [|x old IH]; cbn; [constructor|].
        inversion Hn as [|? ? Hnot Hn']; subst.
        destruct (negb (String.eqb (Panel.endpoint x) ep)); cbn; auto.
        constructor; auto. intros Hin. apply Hnot.
        apply in_map_iff in Hin. destruct Hin as (y & <- & Hy).
        apply filter_In in Hy. now apply in_map.
      * intros Hin. apply in_map_iff in Hin. destruct Hin as (y & Ey & Hy).
        apply filter_In in Hy. destruct Hy as [_ Hy].
        rewrite Ey, String.eqb_refl in Hy. discriminate.
Qed.

Lemma alias_unique_test_witness :
  NoDup ["Jane Doe"; "JD"]
  /\ Panel.aliasesUnique (Some ["Jane Doe"; "JD"]) = true.
Proof.
  assert (H : NoDup ["Jane Doe"; "JD"])
    by (repeat constructor; cbn; intuition discriminate).
  split; [exact H|].
  exact (proj2 (proj2 alias_unique_test ["Jane Doe"; "JD"]) H).
Defined.

Lemma stash_id_step_witness :
  exists r ep old,
    Some "abc" = Some r /\ Some (Some "https://box") = Some (Some ep)
    /\ r <> "" /\ ep <> ""
    /\ old = [{| Panel.endpoint := "https://box"; Panel.stash_id := "old" |};
              {| Panel.endpoint := "https://other"; Panel.stash_id := "x" |}]
    /\ filter (fun x => String.eqb (Panel.endpoint x) ep)
              [{| Panel.endpoint := "https://other"; Panel.stash_id := "x" |};
               {| Panel.endpoint := "https://box"; Panel.stash_id := "abc" |}]
       = [{| Panel.endpoint := ep; Panel.stash_id := r |}]
    /\ filter (fun x => negb (String.eqb (Panel.endpoint x) ep))
              [{| Panel.endpoint := "https://other"; Panel.stash_id := "x" |};
               {| Panel.endpoint := "https://box"; Panel.stash_id := "abc" |}]
       = filter (fun x => negb (String.eqb (Panel.endpoint x) ep)) old
    /\ last [{| Panel.endpoint := "https://other"; Panel.stash_id := "x" |};
             {| Panel.endpoint := "https://box"; Panel.stash_id := "abc" |}]
            {| Panel.endpoint := ep; Panel.stash_id := r |}
       = {| Panel.endpoint := ep; Panel.stash_id := r |}
    /\ (NoDup (map Panel.endpoint old) ->
        NoDup (map Panel.endpoint
                   [{| Panel.endpoint := "https://other";
                       Panel.stash_id := "x" |};
                    {| Panel.endpoint := "https://box";
                       Panel.stash_id := "abc" |}])).
Proof.
  apply (proj2 (stash_id_step
                  (Some "abc") (Some (Some "https://box"))
                  (Some [{| Panel.endpoint := "https://box";
                            Panel.stash_id := "old" |};
                         {| Panel.endpoint := "https://other";
                            Panel.stash_id := "x" |}]))).
  reflexivity.
Defined.

(** ** Scraped aliases and the pieces of the migration *)

Lemma split_cons (sep : ascii) (s : string) :
  exists h t, Panel.split sep s = h :: t.
Proof.
  destruct s as [|c r]; cbn; [eauto|].
  destruct (Ascii.eqb c sep); [eauto|].
  destruct (Panel.split sep r); eauto.
Qed.

Lemma close_cons (c : ascii) (w : list ascii) (h : string) :
  (Go.close (c :: w) ++ h)%string = (Go.close w ++ String c h)%string.
Proof.
  unfold Go.close. cbn [rev].
  induction (rev w) as [|x l IH]; cbn; [reflexivity|]. now rewrite IH.
Qed.

Lemma close_nonEmpty (w : list ascii) (h : string) :
  w <> [] -> nonEmpty (Go.close w ++ h) = true.
Proof.
  intros Hw. unfold Go.close.
  destruct (rev w) as [|x l] eqn:E; [|reflexivity].
  exfalso. apply Hw. apply (f_equal (@rev ascii)) in E.
  now rewrite rev_involutive in E.
Qed.

Lemma append_empty (a : string) : (a ++ "")%string = a.
Proof. induction a as [|c a IH]; cbn; [reflexivity|]. now rewrite IH. Qed.

(** The scan of [FieldsFunc] for one separator gives the non-empty
    pieces of [split]. *)
Lemma fieldsFrom_split (sep : ascii) (s : string) :
  forall cur,
    (forall w, cur = Some w -> w <> []) ->
    Go.fieldsFrom (fun c => Ascii.eqb c sep) cur s
    = filter nonEmpty (attach cur (Panel.split sep s)).
Proof.
  induction s as [|c r IH]; intros cur Hcur.
  - destruct cur as [w|]; cbn; [|reflexivity].
    rewrite append_empty.
    pose proof (close_nonEmpty w "" (Hcur w eq_refl)) as H.
    rewrite append_empty in H. now rewrite H.
  - cbn [Go.fieldsFrom Panel.split].
    destruct (Ascii.eqb c sep).
    + destruct cur as [w|]; cbn [attach filter].
      * rewrite append_empty.
        pose proof (close_nonEmpty w "" (Hcur w eq_refl)) as H.
        rewrite append_empty in H. rewrite H. f_equal.
        rewrite (IH None); [reflexivity | discriminate].
      * cbn. rewrite (IH None); [reflexivity | discriminate].
    + destruct (split_cons sep r) as (h & t & E). rewrite E.
      destruct cur as [w|].
      * rewrite (IH (Some (c :: w))) by (intros w' [= <-]; discriminate).
        rewrite E. cbn [attach]. now rewrite close_cons.
      * rewrite (IH (Some [c])) by (intros w' [= <-]; discriminate).
        rewrite E. reflexivity.
Qed.

Lemma fieldsFrom_ext (f g : ascii -> bool) (s : string) :
  (forall c, In c (list_ascii_of_string s) -> f c = g c) ->
  forall cur, Go.fieldsFrom f cur s = Go.fieldsFrom g cur s.
Proof.
  induction s as [|c r IH]; intros H cur; [reflexivity|].
  cbn [Go.fieldsFrom]. rewrite <- (H c) by now left.
  assert (Hr : forall c', In c' (list_ascii_of_string r) -> f c' = g c')
    by (intros c' Hc'; apply H; now right).
  destruct (f c), cur; rewrite ?(IH Hr); reflexivity.
Qed.

Lemma split_length (sep : ascii) (s : string) :
  List.length (Panel.split sep s)
  = S (count_occ ascii_dec (list_ascii_of_string s) sep).
Proof.
  induction s as [|c r IH]; [reflexivity|].
  cbn [Panel.split list_ascii_of_string count_occ].
  destruct (Ascii.eqb_spec c sep) as [->|N].
  - destruct (ascii_dec sep sep); [|congruence]. cbn. now rewrite IH.
  - destruct (ascii_dec c sep); [congruence|].
    destruct (split_cons sep r) as (h & t & E). rewrite E in *. exact IH.
Qed.

(** The pieces of [split] joined by the separator are the text, and no
    piece holds the separator. *)
Lemma split_concat (sep : ascii) (s : string) :
  String.concat (String sep "") (Panel.split sep s) = s.
Proof.
  induction s as [|c r IH]; [reflexivity|].
  cbn [Panel.split].
  destruct (split_cons sep r) as (h & t & E). rewrite E in *.
  destruct (Ascii.eqb_spec c sep) as [->|_].
  - change (String.concat (String sep "") ("" :: h :: t))
      with (String sep (String.concat (String sep "") (h :: t))).
    now rewrite IH.
  - destruct t as [|h' t'].
    + cbn [String.concat] in *. now rewrite IH.
    + change (String.concat (String sep "") (String c h :: h' :: t'))
        with (String c (String.concat (String sep "") (h :: h' :: t'))).
      now rewrite IH.
Qed.

Lemma split_free (sep : ascii) (s : string) (a : string) :
  In a (Panel.split sep s) -> ~ In sep (list_ascii_of_string a).
Proof.
  revert a. induction s as [|c r IH]; intros a Ha.
  - destruct Ha as [<-|[]]. intros [].
  - cbn [Panel.split] in Ha.
    destruct (Ascii.eqb_spec c sep) as [->|N].
    + destruct Ha as [<-|Ha]; [intros [] | now apply IH].
    + destruct (split_cons sep r) as (h & t & E). rewrite E in *.
      destruct Ha as [<-|Ha].
      * cbn [list_ascii_of_string]. intros [Hc|Hh]; [congruence|].
        apply (IH h); [now left | exact Hh].
      * apply IH. now right.
Qed.

(** X15.  Aliases that come from a scraper are set only when the text is
    not empty.  The list set is the list of the pieces between the
    commas of the text, each trimmed: pieces that hold no comma and
    that, joined by commas, give the text back, so one more than there
    are commas, empty ones included.  On a text without [/] the pieces
    the migration takes from it are the non-empty ones among the same
    pieces. *)
Theorem scraped_aliases_and_pieces (text : string) (l : list string) :
  Panel.scrapedAliases (Some text) = Panel.SetValue l ->
  let raw := Panel.split "," text in
  text <> ""
  /\ l = map Panel.trim raw
  /\ String.concat "," raw = text
  /\ (forall a, In a raw -> ~ In ","%char (list_ascii_of_string a))
  /\ List.length l
     = S (count_occ ascii_dec (list_ascii_of_string text) ","%char)
  /\ ((forall c, In c (list_ascii_of_string text) -> c <> "/"%char) ->
      pieces text = filter nonEmpty raw).
Proof.
  unfold Panel.scrapedAliases. destruct text as [|c0 r0]; [discriminate|].
  cbn [Panel.truthy]. intros [= <-]. cbv zeta.
  split; [discriminate|]. split; [reflexivity|].
  split; [apply split_concat|]. split; [apply split_free|].
  split; [rewrite length_map; exact (split_length "," (String c0 r0))|].
  intros Hslash. unfold pieces, Go.FieldsFunc.
  rewrite (fieldsFrom_ext isDelimiter (fun c => Ascii.eqb c ",")).
  - rewrite fieldsFrom_split; [reflexivity | discriminate].
  - intros c Hc. unfold isDelimiter. cbn [Go.ContainsRune].
    rewrite orb_false_r.
    destruct (Ascii.eqb_spec "/" c) as [<-|_];
      [now apply Hslash in Hc|].
    rewrite orb_false_r. apply Ascii.eqb_sym.
Qed.

Lemma scraped_aliases_and_pieces_witness :
  Panel.scrapedAliases (Some "Jane Doe, J. Doe,, JD")
  = Panel.SetValue ["Jane Doe"; "J. Doe"; ""; "JD"]
  /\ Panel.split "," "Jane Doe, J. Doe,, JD"
     = ["Jane Doe"; " J. Doe"; ""; " JD"]
  /\ pieces "Jane Doe, J. Doe,, JD" = ["Jane Doe"; " J. Doe"; " JD"]
  /\ ((forall c, In c (list_ascii_of_string "Jane Doe, J. Doe,, JD") ->
                 c <> "/"%char) ->
      pieces "Jane Doe, J. Doe,, JD"
      = filter nonEmpty (Panel.split "," "Jane Doe, J. Doe,, JD")).
Proof.
  assert (H : Panel.scrapedAliases (Some "Jane Doe, J. Doe,, JD")
              = Panel.SetValue ["Jane Doe"; "J. Doe"; ""; "JD"])
    by reflexivity.
  split; [exact H|]. split; [reflexivity|]. split; [reflexivity|].
  exact (proj2 (proj2 (proj2 (proj2
           (proj2 (scraped_aliases_and_pieces _ _ H)))))).
Defined.

(** ** The progress log of the alias pass *)

Lemma migrateLoop_logs (fuel : nat) :
  forall lastID count s,
  exists extra,
    logs (final (migrateLoop fuel lastID count s)) = logs s ++ extra
    /\ Forall (fun m => exists n,
                   m = MigratedRows n /\ Go.rem n logEvery = 0) extra.
Proof.
  induction fuel as [|n IH]; intros lastID count s.
  - exists []. cbn. now rewrite app_nil_r.
  - cbn [migrateLoop]. unfold bind at 1.
    pose proof (aliasPage_final lastID count s) as Hp. cbv zeta in Hp.
    destruct Hp as (t' & sc & q & Hf & _).
    assert (Hl : logs (final (withTxn (aliasPage lastID count) s)) = logs s)
      by (rewrite Hf; reflexivity).
    clear Hf.
    destruct (withTxn (aliasPage lastID count) s) as [[[l g] c'] s1|e s1|s1];
      cbn [final] in Hl;
      [|exists []; cbn [final]; now rewrite Hl, app_nil_r..].
    destruct g; cbn [negb];
      [|exists []; cbn [final ret]; now rewrite Hl, app_nil_r].
    unfold bind. destruct (Go.rem c' logEvery =? 0) eqn:E.
    + apply Z.eqb_eq in E. cbn [info].
      match goal with
      | |- context [migrateLoop n l c' ?s2] =>
          destruct (IH l c' s2) as (extra & H1 & H2)
      end.
      exists (MigratedRows c' :: extra).
      split; [|constructor; eauto].
      rewrite H1. cbn [logs]. now rewrite Hl, <- app_assoc.
    + cbn [ret].
      destruct (IH l c' s1) as (extra & H1 & H2).
      exists extra. split; [|exact H2]. now rewrite H1, Hl.
Qed.


(** X16.  The alias pass only adds to the log: its heading, then
    nothing but progress messages, each with a row count that is a
    multiple of 10000. *)
Theorem alias_pass_log (fuel : nat) (s : state) :
  exists extra,
    logs (final (migrate fuel s)) = logs s ++ MigratingAliases :: extra
    /\ Forall (fun m => exists n,
                   m = MigratedRows n /\ Go.rem n logEvery = 0) extra.
Proof.
  assert (E : migrate fuel s
              = migrateLoop fuel 0 0
                  {| db := db s; pending := pending s;
                     logs := logs s ++ [MigratingAliases];
                     scannedAliases := scannedAliases s;
                     scannedPerformers := scannedPerformers s;
                     stages := stages s ++ [AliasPass] |})
    by reflexivity.
  rewrite E.
  match goal with
  | |- context [migrateLoop fuel 0 0 ?s1] =>
      destruct (migrateLoop_logs fuel 0 0 s1) as (extra & H1 & H2)
  end.
  exists extra. split; [|exact H2].
  rewrite H1. cbn [logs]. now rewrite <- app_assoc.
Qed.

(** ** The message of a failed run *)

(** X17.  A failed run reports one wrapped error.  The text is
    [executing schema changes] when the finalisation failed, and
    [migrating performer aliases] when either pass failed: an error of
    the duplicate pass carries the text of the alias pass, and only the
    stages entered tell the two apart. *)
Theorem post42_error_message (fuel : nat) (s s' : state) (e : error) :
  post42 fuel s = Failed e s' ->
  exists inner,
    (e = ErrWrap "executing schema changes" inner
     /\ stages s' = stages s ++ [AliasPass; DuplicatePass; SchemaFinalize]
     /\ exists s2, executeSchemaChanges s2 = Failed inner s')
    \/ (e = ErrWrap "migrating performer aliases" inner
        /\ stages s' = stages s ++ [AliasPass; DuplicatePass]
        /\ exists s1, migrateDuplicatePerformers fuel s1 = Failed inner s')
    \/ (e = ErrWrap "migrating performer aliases" inner
        /\ stages s' = stages s ++ [AliasPass]
        /\ migrate fuel (started s) = Failed inner s').
Proof.
  rewrite post42_eq.
  pose proof (migrate_stages fuel (started s)) as H1.
  change (stages (started s)) with (stages s) in H1.
  destruct (migrate fuel (started s)) as [[] s1|e1 s1|s1] eqn:E1;
    cbn [final] in H1; [| |discriminate].
  - destruct (migrateDuplicatePerformers_stages fuel s1) as [H2 _].
    destruct (migrateDuplicatePerformers fuel s1) as [[] s2|e2 s2|s2] eqn:E2;
      cbn [final] in H2; [| |discriminate].
    + pose proof (executeSchemaChanges_stages s2) as H3.
      destruct (executeSchemaChanges s2) as [[] s3|e3 s3|s3] eqn:E3;
        cbn [final] in H3; [discriminate| |discriminate].
      intros [= <- <-]. exists e3. left. split; [reflexivity|].
      split; [|now exists s2].
      rewrite H3, H2, H1, <- !app_assoc. reflexivity.
    + intros [= <- <-]. exists e2. right. left. split; [reflexivity|].
      split; [|now exists s1].
      rewrite H2, H1, <- !app_assoc. reflexivity.
  - intros [= <- <-]. exists e1. right. right. auto.
Qed.

(** ** A commit that fails *)



End Migrator.

(** * Runs on the sample tables

    The runs below are made with [noFault], the driver that fails no
    call. *)

Lemma noFault_quiet : quiet noFault.
Proof. intros c s. reflexivity. Qed.

(** ** C1 *)

(** C1 on twelve performers of one name, no call to the driver failing.
    The first ten duplicates get 1 to 10; the query for the greatest
    disambiguation compares texts, where "9" is above "10", so the
    eleventh gets 10 again.  The pass returns, and the finalisation then
    fails on the index over name and disambiguation. *)
Theorem twelve_duplicates_repeat_ten :
  Sql.greatest (Some "9") (Some "10") = Some "9"
  /\ returned (migrateDuplicatePerformers noFault 3 (mkState (alices 12) []))
     = true
  /\ map disambiguation
         (performers
            (db (final (migrateDuplicatePerformers
                          noFault 3 (mkState (alices 12) [])))))
     = [None; Some "1"; Some "2"; Some "3"; Some "4"; Some "5"; Some "6";
        Some "7"; Some "8"; Some "9"; Some "10"; Some "10"]
  /\ failure (post42 noFault 4 (mkState (alices 12) []))
     = Some (ErrWrap "executing schema changes"
                     (ErrConstraint performers_name_disambiguation_unique)).
Proof.
  repeat split; vm_compute; reflexivity.
Qed.

(** ** C2 *)

Lemma alias_pass_normalizes_witness :
  (2 <= List.length (pieces "Jane Doe, J. Doe / JD"))%nat
  /\ dedup (map Go.TrimSpace (pieces "Jane Doe, J. Doe / JD"))
     = ["Jane Doe"; "J. Doe"; "JD"]
  /\ migrate noFault 3 (mkState [] [A 1 "Jane Doe, J. Doe / JD"; A 2 "Solo"])
     = Ok tt (final (migrate noFault 3
                             (mkState [] [A 1 "Jane Doe, J. Doe / JD";
                                          A 2 "Solo"])))
  /\ aliasesOf 1 (performer_aliases
                    (db (final (migrate noFault 3
                                        (mkState []
                                                 [A 1 "Jane Doe, J. Doe / JD";
                                                  A 2 "Solo"])))))
     = dedup (map Go.TrimSpace (pieces "Jane Doe, J. Doe / JD")).
Proof.
  assert (H : (2 <= List.length (pieces "Jane Doe, J. Doe / JD"))%nat)
    by (vm_compute; lia).
  assert (Hrun : migrate noFault 3
                         (mkState [] [A 1 "Jane Doe, J. Doe / JD"; A 2 "Solo"])
                 = Ok tt (final (migrate noFault 3
                                         (mkState []
                                                  [A 1 "Jane Doe, J. Doe / JD";
                                                   A 2 "Solo"]))))
    by (vm_compute; reflexivity).
  split; [exact H|]. split; [reflexivity|]. split; [exact Hrun|].
  destruct (alias_pass_normalizes noFault 1 "Jane Doe, J. Doe / JD" H)
    as (_ & _ & Hpass & _).
  apply (Hpass 3%nat (mkState [] [A 1 "Jane Doe, J. Doe / JD"; A 2 "Solo"])).
  - cbn. repeat constructor; cbn; intuition discriminate.
  - cbn. intros r [<-|[<-|[]]]; discriminate.
  - cbn. now left.
  - exact Hrun.
Defined.

(** C2, as the spec words it, fails.  ["a, , b"] has two non-empty pieces
    once its pieces are trimmed, [a] and [b], and the claim gives the
    performer these two aliases.  The code counts three pieces, trims
    them and stores all three: the performer ends with an empty alias
    between the two. *)
Lemma alias_pass_empty_alias_counterexample :
  trimmedPieces "a, , b" = ["a"; "b"]
  /\ dedup (trimmedPieces "a, , b") = ["a"; "b"]
  /\ migratePerformerAliases noFault 1 "a, , b" (mkState [] [A 1 "a, , b"])
     = Ok tt (mkState [] [A 1 "a"; A 1 ""; A 1 "b"])
  /\ aliasesOf 1 (performer_aliases
                    (db (final (migrate noFault 3
                                        (mkState [] [A 1 "a, , b"])))))
     = ["a"; ""; "b"]
  /\ ["a"; ""; "b"] <> dedup (trimmedPieces "a, , b").
Proof.
  split; [reflexivity|]. split; [reflexivity|]. split; [reflexivity|].
  split; [reflexivity | discriminate].
Qed.

(** ** C3 *)

Lemma alias_transform_single_is_noop_witness :
  (List.length (pieces "Solo") < 2)%nat
  /\ migratePerformerAliases noFault 2 "Solo" (mkState [] [A 2 "Solo"])
     = Ok tt (mkState [] [A 2 "Solo"])
  /\ exists s',
      migrate noFault 4 (mkState [] [A 1 "Jane Doe"; A 1 "JD"; A 2 "Solo"])
      = Ok tt s'
      /\ performer_aliases (db s') = [A 1 "Jane Doe"; A 1 "JD"; A 2 "Solo"].
Proof.
  assert (H : (List.length (pieces "Solo") < 2)%nat) by (vm_compute; lia).
  destruct (alias_transform_single_is_noop noFault) as (Hone & _ & Hpass & _).
  split; [exact H|]. split; [now apply Hone|].
  apply (Hpass noFault_quiet 4%nat
               (mkState [] [A 1 "Jane Doe"; A 1 "JD"; A 2 "Solo"])).
  - intros r [<-|[<-|[<-|[]]]]; vm_compute; lia.
  - intros r [<-|[<-|[<-|[]]]]; discriminate.
  - cbn. lia.
Defined.

(** C3, as the spec words it, fails: ["a, "] has a single non-empty piece
    once its pieces are trimmed, and the transform replaces the row by
    the two rows ["a"] and [""]. *)
Lemma alias_transform_trimmed_counterexample :
  (List.length (trimmedPieces "a, ") < 2)%nat
  /\ performer_aliases
       (db (final (migratePerformerAliases noFault 1 "a, "
                     (mkState [] [A 1 "a, "]))))
     = [A 1 "a"; A 1 ""]
  /\ [A 1 "a"; A 1 ""] <> [A 1 "a, "].
Proof.
  split; [vm_compute; lia|]. split; [reflexivity | discriminate].
Qed.

(** ** C5 *)

Lemma alias_cursor_scans_each_row_once_witness :
  exists s' F,
    migrate noFault 3 (mkState [] [A 2 "Solo"; A 1 "Jane Doe, J. Doe / JD"])
    = Ok tt s'
    /\ scannedAliases s' = [] ++ F
    /\ Permutation F [A 2 "Solo"; A 1 "Jane Doe, J. Doe / JD"]
    /\ StronglySorted (keyLt performer_id) F.
Proof.
  refine (proj2 (alias_cursor_scans_each_row_once
                   noFault 3
                   (mkState [] [A 2 "Solo"; A 1 "Jane Doe, J. Doe / JD"])
                   _ _) noFault_quiet _).
  - cbn. repeat constructor; cbn; intuition discriminate.
  - cbn. intros r [<-|[<-|[]]]; discriminate.
  - cbn. lia.
Defined.

(** C5, as the spec words it, fails.  A performer whose two rows straddle
    the end of a page has its second row skipped: the boundary moves to
    its id and the next page asks for ids beyond it.  And a page that
    ends on id 0 leaves the boundary at 0, which stands for no boundary,
    so the next page starts over. *)
Lemma alias_cursor_counterexample :
  (returned (migrate noFault 3 (mkState [] crowded)) = true
   /\ count_occ alias_row_dec crowded (A 1000 "b") = 1%nat
   /\ count_occ alias_row_dec
                (scannedAliases
                   (final (migrate noFault 3 (mkState [] crowded))))
                (A 1000 "b") = 0%nat)
  /\ (returned (migrate noFault 5 (mkState [] [A 0 "x"])) = false
      /\ count_occ alias_row_dec
                   (scannedAliases
                      (final (migrate noFault 5 (mkState [] [A 0 "x"]))))
                   (A 0 "x") = 5%nat).
Proof.
  split; [split; [|split] | split]; vm_compute; reflexivity.
Qed.

(** ** C10 *)

Lemma duplicate_pass_terminates_witness :
  (List.length (Sql.duplicates (alices 3)) < 3)%nat
  /\ returned (migrateDuplicatePerformers noFault 3 (mkState (alices 3) []))
     = true
  /\ (List.length
        (Sql.duplicates
           (performers
              (db (final (withTxn noFault (duplicatePage noFault 0)
                                  (mkState (alices 3) []))))))
      < List.length (Sql.duplicates (alices 3)))%nat.
Proof.
  destruct (duplicate_pass_terminates noFault) as (Hret & _ & Hpage).
  assert (H : (List.length (Sql.duplicates (alices 3)) < 3)%nat)
    by (vm_compute; lia).
  split; [exact H|]. split; [apply Hret; exact H|].
  assert (Hrun : withTxn noFault (duplicatePage noFault 0)
                         (mkState (alices 3) [])
                 = Ok (true, 2)
                      (final (withTxn noFault (duplicatePage noFault 0)
                                      (mkState (alices 3) []))))
    by (vm_compute; reflexivity).
  destruct (Hpage _ _ _ _ Hrun) as [_ Hsome].
  now apply Hsome.
Defined.

(** ** C8 *)

Lemma canonical_row_untouched_witness :
  In (P 1 "Alice" None)
     (performers
        (db (final (migrateDuplicatePerformers
                      noFault 3 (mkState (alices 3) [])))))
  /\ scannedPerformers
       (final (migrateDuplicatePerformers noFault 3 (mkState (alices 3) [])))
     = [(2, "Alice"); (3, "Alice")].
Proof.
  split; [|reflexivity].
  apply (canonical_row_untouched
           noFault 3 (mkState (alices 3) []) (P 1 "Alice" None)).
  - cbn. repeat constructor; cbn; intuition discriminate.
  - cbn. now left.
  - reflexivity.
Defined.

(** ** C7 *)

Lemma stages_run_in_order_witness :
  post42 noFault 4 (mkState (alices 3) [A 1 "Jane Doe, J. Doe / JD"])
  = Ok tt (final (post42 noFault 4
                         (mkState (alices 3) [A 1 "Jane Doe, J. Doe / JD"])))
  /\ stages (final (post42 noFault 4
                           (mkState (alices 3)
                                    [A 1 "Jane Doe, J. Doe / JD"])))
     = [AliasPass; DuplicatePass; SchemaFinalize].
Proof.
  assert (Hrun :
           post42 noFault 4
                  (mkState (alices 3) [A 1 "Jane Doe, J. Doe / JD"])
           = Ok tt (final (post42 noFault 4
                                  (mkState (alices 3)
                                           [A 1 "Jane Doe, J. Doe / JD"]))))
    by (vm_compute; reflexivity).
  split; [exact Hrun|].
  destruct (stages_run_in_order
              noFault 4 (mkState (alices 3) [A 1 "Jane Doe, J. Doe / JD"]))
    as (t & Ht & _ & _ & _ & Hok & _).
  rewrite Ht, (Hok _ Hrun). reflexivity.
Defined.

(** ** C4 *)

Lemma full_run_leaves_performers_unique_witness :
  post42 noFault 4 (mkState (alices 3) [A 1 "Jane Doe, J. Doe / JD"])
  = Ok tt (final (post42 noFault 4
                         (mkState (alices 3) [A 1 "Jane Doe, J. Doe / JD"])))
  /\ map disambiguation
         (performers
            (db (final (post42 noFault 4
                               (mkState (alices 3)
                                        [A 1 "Jane Doe, J. Doe / JD"])))))
     = [None; Some "1"; Some "2"]
  /\ forall l1 p l2 q l3,
      performers
        (db (final (post42 noFault 4
                           (mkState (alices 3)
                                    [A 1 "Jane Doe, J. Doe / JD"]))))
      = l1 ++ p :: l2 ++ q :: l3 ->
      name p = name q ->
      disambiguation p <> disambiguation q.
Proof.
  assert (Hrun :
           post42 noFault 4
                  (mkState (alices 3) [A 1 "Jane Doe, J. Doe / JD"])
           = Ok tt (final (post42 noFault 4
                                  (mkState (alices 3)
                                           [A 1 "Jane Doe, J. Doe / JD"]))))
    by (vm_compute; reflexivity).
  split; [exact Hrun|]. split; [vm_compute; reflexivity|].
  exact (proj1 (full_run_leaves_performers_unique noFault _ _ _ Hrun)).
Defined.

(** ** C9 *)

Lemma nonnumeric_disambiguation_is_fatal_witness :
  Sql.selectMaxDisambiguation "B" (db (mkState mixed [])) = Some (Some "x")
  /\ Go.Atoi "x" = inr notANumber
  /\ migrateDuplicatePerformer noFault 4 "B" (mkState mixed [])
     = Failed (ErrNum notANumber) (mkState mixed [])
  /\ post42 noFault 4 (mkState mixed [])
     = Failed (ErrWrap "migrating performer aliases" (ErrNum notANumber))
              (final (post42 noFault 4 (mkState mixed []))).
Proof.
  destruct (nonnumeric_disambiguation_is_fatal noFault) as (Hrow & _ & Hrun).
  assert (Hmax : Sql.selectMaxDisambiguation "B" (db (mkState mixed []))
                 = Some (Some "x")) by reflexivity.
  assert (Hatoi : Go.Atoi "x" = inr notANumber) by reflexivity.
  split; [exact Hmax|]. split; [exact Hatoi|].
  split; [exact (proj1 (Hrow 4 "B" _ "x" notANumber eq_refl Hmax Hatoi))|].
  refine (proj1 (Hrun 4%nat (mkState mixed [])
                      (final (migrate noFault 4 (started (mkState mixed []))))
                      (ErrNum notANumber)
                      (final (post42 noFault 4 (mkState mixed []))) _ _));
    vm_compute; reflexivity.
Defined.

(** C9, as the spec words it, fails on the context: two tables whose
    failing performers differ in id and name give the same error and
    the same log, so neither tells which performer it was. *)
Lemma nonnumeric_error_context_counterexample :
  scannedPerformers
    (final (post42 noFault 4
                   (mkState [P 1 "A" (Some "x"); P 2 "A" None] [])))
  = [(2, "A")]
  /\ scannedPerformers
       (final (post42 noFault 4
                      (mkState [P 5 "B" (Some "x"); P 9 "B" None] [])))
     = [(9, "B")]
  /\ failure (post42 noFault 4
                     (mkState [P 1 "A" (Some "x"); P 2 "A" None] []))
     = Some (ErrWrap "migrating performer aliases" (ErrNum notANumber))
  /\ failure (post42 noFault 4
                     (mkState [P 5 "B" (Some "x"); P 9 "B" None] []))
     = Some (ErrWrap "migrating performer aliases" (ErrNum notANumber))
  /\ logs (final (post42 noFault 4
                         (mkState [P 1 "A" (Some "x"); P 2 "A" None] [])))
     = logs (final (post42 noFault 4
                           (mkState [P 5 "B" (Some "x"); P 9 "B" None] []))).
Proof.
  repeat split; vm_compute; reflexivity.
Qed.

(** ** C6 *)

(** C6 on a page of two rows whose second row fails, no call to the
    driver failing.  The callback issues its UPDATE on [m.db], not on
    the transaction it is given, so when the second row fails on "x" and
    the transaction is aborted, the disambiguation written for the first
    row of the same page stays. *)
Theorem failed_page_keeps_its_writes :
  Sql.selectDuplicates (db (mkState mixed [])) = [(2, "A"); (4, "B")]
  /\ failure (withTxn noFault (duplicatePage noFault 0) (mkState mixed []))
     = Some (ErrNum notANumber)
  /\ pending (final (withTxn noFault (duplicatePage noFault 0)
                             (mkState mixed []))) = None
  /\ performers (db (final (withTxn noFault (duplicatePage noFault 0)
                                    (mkState mixed []))))
     = [P 1 "A" None; P 2 "A" (Some "1"); P 3 "B" (Some "x"); P 4 "B" None]
  /\ failure (post42 noFault 4 (mkState mixed []))
     = Some (ErrWrap "migrating performer aliases" (ErrNum notANumber))
  /\ performers (db (final (post42 noFault 4 (mkState mixed []))))
     = [P 1 "A" None; P 2 "A" (Some "1"); P 3 "B" (Some "x"); P 4 "B" None].
Proof.
  repeat split; vm_compute; reflexivity.
Qed.

(** ** Further properties *)

Lemma duplicate_pass_succeeds_on_numeric_witness :
  exists s',
    migrateDuplicatePerformers
      noFault 2 (mkState [P 1 "A" (Some "7"); P 2 "A" None; P 3 "B" None] [])
    = Ok tt s'
    /\ Sql.duplicates (performers (db s')) = []
    /\ numericTable (performers (db s')).
Proof.
  refine (proj2 (duplicate_pass_succeeds_on_numeric
                   noFault 2
                   (mkState [P 1 "A" (Some "7"); P 2 "A" None; P 3 "B" None]
                            [])
                   _) noFault_quiet _ _).
  - intros p v [<-|[<-|[<-|[]]]]; cbn; intros [= <-]. reflexivity.
  - reflexivity.
  - vm_compute. lia.
Defined.

Lemma duplicate_pass_failures_witness :
  migrateDuplicatePerformers noFault 3 (mkState mixed [])
  = Failed (ErrNum notANumber)
           (final (migrateDuplicatePerformers noFault 3 (mkState mixed [])))
  /\ ((exists ne p,
          ErrNum notANumber = ErrNum ne
          /\ In p (performers
                     (db (final (migrateDuplicatePerformers
                                   noFault 3 (mkState mixed [])))))
          /\ disambiguation p = Some (Go.Num ne)
          /\ isNumeric (Go.Num ne) = false)
      \/ (exists i,
             ErrNum notANumber = ErrConstraint i
             /\ In i (indexes (db (mkState mixed []))))
      \/ (exists text c s0,
             ErrNum notANumber = ErrStorage text
             /\ noFault c s0 = Some text)).
Proof.
  assert (Hrun : migrateDuplicatePerformers noFault 3 (mkState mixed [])
                 = Failed (ErrNum notANumber)
                          (final (migrateDuplicatePerformers
                                    noFault 3 (mkState mixed []))))
    by (vm_compute; reflexivity).
  split; [exact Hrun|].
  exact (duplicate_pass_failures noFault _ _ _ _ Hrun).
Defined.

Lemma written_disambiguation_parses_witness :
  exists n,
    Go.minInt <= n <= Go.maxInt
    /\ Go.Atoi (Go.Itoa n) = inl n
    /\ forall p,
        In p (performers
                (db (final (migrateDuplicatePerformer
                              noFault 2 "Alice" (mkState (alices 2) []))))) ->
        id p = 2 -> disambiguation p = Some (Go.Itoa n).
Proof.
  apply (written_disambiguation_parses
           noFault 2 "Alice" (mkState (alices 2) [])).
  vm_compute. reflexivity.
Defined.

Lemma duplicate_pass_separates_null_names_witness :
  migrateDuplicatePerformers noFault 3 (mkState (alices 3) [])
  = Ok tt (final (migrateDuplicatePerformers
                    noFault 3 (mkState (alices 3) [])))
  /\ Sql.unique performers_name_unique
                (performers
                   (db (final (migrateDuplicatePerformers
                                 noFault 3 (mkState (alices 3) []))))) = true.
Proof.
  assert (Hrun : migrateDuplicatePerformers noFault 3 (mkState (alices 3) [])
                 = Ok tt (final (migrateDuplicatePerformers
                                   noFault 3 (mkState (alices 3) []))))
    by (vm_compute; reflexivity).
  split; [exact Hrun|].
  refine (proj1 (proj2 (duplicate_pass_separates_null_names
                          noFault _ _ _ Hrun _))).
  cbn. repeat constructor; cbn; intuition discriminate.
Defined.

Lemma duplicate_pass_frame_witness :
  In (P 3 "B" (Some "x"))
     (performers (db (final (migrateDuplicatePerformers
                               noFault 3 (mkState mixed []))))).
Proof.
  refine (proj2 (proj2 (duplicate_pass_frame noFault 3 (mkState mixed [])))
                _ _ _ _).
  - cbn. repeat constructor; cbn; intuition discriminate.
  - cbn. auto.
  - discriminate.
Defined.

Lemma alias_pass_result_witness :
  migrate noFault 3 (mkState [] [A 2 "Solo"; A 1 "Jane Doe, J. Doe / JD"])
  = Ok tt (final (migrate noFault 3
                          (mkState [] [A 2 "Solo";
                                       A 1 "Jane Doe, J. Doe / JD"])))
  /\ forall pid,
      aliasesOf pid
                (performer_aliases
                   (db (final
                          (migrate noFault 3
                                   (mkState []
                                            [A 2 "Solo";
                                             A 1 "Jane Doe, J. Doe / JD"])))))
      = aliasesAfter (rowOf pid [A 2 "Solo"; A 1 "Jane Doe, J. Doe / JD"]).
Proof.
  assert (Hrun : migrate noFault 3
                         (mkState [] [A 2 "Solo"; A 1 "Jane Doe, J. Doe / JD"])
                 = Ok tt (final
                            (migrate noFault 3
                                     (mkState []
                                              [A 2 "Solo";
                                               A 1 "Jane Doe, J. Doe / JD"]))))
    by (vm_compute; reflexivity).
  split; [exact Hrun|].
  refine (proj1 (alias_pass_result
                   noFault 3
                   (mkState [] [A 2 "Solo"; A 1 "Jane Doe, J. Doe / JD"])
                   _ _) _ Hrun).
  - cbn. repeat constructor; cbn; intuition discriminate.
  - cbn. intros r [<-|[<-|[]]]; discriminate.
Defined.

Lemma post42_fails_only_on_repeated_pairs_witness :
  (exists s', post42 noFault 12 (mkState (alices 12) []) = Ok tt s')
  \/ (exists s',
         post42 noFault 12 (mkState (alices 12) [])
         = Failed (ErrWrap "executing schema changes"
                           (ErrConstraint
                              performers_name_disambiguation_unique)) s'
         /\ indexes (db s') = []
         /\ Sql.unique performers_name_disambiguation_unique
                       (performers (db s')) = false).
Proof.
  apply (post42_fails_only_on_repeated_pairs
           noFault 12 (mkState (alices 12) [])
           (final (migrate noFault 12 (started (mkState (alices 12) []))))).
  - exact noFault_quiet.
  - vm_compute. reflexivity.
  - reflexivity.
  - cbn. repeat constructor; cbn; intuition discriminate.
  - intros p v Hp Hv. cbn in Hp.
    repeat (destruct Hp as [<-|Hp]; [discriminate|]). contradiction.
  - vm_compute. lia.
Defined.

Lemma post42_not_rerunnable_witness :
  post42 noFault 4 (mkState (alices 3) [])
  = Ok tt (final (post42 noFault 4 (mkState (alices 3) [])))
  /\ forall s'',
      post42 noFault 4 (final (post42 noFault 4 (mkState (alices 3) [])))
      <> Ok tt s''.
Proof.
  assert (Hrun : post42 noFault 4 (mkState (alices 3) [])
                 = Ok tt (final (post42 noFault 4 (mkState (alices 3) []))))
    by (vm_compute; reflexivity).
  split; [exact Hrun|].
  exact (proj1 (post42_not_rerunnable noFault 4 4 _ _ Hrun)).
Defined.

Lemma stored_aliases_are_trimmed_witness :
  Go.TrimSpace "J. Doe" = "J. Doe"
  /\ noDelimiter "J. Doe"
  /\ (List.length (pieces "J. Doe") < 2)%nat.
Proof.
  apply (stored_aliases_are_trimmed
           noFault 1 "Jane Doe, J. Doe / JD" (mkState [] [])
           (final (migratePerformerAliases noFault 1 "Jane Doe, J. Doe / JD"
                                           (mkState [] [])))).
  - vm_compute. lia.
  - vm_compute. reflexivity.
  - vm_compute. auto.
Defined.

Lemma stored_aliases_pass_unique_test_witness :
  Panel.aliasesUnique (Some ["J. Doe"; "JD"; "Jane Doe"]) = true.
Proof.
  apply (stored_aliases_pass_unique_test
           noFault 1 "Jane Doe, J. Doe / JD, JD" (mkState [] [])
           (final (migratePerformerAliases
                     noFault 1 "Jane Doe, J. Doe / JD, JD"
                     (mkState [] [])))).
  - vm_compute. lia.
  - vm_compute. reflexivity.
  - vm_compute.
    apply (perm_trans (l' := ["J. Doe"; "Jane Doe"; "JD"]));
      [apply perm_skip, perm_swap | apply perm_swap].
Defined.

Lemma post42_error_message_witness :
  let e := ErrWrap "migrating performer aliases" (ErrNum notANumber) in
  let s' := final (post42 noFault 1 (mkState mixed [])) in
  post42 noFault 1 (mkState mixed []) = Failed e s'
  /\ stages s' = [AliasPass; DuplicatePass]
  /\ exists inner,
      (e = ErrWrap "executing schema changes" inner
       /\ stages s'
          = stages (mkState mixed [])
            ++ [AliasPass; DuplicatePass; SchemaFinalize]
       /\ exists s2, executeSchemaChanges noFault s2 = Failed inner s')
      \/ (e = ErrWrap "migrating performer aliases" inner
          /\ stages s'
             = stages (mkState mixed []) ++ [AliasPass; DuplicatePass]
          /\ exists s1,
              migrateDuplicatePerformers noFault 1 s1 = Failed inner s')
      \/ (e = ErrWrap "migrating performer aliases" inner
          /\ stages s' = stages (mkState mixed []) ++ [AliasPass]
          /\ migrate noFault 1 (started (mkState mixed []))
             = Failed inner s').
Proof.
  cbv zeta.
  assert (H : post42 noFault 1 (mkState mixed [])
              = Failed (ErrWrap "migrating performer aliases"
                                (ErrNum notANumber))
                       (final (post42 noFault 1 (mkState mixed []))))
    by (vm_compute; reflexivity).
  split; [exact H|]. split; [vm_compute; reflexivity|].
  exact (post42_error_message noFault 1 (mkState mixed []) _ _ H).
Defined.

